(** * Fuji 3D side-by-side converter: a verified model of the container
      walkers, the frame pairer, the compositor and the batch drivers.

    The development embeds [src/main.py] (the interleaved AVI pipeline) and
    [src/main_images.py] (the still-image MPO pipeline).  Python integers are
    [Z], byte buffers are [list byte], text is [string]; loops are written
    with fuel and shown never to run out of it; exceptions are explicit
    results. *)

From Stdlib Require Import ZArith Lia List Bool.
From Stdlib Require Import Strings.Byte Strings.Ascii Strings.String.
From Stdlib Require Import DecimalString DecimalNat.
From Stdlib Require Import Sorting.Sorted.
From Stdlib Require Import Floats.SpecFloat.
From stdpp Require Import base decidable option list countable gmap.

Local Open Scope Z_scope.

(** ** Bytes *)

#[global] Instance byte_eq_dec : EqDecision byte := Byte.byte_eq_dec.

(** The integer a [bytes] or [memoryview] element reads as. *)
Definition byte_val (b : byte) : Z := Z.of_N (Byte.to_N b).

(** ** The MPO marker scan: [parse_mpo_for_second_image] of main_images.py *)

Definition pattern1 : byte * byte * byte * byte := (xff, xd8, xff, xe1)%byte.
Definition pattern2 : byte * byte * byte * byte := (xff, xd8, xff, xe0)%byte.

(** [(b0, b1, b2, b3) == pattern1 or (b0, b1, b2, b3) == pattern2]. *)
Definition is_marker (q : byte * byte * byte * byte) : bool :=
  bool_decide (q = pattern1) || bool_decide (q = pattern2).

(** [buf[i]] for an index the loop guard keeps in range; [None] stands for
    the IndexError the guard rules out. *)
Definition buf_at (buf : list byte) (i : Z) : option byte :=
  if decide (0 <= i) then buf !! Z.to_nat i else None.

(** The four bytes read at one position. *)
Definition quad_at (buf : list byte) (i : Z) : option (byte * byte * byte * byte) :=
  match buf_at buf i, buf_at buf (i + 1), buf_at buf (i + 2), buf_at buf (i + 3) with
  | Some b0, Some b1, Some b2, Some b3 => Some (b0, b1, b2, b3)
  | _, _, _, _ => None
  end.

(** The [while i <= n - 4] loop.  [offsets] is the list being appended to;
    the result is [None] only when the fuel runs out or an index is out of
    range, and [scan_total] shows neither occurs. *)
Fixpoint scan_loop (fuel : nat) (buf : list byte) (i : Z) (offsets : list Z)
  : option (list Z) :=
  match fuel with
  | O => None
  | S fuel' =>
      let n := Z.of_nat (length buf) in
      if decide (i <= n - 4) then
        match quad_at buf i with
        | Some q =>
            if is_marker q
            then scan_loop fuel' buf (i + 3 + 1) (offsets ++ [i])
            else scan_loop fuel' buf (i + 1) offsets
        | None => None
        end
      else Some offsets
  end.

Inductive mpo_error := InsufficientMarkers.

(** Python's [offsets[k]] for a non-negative constant [k]. *)
Definition nth_offset (offsets : list Z) (k : nat) : option Z := offsets !! k.

Definition parse_mpo_for_second_image (buf : list byte) : option (mpo_error + Z * Z) :=
  let n := Z.of_nat (length buf) in
  match scan_loop (S (length buf)) buf 0 [] with
  | None => None
  | Some offsets =>
      if decide (Z.of_nat (length offsets) < 2) then Some (inl InsufficientMarkers)
      else
        match nth_offset offsets 1 with
        | None => None
        | Some start =>
            if decide (Z.of_nat (length offsets) >= 3) then
              match nth_offset offsets 2 with
              | Some third => Some (inr (start, third - start))
              | None => None
              end
            else Some (inr (start, n - start))
        end
  end.

(** *** What the scan is said to compute *)

(** A marker starts at offset [i] of [buf]. *)
Definition marker_at (buf : list byte) (i : Z) : bool :=
  match quad_at buf i with
  | Some q => is_marker q
  | None => false
  end.

(** Every offset at which one of the two patterns occurs, ascending. *)
Definition marker_offsets (buf : list byte) : list Z :=
  filter (fun i => marker_at buf i = true)
         (map Z.of_nat (seq 0 (length buf))).


(** Auxiliary: the first four bytes of a list, and the occurrences of a
    marker in a list whose head sits at offset [off]. *)
Definition head4 (l : list byte) : option (byte * byte * byte * byte) :=
  match l with
  | b0 :: b1 :: b2 :: b3 :: _ => Some (b0, b1, b2, b3)
  | _ => None
  end.

Fixpoint occ (off : Z) (l : list byte) : list Z :=
  match l with
  | [] => []
  | _ :: tl =>
      match head4 l with
      | Some q => if is_marker q then off :: occ (off + 1) tl else occ (off + 1) tl
      | None => occ (off + 1) tl
      end
  end.

(** ** Python values shared by both pipelines *)

(** The exceptions the modelled code can raise. *)
Inductive py_exn :=
  | StructError          (* struct.error: unpack requires a buffer of n bytes *)
  | ValueError           (* int(), float(), tuple unpacking, mmap of an empty file *)
  | ZeroDivisionError
  | OverflowError
  | FileExistsError
  | NotADirectoryError
  | IsADirectoryError
  | FileNotFoundError
  | DecodeError          (* the image library rejected a payload *)
  | EncodeError.         (* the image library could not write an image *)

(** The outcome of a computation that may raise. *)
Definition result (A : Type) : Type := py_exn + A.
Definition Ok {A} (a : A) : result A := inr a.
Definition Raise {A} (e : py_exn) : result A := inl e.

(** [str.isspace] on one ASCII character: tab, line feed, vertical tab,
    form feed, carriage return, the four separators 0x1c-0x1f and space. *)
Definition py_isspace (c : ascii) : bool :=
  let n := Z.of_N (N_of_ascii c) in
  ((9 <=? n) && (n <=? 13)) || ((28 <=? n) && (n <=? 32)).

Fixpoint py_lstrip (s : string) : string :=
  match s with
  | EmptyString => EmptyString
  | String c tl => if py_isspace c then py_lstrip tl else s
  end.

Fixpoint py_rstrip (s : string) : string :=
  match s with
  | EmptyString => EmptyString
  | String c tl =>
      match py_rstrip tl with
      | EmptyString => if py_isspace c then EmptyString else String c EmptyString
      | r => String c r
      end
  end.

(** [s.strip()]. *)
Definition py_strip (s : string) : string := py_rstrip (py_lstrip s).

(** [bs.decode('ascii', errors='ignore')]: bytes above 0x7f are dropped. *)
Fixpoint decode_ascii_ignore (bs : list byte) : string :=
  match bs with
  | [] => EmptyString
  | b :: tl =>
      if byte_val b <? 128
      then String (ascii_of_byte b) (decode_ascii_ignore tl)
      else decode_ascii_ignore tl
  end.

(** A bytes literal such as [b'RIFF']. *)
Definition bytes_lit (s : string) : list byte := list_byte_of_string s.

(** ** The RIFF chunk walk of [extract_and_create_sbs_with_audio] (main.py) *)

(** The binary file object: its content and the read position. *)
Record file := mkFile { f_data : list byte; f_pos : Z }.

Definition f_tell (f : file) : Z := f_pos f.

(** [f.read(n)]: the bytes from the position on, at most [n] of them; the
    position moves by what was read. *)
Definition f_read (n : Z) (f : file) : list byte * file :=
  let got := take (Z.to_nat n) (drop (Z.to_nat (f_pos f)) (f_data f)) in
  (got, mkFile (f_data f) (f_pos f + Z.of_nat (length got))).

(** [f.seek(k, 1)]: relative seek; the position may pass the end. *)
Definition f_seek_cur (k : Z) (f : file) : file :=
  mkFile (f_data f) (f_pos f + k).

(** A little-endian unsigned 32-bit integer: format [<I]. *)
Definition le_u32 (b0 b1 b2 b3 : byte) : Z :=
  byte_val b0 + 256 * byte_val b1 + 65536 * byte_val b2 + 16777216 * byte_val b3.

(** [struct.unpack('<4sI', header)]. *)
Definition unpack_4sI (h : list byte) : result (list byte * Z) :=
  match h with
  | [t0; t1; t2; t3; s0; s1; s2; s3] => Ok ([t0; t1; t2; t3], le_u32 s0 s1 s2 s3)
  | _ => Raise StructError
  end.

(** [struct.unpack('<4sI4s', riff_header)]. *)
Definition unpack_4sI4s (h : list byte) : result (list byte * Z * list byte) :=
  match h with
  | [t0; t1; t2; t3; s0; s1; s2; s3; u0; u1; u2; u3] =>
      Ok ([t0; t1; t2; t3], le_u32 s0 s1 s2 s3, [u0; u1; u2; u3])
  | _ => Raise StructError
  end.

(** The files of the temporary folder: [left_%04d.jpg], [right_%04d.jpg]
    and, in the frame folder below it, [sbs_%04d.jpg].  The number is kept
    as it is; the decimal rendering is injective. *)
Inductive frame_file :=
  | LeftJpg (n : nat)
  | RightJpg (n : nat)
  | SbsJpg (n : nat).

#[global] Instance frame_file_eq_dec : EqDecision frame_file.
Proof. solve_decision. Defined.

#[global] Instance frame_file_countable : Countable frame_file.
Proof.
  refine (inj_countable'
    (fun x => match x with
              | LeftJpg n => inl n
              | RightJpg n => inr (inl n)
              | SbsJpg n => inr (inr n)
              end)
    (fun y => match y with
              | inl n => LeftJpg n
              | inr (inl n) => RightJpg n
              | inr (inr n) => SbsJpg n
              end) _).
  intros []; reflexivity.
Defined.

(** What the walk carries: the two counters and the folder's content. *)
Record walk_state := mkWalk {
  left_count : nat;
  right_count : nat;
  tmp : gmap frame_file (list byte)
}.

(** One turn of a [while] loop. *)
Inductive step (A : Type) :=
  | Continue (a : A)
  | Break
  | Raised (e : py_exn).
Arguments Continue {A} a.
Arguments Break {A}.
Arguments Raised {A} e.

(** The body of the inner loop, lines 84-106 of main.py. *)
Definition movi_body (f : file) (st : walk_state) : step (file * walk_state) :=
  let '(frame_header, f1) := f_read 8 f in
  if bool_decide (frame_header = []) || bool_decide (Z.of_nat (length frame_header) < 8)
  then Break
  else
    match unpack_4sI frame_header with
    | inl e => Raised e
    | inr (frame_id_bytes, frame_size) =>
        let frame_id := py_strip (decode_ascii_ignore frame_id_bytes) in
        let '(frame_data, f2) := f_read frame_size f1 in
        let st' :=
          if String.eqb frame_id "00dc" then
            mkWalk (S (left_count st)) (right_count st)
                   (<[LeftJpg (left_count st) := frame_data]> (tmp st))
          else if String.eqb frame_id "02dc" then
            mkWalk (left_count st) (S (right_count st))
                   (<[RightJpg (right_count st) := frame_data]> (tmp st))
          else st in
        let f3 := if frame_size mod 2 =? 1 then f_seek_cur 1 f2 else f2 in
        Continue (f3, st')
    end.

(** [while f.tell() < movi_end: ...], lines 83-106. *)
Fixpoint movi_loop (fuel : nat) (f : file) (movi_end : Z) (st : walk_state)
  : option (result walk_state) :=
  match fuel with
  | O => None
  | S fuel' =>
      if f_tell f <? movi_end then
        match movi_body f st with
        | Continue (f', st') => movi_loop fuel' f' movi_end st'
        | Break => Some (Ok st)
        | Raised e => Some (Raise e)
        end
      else Some (Ok st)
  end.

(** What one turn of the outer loop decides. *)
Inductive top_step :=
  | TopNext (f : file)                   (* go round again *)
  | TopMovi (f : file) (movi_end : Z)    (* run the inner loop, then break *)
  | TopBreak
  | TopRaised (e : py_exn).

(** The body of the outer loop, lines 69-109, up to the inner loop. *)
Definition top_body (f : file) : top_step :=
  let pos := f_tell f in
  let '(header, f1) := f_read 8 f in
  if bool_decide (header = []) || bool_decide (Z.of_nat (length header) < 8)
  then TopBreak
  else
    match unpack_4sI header with
    | inl e => TopRaised e
    | inr (chunk_id_bytes, chunk_size) =>
        let chunk_id := py_strip (decode_ascii_ignore chunk_id_bytes) in
        if String.eqb chunk_id "LIST" then
          let '(list_type, f2) := f_read 4 f1 in
          let subtype := py_strip (decode_ascii_ignore list_type) in
          if String.eqb subtype "movi"
          then TopMovi f2 (pos + 8 + chunk_size)
          else TopNext f2
        else TopNext (f_seek_cur (chunk_size + chunk_size mod 2) f1)
    end.

(** [while True: ...], lines 68-109. *)
Fixpoint top_loop (fuel : nat) (f : file) (st : walk_state)
  : option (result walk_state) :=
  match fuel with
  | O => None
  | S fuel' =>
      match top_body f with
      | TopNext f' => top_loop fuel' f' st
      | TopMovi f' movi_end => movi_loop fuel' f' movi_end st
      | TopBreak => Some (Ok st)
      | TopRaised e => Some (Raise e)
      end
  end.

(** What the extraction of one file ends in. *)
Inductive extraction :=
  | NotValidAvi                    (* "Skipping ...: Not a valid AVI." *)
  | Walked (st : walk_state).

(** Lines 57-109: open the file, check the 12-byte header, walk the chunks.
    [tmp0] is what the temporary folder held before. *)
Definition extract_frames (data : list byte) (tmp0 : gmap frame_file (list byte))
  : option (result extraction) :=
  let f := mkFile data 0 in
  let '(riff_header, f1) := f_read 12 f in
  match unpack_4sI4s riff_header with
  | inl e => Some (Raise e)
  | inr (riff_id, riff_size, riff_format) =>
      if bool_decide (riff_id ≠ bytes_lit "RIFF") || bool_decide (riff_format ≠ bytes_lit "AVI ")
      then Some (Ok NotValidAvi)
      else
        match top_loop (S (length data)) f1 (mkWalk 0 0 tmp0) with
        | None => None
        | Some (inl e) => Some (Raise e)
        | Some (inr st) => Some (Ok (Walked st))
        end
  end.

(** *** Well-formed containers *)

Definition byte_of_Z (z : Z) : byte :=
  match Byte.of_N (Z.to_N z) with
  | Some b => b
  | None => x00%byte
  end.

(** The four bytes of [struct.pack('<I', n)]. *)
Definition le32 (n : Z) : list byte :=
  [byte_of_Z (n mod 256); byte_of_Z (n / 256 mod 256);
   byte_of_Z (n / 65536 mod 256); byte_of_Z (n / 16777216 mod 256)].

(** A chunk that carries data: tag, payload, and the byte that pads an odd
    payload to an even boundary (its value is ignored by every reader). *)
Record subchunk := mkSub {
  sc_tag : list byte;
  sc_payload : list byte;
  sc_pad : byte
}.

Definition pad_of (sc : subchunk) : list byte :=
  if Z.of_nat (length (sc_payload sc)) mod 2 =? 1 then [sc_pad sc] else [].

Definition encode_sub (sc : subchunk) : list byte :=
  sc_tag sc ++ le32 (Z.of_nat (length (sc_payload sc))) ++ sc_payload sc ++ pad_of sc.

Definition encode_subs (l : list subchunk) : list byte :=
  concat (map encode_sub l).

Definition sub_ok (sc : subchunk) : Prop :=
  length (sc_tag sc) = 4%nat /\ Z.of_nat (length (sc_payload sc)) < 2 ^ 32.

(** A RIFF chunk tree: a data chunk, or a list chunk with a subtype and
    children. *)
#[local] Unset Elimination Schemes.
Inductive chunk :=
  | Leaf (sc : subchunk)
  | Lst (subtype : list byte) (children : list chunk).
#[local] Set Elimination Schemes.

Fixpoint encode_chunk (c : chunk) : list byte :=
  match c with
  | Leaf sc => encode_sub sc
  | Lst subtype children =>
      let body := concat (map encode_chunk children) in
      bytes_lit "LIST" ++ le32 (4 + Z.of_nat (length body)) ++ subtype ++ body
  end.

Definition encode_chunks (l : list chunk) : list byte :=
  concat (map encode_chunk l).

(** A chunk ahead of the movie data: data chunks are not tagged LIST, list
    chunks are not movie-data lists, every size fits 32 bits. *)
Fixpoint chunk_ok (c : chunk) : Prop :=
  match c with
  | Leaf sc => sub_ok sc /\ sc_tag sc <> bytes_lit "LIST"
  | Lst subtype children =>
      length subtype = 4%nat /\ subtype <> bytes_lit "movi"
      /\ 4 + Z.of_nat (length (concat (map encode_chunk children))) < 2 ^ 32
      /\ (fix all (l : list chunk) : Prop :=
            match l with
            | [] => True
            | c' :: l' => chunk_ok c' /\ all l'
            end) children
  end.

(** An AVI container: the chunks ahead of the movie data (header list,
    junk, ...), the sub-chunks of the movie-data list, and whatever follows
    the list (an index, say). *)
Record avi := mkAvi {
  avi_size : Z;
  avi_preamble : list chunk;
  avi_movi : list subchunk;
  avi_trailer : list byte
}.

Definition encode_avi (a : avi) : list byte :=
  bytes_lit "RIFF" ++ le32 (avi_size a) ++ bytes_lit "AVI "
  ++ encode_chunks (avi_preamble a)
  ++ bytes_lit "LIST" ++ le32 (4 + Z.of_nat (length (encode_subs (avi_movi a))))
  ++ bytes_lit "movi" ++ encode_subs (avi_movi a)
  ++ avi_trailer a.

Definition avi_ok (a : avi) : Prop :=
  Forall chunk_ok (avi_preamble a)
  /\ Forall sub_ok (avi_movi a)
  /\ 4 + Z.of_nat (length (encode_subs (avi_movi a))) < 2 ^ 32.

(** The payloads of the sub-chunks carrying a given tag, in list order,
    which is the order of their positions in the encoded file. *)
Definition payloads_of (tag : string) (l : list subchunk) : list (list byte) :=
  map sc_payload (filter (fun sc => sc_tag sc = bytes_lit tag) l).

(** The offset, in [encode_avi a], of the header of sub-chunk number [k] of
    the movie-data list. *)
Definition sub_offset (a : avi) (k : nat) : Z :=
  Z.of_nat (12 + length (encode_chunks (avi_preamble a)) + 12
            + length (encode_subs (take k (avi_movi a)))).

(** Auxiliary: the bytes ahead of the read position are [l]. *)
Definition ahead (f : file) (l : list byte) : Prop :=
  0 <= f_pos f /\ drop (Z.to_nat (f_pos f)) (f_data f) = l.

(** What the inner loop does to the state for one sub-chunk. *)
Definition emit (sc : subchunk) (st : walk_state) : walk_state :=
  if bool_decide (sc_tag sc = bytes_lit "00dc") then
    mkWalk (S (left_count st)) (right_count st)
           (<[LeftJpg (left_count st) := sc_payload sc]> (tmp st))
  else if bool_decide (sc_tag sc = bytes_lit "02dc") then
    mkWalk (left_count st) (S (right_count st))
           (<[RightJpg (right_count st) := sc_payload sc]> (tmp st))
  else st.

Definition emit_all (l : list subchunk) (st : walk_state) : walk_state :=
  fold_left (fun s sc => emit sc s) l st.

(** The outer loop walks a chunk tree ahead of the movie data in a number
    of turns and ends up right after it, the state untouched. *)
Definition walked_past (l : list byte) : Prop :=
  forall f rest, ahead f (l ++ rest) ->
    exists n f',
      ahead f' rest
      /\ f_data f' = f_data f
      /\ f_pos f' = f_pos f + Z.of_nat (length l)
      /\ forall fuel st, top_loop (n + fuel) f st = top_loop fuel f' st.


(** A small container used to run the walk: a header list holding one
    odd-sized chunk, a junk chunk, and a movie-data list with two left
    frames, one right frame and one audio chunk. *)
Definition demo_avi : avi :=
  mkAvi 0
    [Lst (bytes_lit "hdrl") [Leaf (mkSub (bytes_lit "avih") [x01; x02; x03]%byte x00%byte)];
     Leaf (mkSub (bytes_lit "JUNK") [] x00%byte)]
    [mkSub (bytes_lit "00dc") [xaa; xbb; xcc]%byte xff%byte;
     mkSub (bytes_lit "01wb") [x09]%byte x00%byte;
     mkSub (bytes_lit "02dc") [xdd; xee]%byte x00%byte;
     mkSub (bytes_lit "00dc") [] x00%byte]
    (bytes_lit "idx1").

(** ** Images and the side-by-side compositor *)

(** A decoded RGB raster: its size and the colour at each position.  Only
    positions inside the size are pixels of the image. *)
Definition pixel : Type := byte * byte * byte.

Record image := mkImage {
  width : Z;
  height : Z;
  getpixel : Z -> Z -> pixel
}.

Definition black : pixel := (x00, x00, x00)%byte.

(** [Image.new("RGB", (w, h))]. *)
Definition image_new (w h : Z) : image := mkImage w h (fun _ _ => black).

(** [dst.paste(src, (x0, y0))]: the rectangle of [src] placed at
    [(x0, y0)] replaces what [dst] had there. *)
Definition paste (dst src : image) (x0 y0 : Z) : image :=
  mkImage (width dst) (height dst)
    (fun x y =>
       if (x0 <=? x) && (x <? x0 + width src) && (y0 <=? y) && (y <? y0 + height src)
       then getpixel src (x - x0) (y - y0)
       else getpixel dst x y).

(** *** Python's float arithmetic: IEEE 754 binary64 *)

Definition float : Type := spec_float.
Definition prec : Z := 53.
Definition emax : Z := 1024.

Definition finite_or_overflow (x : float) : result float :=
  match x with
  | S754_infinity _ => Raise OverflowError
  | _ => Ok x
  end.

(** An integer as the mantissa of a float still to be rounded. *)
Definition int_as_float (n : Z) : float :=
  match n with
  | Z0 => S754_zero false
  | Zpos p => S754_finite false p 0
  | Zneg p => S754_finite true p 0
  end.

(** [float(n)] for an int: rounded to nearest even, OverflowError past the
    largest float. *)
Definition float_of_int (n : Z) : result float :=
  finite_or_overflow (binary_normalize prec emax n 0 false).

(** [a / b] on ints: the correctly rounded quotient. *)
Definition int_truediv (a b : Z) : result float :=
  if b =? 0 then Raise ZeroDivisionError
  else finite_or_overflow (SFdiv prec emax (int_as_float a) (int_as_float b)).

(** [n * x] for an int [n] and a float [x]. *)
Definition int_mul_float (n : Z) (x : float) : result float :=
  match float_of_int n with
  | inl e => Raise e
  | inr fn => Ok (SFmul prec emax fn x)
  end.

(** The integer nearest to the rational [m / 2^k], ties to even. *)
Definition round_half_even (m : Z) (k : Z) : Z :=
  let q := m / 2 ^ k in
  let r := m mod 2 ^ k in
  match Z.compare (2 * r) (2 ^ k) with
  | Lt => q
  | Gt => q + 1
  | Eq => if Z.even q then q else q + 1
  end.

(** [round(x)] with one argument: the nearest integer, ties to even. *)
Definition py_round (x : float) : result Z :=
  match x with
  | S754_zero _ => Ok 0
  | S754_finite s m e =>
      let n := if 0 <=? e then Z.pos m * 2 ^ e else round_half_even (Z.pos m) (- e) in
      Ok (if s then - n else n)
  | S754_infinity _ => Raise OverflowError
  | S754_nan => Raise ValueError
  end.

(** [int(round(w * (H / h)))]. *)
Definition scaled_width (w H h : Z) : result Z :=
  match int_truediv H h with
  | inl e => Raise e
  | inr ratio =>
      match int_mul_float w ratio with
      | inl e => Raise e
      | inr x => py_round x
      end
  end.

Section Compositor.

(** [im.resize((W, H), Image.Resampling.LANCZOS)]: the image library's
    resampler; it may refuse a size. *)
Variable resize : image -> Z -> Z -> result image.

(** The local function [scale_to_h] of [make_sbs]. *)
Definition scale_to_h (im : image) (H : Z) : result image :=
  if (H <=? 0) || (height im =? H) then Ok im
  else
    match scaled_width (width im) H (height im) with
    | inl e => Raise e
    | inr W => resize im W H
    end.

(** Canvas, left at the origin, right next to it. *)
Definition compose (L R : image) (H : Z) : image :=
  paste (paste (image_new (width L + width R) H) L 0 0) R (width L) 0.

(** [make_sbs] of main_images.py; [None] is an unset target height. *)
Definition make_sbs (left right : image) (target_height : option Z) : result image :=
  let truthy := match target_height with
                | Some t => negb (t =? 0) && (0 <? t)
                | None => false
                end in
  let H := if truthy then default 0 target_height
           else Z.max (height left) (height right) in
  match scale_to_h left H with
  | inl e => Raise e
  | inr L =>
      match scale_to_h right H with
      | inl e => Raise e
      | inr R => Ok (compose L R H)
      end
  end.

End Compositor.

(** The merge of one pair in main.py, lines 125-130: no scaling at all. *)
Definition merge_pair (left_img right_img : image) : image :=
  let new_width := width left_img + width right_img in
  let new_height := Z.max (height left_img) (height right_img) in
  paste (paste (image_new new_width new_height) left_img 0 0)
        right_img (width left_img) 0.

(** ** Pairing and merging the extracted frames: main.py, lines 111-131 *)

(** What the pairing step of one file ends in. *)
Inductive pairing :=
  | NoValidPairs (left right : nat)     (* "Extraction failed: ...: Left l, Right r" *)
  | Merged (frames : nat) (folder : gmap frame_file (list byte)).

Section Pairing.

(** [Image.open] with the decoding a later [paste] forces: the image
    library may reject the bytes. *)
Variable decode : list byte -> option image.
(** [img.save(path, quality=95)]: the bytes of the JPEG file written.
    The encoder may refuse an image (one past the size limit of the
    format, say): then [save] raises. *)
Variable encode_jpeg : image -> option (list byte).
(** Whether a directory lies at the path of composite [idx]: then [save]
    cannot open the file it is to write. *)
Variable blocked : nat -> bool.

(** The body of [for idx in range(min_frames)]: the left file is opened
    first, then the right one; the composite is saved last, and [save]
    opens its file before it encodes. *)
Definition merge_frame (folder : gmap frame_file (list byte)) (idx : nat)
  : result (gmap frame_file (list byte)) :=
  match folder !! LeftJpg idx with
  | None => Raise FileNotFoundError
  | Some left_bytes =>
      match decode left_bytes with
      | None => Raise DecodeError
      | Some left_img =>
          match folder !! RightJpg idx with
          | None => Raise FileNotFoundError
          | Some right_bytes =>
              match decode right_bytes with
              | None => Raise DecodeError
              | Some right_img =>
                  if blocked idx then Raise IsADirectoryError
                  else
                    match encode_jpeg (merge_pair left_img right_img) with
                    | None => Raise EncodeError
                    | Some jpg => Ok (<[SbsJpg idx := jpg]> folder)
                    end
              end
          end
      end
  end.

(** The loop over [range(min_frames)], given as the list of indices: the
    exception that ended it, if any, and the folder as the loop left
    it. *)
Fixpoint merge_frames (folder : gmap frame_file (list byte)) (indices : list nat)
  : option py_exn * gmap frame_file (list byte) :=
  match indices with
  | [] => (None, folder)
  | idx :: rest =>
      match merge_frame folder idx with
      | inl e => (Some e, folder)
      | inr folder' => merge_frames folder' rest
      end
  end.

Definition pair_frames (st : walk_state) : result pairing :=
  let min_frames := Nat.min (left_count st) (right_count st) in
  if (min_frames =? 0)%nat then Ok (NoValidPairs (left_count st) (right_count st))
  else
    match merge_frames (tmp st) (seq 0 min_frames) with
    | (Some e, _) => Raise e
    | (None, folder) => Ok (Merged min_frames folder)
    end.

(** The folder as the pairing step leaves it, whatever its outcome. *)
Definition pair_frames_folder (st : walk_state) : gmap frame_file (list byte) :=
  let min_frames := Nat.min (left_count st) (right_count st) in
  if (min_frames =? 0)%nat then tmp st
  else snd (merge_frames (tmp st) (seq 0 min_frames)).

End Pairing.

(** Auxiliary: the composite written for index [i], read off a folder. *)
Definition composite_of (decode : list byte -> option image)
    (encode_jpeg : image -> option (list byte))
    (folder : gmap frame_file (list byte)) (i : nat) : option (list byte) :=
  match folder !! LeftJpg i, folder !! RightJpg i with
  | Some lb, Some rb =>
      match decode lb, decode rb with
      | Some li, Some ri =>
          encode_jpeg (merge_pair li ri)
      | _, _ => None
      end
  | _, _ => None
  end.

(** Auxiliary: the composite of payload [i] of each side. *)
Definition composite_at (decode : list byte -> option image)
    (encode_jpeg : image -> option (list byte))
    (lefts rights : list (list byte)) (i : nat) : option (list byte) :=
  match lefts !! i, rights !! i with
  | Some lb, Some rb =>
      match decode lb, decode rb with
      | Some li, Some ri =>
          encode_jpeg (merge_pair li ri)
      | _, _ => None
      end
  | _, _ => None
  end.

(** What the specification asks of a composite: as wide as both images
    together and as high as the higher one, the left image at the origin
    and the right image right of it, pixel for pixel. *)
Definition side_by_side (L R out : image) : Prop :=
  width out = width L + width R
  /\ height out = Z.max (height L) (height R)
  /\ (forall x y, 0 <= x < width L -> 0 <= y < height L ->
        getpixel out x y = getpixel L x y)
  /\ (forall x y, width L <= x < width L + width R -> 0 <= y < height R ->
        getpixel out x y = getpixel R (x - width L) y).

(** Auxiliary: [W] is an integer nearest to the value of the float [x]. *)
Definition nearest_int (W : Z) (x : float) : Prop :=
  match x with
  | S754_zero _ => W = 0
  | S754_finite s m e =>
      let v := if s then Z.neg m else Z.pos m in
      if 0 <=? e then W = v * 2 ^ e
      else 2 * Z.abs (W * 2 ^ (- e) - v) <= 2 ^ (- e)
  | _ => False
  end.

(** Auxiliary: sequencing of computations that may raise. *)
Definition bind {A B} (r : result A) (k : A -> result B) : result B :=
  match r with
  | inl e => Raise e
  | inr a => k a
  end.

(** Auxiliary: the height [make_sbs] settles on. *)
Definition chosen_height (left right : image) (target_height : option Z) : Z :=
  match target_height with
  | Some t => if 0 <? t then t else Z.max (height left) (height right)
  | None => Z.max (height left) (height right)
  end.

(** A nearest-neighbour resampler, to run the compositor on examples. *)
Definition nearest_resize (im : image) (W H : Z) : result image :=
  if (W <=? 0) || (H <=? 0) then Raise ValueError
  else Ok (mkImage W H
             (fun x y => getpixel im (x * width im / W) (y * height im / H))).

Definition demo_left : image :=
  mkImage 4 2 (fun x y => (byte_of_Z x, byte_of_Z y, x01%byte)).
Definition demo_right : image :=
  mkImage 4 2 (fun x y => (byte_of_Z x, byte_of_Z y, x02%byte)).
Definition demo_tall : image :=
  mkImage 1920 1080 (fun x y => (byte_of_Z (x mod 256), byte_of_Z (y mod 256), x03%byte)).

(** Auxiliary: [m * 2^e] is at most [2^B], with the exponent itself at most [B]. *)
Definition mag_le (m e B : Z) : Prop :=
  0 <= m /\ Zdigits2 m + e <= B /\ e <= B.

(** Auxiliary: A rounded float that is zero or finite, with the sign and a bound. *)
Definition finite_le (sx : bool) (B : Z) (x : float) : Prop :=
  match x with
  | S754_zero s => s = sx
  | S754_finite s m e => s = sx /\ mag_le (Z.pos m) e B
  | _ => False
  end.

(** ** Frame-rate discovery: main.py, lines 41-47 *)

(** [c in s] for a one-character string [c]. *)
Fixpoint py_contains (c : ascii) (s : string) : bool :=
  match s with
  | EmptyString => false
  | String a tl => Ascii.eqb a c || py_contains c tl
  end.

(** [s.split(c)] for a one-character separator. *)
Fixpoint py_split (c : ascii) (s : string) : list string :=
  match s with
  | EmptyString => [EmptyString]
  | String a tl =>
      if Ascii.eqb a c then EmptyString :: py_split c tl
      else match py_split c tl with
           | [] => [String a EmptyString]
           | hd :: rest => String a hd :: rest
           end
  end.

Definition is_digit (a : ascii) : bool :=
  let n := N_of_ascii a in (48 <=? n)%N && (n <=? 57)%N.

Definition digit_val (a : ascii) : Z := Z.of_N (N_of_ascii a) - 48.

(** A run of decimal digits in which single underscores may separate
    digits.  [acc] is the value so far, [count] the number of digits so
    far, [after_digit] tells whether the last character was a digit.  The
    result is the value and the number of digits, or [None] when the text
    is not such a run. *)
Fixpoint digit_run (s : string) (acc : Z) (count : nat) (after_digit : bool)
  : option (Z * nat) :=
  match s with
  | EmptyString => if after_digit then Some (acc, count) else None
  | String a tl =>
      if is_digit a then digit_run tl (10 * acc + digit_val a) (S count) true
      else if Ascii.eqb a "_" && after_digit then digit_run tl acc count false
      else None
  end.

Definition split_sign (s : string) : bool * string :=
  match s with
  | String "-" tl => (true, tl)
  | String "+" tl => (false, tl)
  | _ => (false, s)
  end.

(** [int(s)] for a string: surrounding whitespace, a sign, decimal digits. *)
Definition py_int (s : string) : result Z :=
  let '(neg, body) := split_sign (py_strip s) in
  match digit_run body 0 0 false with
  | Some (n, _) => Ok (if neg then - n else n)
  | None => Raise ValueError
  end.

Definition lower_ascii (a : ascii) : ascii :=
  let n := N_of_ascii a in
  if (65 <=? n)%N && (n <=? 90)%N then ascii_of_N (n + 32) else a.

(** [s.lower()] on ASCII text. *)
Fixpoint py_lower (s : string) : string :=
  match s with
  | EmptyString => EmptyString
  | String a tl => String (lower_ascii a) (py_lower tl)
  end.

(** The text up to the first of the given characters, that character if
    there is one, and the text after it. *)
Fixpoint cut_at (p : ascii -> bool) (s : string) : string * option ascii * string :=
  match s with
  | EmptyString => (EmptyString, None, EmptyString)
  | String a tl =>
      if p a then (EmptyString, Some a, tl)
      else let '(before, sep, after) := cut_at p tl in (String a before, sep, after)
  end.

(** The float nearest to [m * 10^e10]. *)
Definition decimal_to_float (neg : bool) (m : Z) (e10 : Z) : float :=
  let sm := if neg then - m else m in
  if m =? 0 then S754_zero neg
  else if 0 <=? e10 then binary_normalize prec emax (sm * 10 ^ e10) 0 false
  else SFdiv prec emax (int_as_float sm) (int_as_float (10 ^ (- e10))).

(** An optional run: absent text counts as no digits. *)
Definition digit_run_opt (s : string) : option (Z * nat) :=
  match s with
  | EmptyString => Some (0, O)
  | _ => digit_run s 0 0 false
  end.

(** [float(s)] for a string: surrounding whitespace, a sign, then
    [inf], [infinity], [nan] in any case or a decimal literal with an
    optional fraction and exponent. *)
Definition py_float (s : string) : result float :=
  let '(neg, body) := split_sign (py_strip s) in
  let low := py_lower body in
  if String.eqb low "inf" || String.eqb low "infinity" then Ok (S754_infinity neg)
  else if String.eqb low "nan" then Ok S754_nan
  else
    let '(mant, esep, etext) :=
      cut_at (fun a => Ascii.eqb a "e" || Ascii.eqb a "E") body in
    let '(itext, dot, ftext) := cut_at (fun a => Ascii.eqb a ".") mant in
    let exponent :=
      match esep with
      | None => Some 0
      | Some _ =>
          let '(eneg, edigits) := split_sign etext in
          match digit_run edigits 0 0 false with
          | Some (e, _) => Some (if eneg then - e else e)
          | None => None
          end
      end in
    match digit_run_opt itext, digit_run_opt ftext, exponent with
    | Some (ip, ni), Some (fp, nf), Some e =>
        if (ni + nf =? 0)%nat then Raise ValueError
        else Ok (decimal_to_float neg (ip * 10 ^ Z.of_nat nf + fp) (e - Z.of_nat nf))
    | _, _, _ => Raise ValueError
    end.

(** What [framerate] is bound to: the int 30, [round(q, 3)] of a quotient,
    or a parsed float. *)
Inductive framerate :=
  | FrDefault                (* 30 *)
  | FrRounded3 (q : float)   (* round(num / denom, 3) *)
  | FrFloat (x : float).

(** Lines 42-47; [stdout] is what ffprobe printed. *)
Definition parse_framerate (stdout : string) : result framerate :=
  let framerate_raw := py_strip stdout in
  if py_contains "/" framerate_raw then
    match map py_int (py_split "/" framerate_raw) with
    | [inr num; inr denom] =>
        if negb (denom =? 0) then
          match int_truediv num denom with
          | inl e => Raise e
          | inr q => Ok (FrRounded3 q)
          end
        else Ok FrDefault
    | inl e :: _ => Raise e
    | _ :: inl e :: _ => Raise e
    | _ => Raise ValueError
    end
  else
    if negb (String.eqb framerate_raw "") then
      match py_float framerate_raw with
      | inl e => Raise e
      | inr x => Ok (FrFloat x)
      end
    else Ok FrDefault.

(** ** Paths and the file system *)

(** A path is the list of its components; its name is the last one. *)
Abbreviation path := (list string) (only parsing).

Inductive node :=
  | FileNode (content : list byte)
  | DirNode.

(** The file system: what lies at each path. *)
Definition p_exists (fs : gmap path node) (p : path) : bool :=
  bool_decide (is_Some (fs !! p)).

Definition is_file (fs : gmap path node) (p : path) : bool :=
  match fs !! p with
  | Some (FileNode _) => true
  | _ => false
  end.

Definition is_dir (fs : gmap path node) (p : path) : bool :=
  match fs !! p with
  | Some DirNode => true
  | _ => false
  end.

(** [p.name]. *)
Definition p_name (p : path) : string := List.last p EmptyString.

(** [s.rfind('.')]: the index of the last dot. *)
Fixpoint rfind_dot (s : string) : option nat :=
  match s with
  | EmptyString => None
  | String a tl =>
      match rfind_dot tl with
      | Some i => Some (S i)
      | None => if Ascii.eqb a "." then Some O else None
      end
  end.

(** [PurePath.suffix] and [PurePath.stem] (pathlib up to Python 3.13): the
    name from its last dot on, unless that dot starts or ends the name. *)
Definition name_suffix (name : string) : string :=
  match rfind_dot name with
  | Some i =>
      if (0 <? i)%nat && (i <? String.length name - 1)%nat
      then String.substring i (String.length name - i) name
      else EmptyString
  | None => EmptyString
  end.

Definition name_stem (name : string) : string :=
  match rfind_dot name with
  | Some i =>
      if (0 <? i)%nat && (i <? String.length name - 1)%nat
      then String.substring 0 i name
      else name
  | None => name
  end.

Definition suffix (p : path) : string := name_suffix (p_name p).
Definition stem (p : path) : string := name_stem (p_name p).

(** [x in [a, b, ...]] on strings. *)
Definition str_in (x : string) (l : list string) : bool :=
  existsb (String.eqb x) l.

(** [p.mkdir(parents=True, exist_ok=True)]: every missing ancestor and the
    path itself become directories; a file in the way raises and nothing
    is created. *)
Fixpoint mkdir_from (fs : gmap path node) (base : path) (rest : list string)
  : result (gmap path node) :=
  match rest with
  | [] => Ok fs
  | c :: rest' =>
      let here := base ++ [c] in
      match fs !! here with
      | Some (FileNode _) =>
          Raise (match rest' with [] => FileExistsError | _ => NotADirectoryError end)
      | Some DirNode => mkdir_from fs here rest'
      | None => mkdir_from (<[here := DirNode]> fs) here rest'
      end
  end.

Definition mkdir_parents (fs : gmap path node) (p : path) : result (gmap path node) :=
  mkdir_from fs [] p.

(** [q] lies below [inp]: [inp] is a proper prefix of it. *)
Definition is_below (inp q : path) : bool :=
  bool_decide (length inp < length q)%nat && bool_decide (take (length inp) q = inp).

(** [q] is an entry of the directory [inp]. *)
Definition is_entry (inp q : path) : bool :=
  bool_decide (length q = S (length inp)) && bool_decide (take (length inp) q = inp).

(** [q] is [p] or one of its ancestors (the root apart). *)
Definition on_way (p q : path) : bool :=
  bool_decide (0 < length q <= length p)%nat && bool_decide (take (length q) p = q).

(** [shutil.rmtree(p, ignore_errors=True)]: the path and all below it go. *)
Definition rmtree (fs : gmap path node) (p : path) : gmap path node :=
  filter (fun kv => ~ (kv.1 = p \/ is_below p kv.1 = true)) fs.

(** The paths below a directory, in the order the system lists them. *)
Definition listing (fs : gmap path node) : list path :=
  map fst (map_to_list fs).

(** [inp.iterdir()]: the entries of the directory. *)
Definition iterdir (fs : gmap path node) (inp : path) : list path :=
  filter (fun q => is_entry inp q = true) (listing fs).

(** [inp.rglob("*")]: everything below the directory. *)
Definition rglob_all (fs : gmap path node) (inp : path) : list path :=
  filter (fun q => is_below inp q = true) (listing fs).

(** [name.endswith(suffix)]. *)
Definition ends_with (sfx name : string) : bool :=
  let n := String.length name in
  let k := String.length sfx in
  (k <=? n)%nat && String.eqb (String.substring (n - k) k name) sfx.

(** [inp.glob("*.avi")] on a case-sensitive file system. *)
Definition glob_avi (fs : gmap path node) (inp : path) : list path :=
  filter (fun q => ends_with ".avi" (p_name q) = true) (iterdir fs inp).

(** ** The names of the frame files *)

Fixpoint zeros (k : nat) : string :=
  match k with
  | O => EmptyString
  | S k' => String "0" (zeros k')
  end.

(** [f"{n:04d}"]: the decimal digits of [n], padded with zeros on the left
    to four characters. *)
Definition fmt_04d (n : nat) : string :=
  let digits := NilEmpty.string_of_uint (Nat.to_uint n) in
  (zeros (4 - String.length digits) ++ digits)%string.

(** Where a frame file lies below the temporary folder of its AVI file:
    [left_%04d.jpg], [right_%04d.jpg], [sbs_frames/sbs_%04d.jpg]. *)
Definition frame_path (x : frame_file) : path :=
  match x with
  | LeftJpg n => [("left_" ++ fmt_04d n ++ ".jpg")%string]
  | RightJpg n => [("right_" ++ fmt_04d n ++ ".jpg")%string]
  | SbsJpg n => ["sbs_frames"%string; ("sbs_" ++ fmt_04d n ++ ".jpg")%string]
  end.

(** ** Writing below the output directory *)

(** What an external program leaves at its output path; [None] when it
    writes nothing.  A directory in the way is never written over. *)
Definition write_file (fs : gmap path node) (p : path) (out : option (list byte))
  : gmap path node :=
  match out with
  | None => fs
  | Some content =>
      match fs !! p with
      | Some DirNode => fs
      | _ => <[p := FileNode content]> fs
      end
  end.

(** The frame files of a folder map, written at their names below the
    temporary folder [temp]. *)
Definition write_folder (temp : path) (folder : gmap frame_file (list byte))
    (fs : gmap path node) : gmap path node :=
  (FileNode <$> kmap (fun x => temp ++ frame_path x) folder) ∪ fs.

(** Whether a directory lies at the name of one of the frame files of a
    folder map: such a file cannot be opened for writing. *)
Definition frames_blocked (fs : gmap path node) (temp : path)
    (folder : gmap frame_file (list byte)) : bool :=
  negb (bool_decide
          (map_Forall (fun x _ => is_dir fs (temp ++ frame_path x) = false) folder)).

(** ** The AVI driver: [extract_and_create_sbs_with_audio] of main.py *)

(** One line of the report. *)
Inductive avi_line :=
  | Skipping (name : string)                           (* Not a valid AVI. *)
  | ExtractionFailed (name : string) (left right : nat)
  | Converted (name : string) (rate : framerate) (frames : nat).

(** What the function returns. *)
Inductive avi_report :=
  | ReportError (e : py_exn)        (* "Error: ..." from the outer [except] *)
  | ReportNoAvi                     (* "Error: No AVI files found." *)
  | ReportLines (lines : list avi_line).

Section AviDriver.

Variable decode : list byte -> option image.
Variable encode_jpeg : image -> option (list byte).
(** What ffprobe prints for a file of the given content. *)
Variable ffprobe : list byte -> string.
(** The three runs of ffmpeg: what each leaves at its output path, given
    the file system it finds and the paths on its command line; [None]
    when it writes nothing.  The first takes the AVI file, the second the
    frame rate and the folder of the composites, the third the silent video
    and the audio file. *)
Variable ffmpeg_audio : gmap path node -> path -> option (list byte).
Variable ffmpeg_video : framerate -> gmap path node -> path -> option (list byte).
Variable ffmpeg_mux : gmap path node -> path -> path -> option (list byte).

(** The temporary folders of one file. *)
Definition temp_folder (output_path avi_file : path) : path :=
  output_path ++ [(stem avi_file ++ "_tmp")%string].

Definition combined_folder (output_path avi_file : path) : path :=
  output_path ++ [(stem avi_file ++ "_tmp")%string; "sbs_frames"%string].

(** The body of [for avi_file in avi_files], lines 33-161, on the file
    system as it is after the temporary folders were made: the line added
    to the report, or the exception raised, and the file system left
    behind.  A path that is no regular file gives the external programs
    nothing to read and [open] raises.  The frame files are written below
    the temporary folder at their names; a directory lying at the name of
    one of them makes the write raise, and the frame files written before
    that one are then left out of the file system returned.  [None]: out
    of fuel. *)
Definition process_avi (output_path : path) (fs : gmap path node) (avi_file : path)
  : option (result avi_line * gmap path node) :=
  let name := p_name avi_file in
  let temp := temp_folder output_path avi_file in
  match fs !! avi_file with
  | None => Some (Raise FileNotFoundError, fs)
  | Some DirNode => Some (Raise IsADirectoryError, fs)
  | Some (FileNode probed) =>
      match parse_framerate (ffprobe probed) with
      | inl e => Some (Raise e, fs)
      | inr rate =>
          let audio_file := temp ++ ["audio.m4a"%string] in
          let fs_audio := write_file fs audio_file (ffmpeg_audio fs avi_file) in
          match fs_audio !! avi_file with
          | None => Some (Raise FileNotFoundError, fs_audio)
          | Some DirNode => Some (Raise IsADirectoryError, fs_audio)
          | Some (FileNode data) =>
              match extract_frames data ∅ with
              | None => None
              | Some (inl e) => Some (Raise e, fs_audio)
              | Some (inr NotValidAvi) => Some (Ok (Skipping name), fs_audio)
              | Some (inr (Walked st)) =>
                  if frames_blocked fs_audio temp (tmp st)
                  then Some (Raise IsADirectoryError, fs_audio)
                  else
                  let fs_frames := write_folder temp (tmp st) fs_audio in
                  let blocked := fun idx =>
                    is_dir fs_frames (temp ++ frame_path (SbsJpg idx)) in
                  match pair_frames decode encode_jpeg blocked st with
                  | inl e =>
                      Some (Raise e,
                            write_folder temp
                              (pair_frames_folder decode encode_jpeg blocked st)
                              fs_audio)
                  | inr (NoValidPairs l r) =>
                      Some (Ok (ExtractionFailed name l r), fs_frames)
                  | inr (Merged n folder) =>
                      let fs_sbs := write_folder temp folder fs_audio in
                      let sbs_video :=
                        output_path ++ [(stem avi_file ++ "_SBS_noaudio.mp4")%string] in
                      let fs_video :=
                        write_file fs_sbs sbs_video
                          (ffmpeg_video rate fs_sbs (combined_folder output_path avi_file)) in
                      let final_output :=
                        output_path ++ [(stem avi_file ++ "_SBS.mp4")%string] in
                      let fs_final :=
                        write_file fs_video final_output
                          (ffmpeg_mux fs_video sbs_video audio_file) in
                      let fs_clean := rmtree fs_final temp in
                      match fs_clean !! sbs_video with
                      | Some DirNode => Some (Raise IsADirectoryError, fs_clean)
                      | Some (FileNode _) =>
                          Some (Ok (Converted name rate n), delete sbs_video fs_clean)
                      | None => Some (Ok (Converted name rate n), fs_clean)
                      end
                  end
              end
          end
      end
  end.

(** The loop over the files: the first exception ends it. *)
Fixpoint avi_loop (fs : gmap path node) (output_path : path) (avi_files : list path)
    (results : list avi_line)
  : option (result (list avi_line) * gmap path node) :=
  match avi_files with
  | [] => Some (Ok results, fs)
  | avi_file :: rest =>
      match mkdir_parents fs (combined_folder output_path avi_file) with
      | inl e => Some (Raise e, fs)
      | inr fs1 =>
          match process_avi output_path fs1 avi_file with
          | None => None
          | Some (inl e, fs2) => Some (Raise e, fs2)
          | Some (inr line, fs2) => avi_loop fs2 output_path rest (results ++ [line])
          end
      end
  end.

(** Lines 17-21: which files are taken. *)
Definition avi_discover (fs : gmap path node) (input_path : path) : list path :=
  if is_file fs input_path && String.eqb (py_lower (suffix input_path)) ".avi"
  then [input_path]
  else if is_dir fs input_path then glob_avi fs input_path
  else [].

Definition extract_and_create_sbs_with_audio
    (fs : gmap path node) (input_path output_path : path)
  : option (avi_report * gmap path node) :=
  match (if negb (p_exists fs output_path)
         then mkdir_parents fs output_path else Ok fs) with
  | inl e => Some (ReportError e, fs)
  | inr fs1 =>
      let avi_files := avi_discover fs1 input_path in
      match avi_files with
      | [] => Some (ReportNoAvi, fs1)
      | _ =>
          match avi_loop fs1 output_path avi_files [] with
          | None => None
          | Some (inl e, fs2) => Some (ReportError e, fs2)
          | Some (inr lines, fs2) => Some (ReportLines lines, fs2)
          end
      end
  end.

End AviDriver.

(** ** The still-image driver: [mpo_to_sbs] of main_images.py *)

Inductive mpo_line :=
  | OkLine (name : string) (out : string)     (* "OK: name -> out" *)
  | FailLine (name : string) (e : py_exn).    (* "FAIL: name -> e" *)

Inductive mpo_report :=
  | Unsupported (name : string)     (* "Unsupported file: ..." *)
  | NoFilesFound                    (* "No MPO/JPG files found." *)
  | InputNotFound (p : path)        (* "Input path not found: ..." *)
  | Logs (lines : list mpo_line).

Definition image_suffixes : list string := [".mpo"; ".jpg"; ".jpeg"]%string.

Section MpoDriver.

Variable decode : list byte -> option image.
Variable resize : image -> Z -> Z -> result image.
(** [ImageOps.exif_transpose]. *)
Variable exif_transpose : image -> image.
(** [sbs.save(out, "JPEG", quality=92, subsampling=0)]: the bytes written,
    unless the encoder refuses the image and [save] raises. *)
Variable save_jpeg : image -> option (list byte).
(** The order in which the workers of the pool finish. *)
Variable completion : list path -> list path.

(** [_decode_jpeg_slice]. *)
Definition decode_jpeg_slice (buf : list byte) : result image :=
  match decode buf with
  | Some im => Ok im
  | None => Raise DecodeError
  end.

(** [read_two_frames_unreal_way]; mapping an empty file raises. *)
Definition read_two_frames_unreal_way (fs : gmap path node) (mpo_path : path)
    (exif_autorotate : bool) : option (result (image * image)) :=
  match fs !! mpo_path with
  | None => Some (Raise FileNotFoundError)
  | Some DirNode => Some (Raise IsADirectoryError)
  | Some (FileNode mv) =>
      if bool_decide (mv = []) then Some (Raise ValueError)
      else
        match decode_jpeg_slice mv with
        | inl e => Some (Raise e)
        | inr left_img =>
            match parse_mpo_for_second_image mv with
            | None => None
            | Some (inl InsufficientMarkers) => Some (Raise ValueError)
            | Some (inr (off, cnt)) =>
                match decode_jpeg_slice
                        (take (Z.to_nat cnt) (drop (Z.to_nat off) mv)) with
                | inl e => Some (Raise e)
                | inr right_img =>
                    if exif_autorotate
                    then Some (Ok (exif_transpose left_img, exif_transpose right_img))
                    else Some (Ok (left_img, right_img))
                end
            end
        end
  end.

(** [process_one]: whatever is raised becomes a FAIL line. *)
Definition process_one (outdir : path) (exif_autorotate : bool)
    (target_height : option Z) (fs : gmap path node) (p : path)
  : option (mpo_line * gmap path node) :=
  match read_two_frames_unreal_way fs p exif_autorotate with
  | None => None
  | Some (inl e) => Some (FailLine (p_name p) e, fs)
  | Some (inr (left_img, right_img)) =>
      match make_sbs resize left_img right_img target_height with
      | inl e => Some (FailLine (p_name p) e, fs)
      | inr sbs =>
          let out_name := (stem p ++ "_sbs.jpg")%string in
          let out := outdir ++ [out_name] in
          match fs !! out with
          | Some DirNode => Some (FailLine (p_name p) IsADirectoryError, fs)
          | _ =>
              match save_jpeg sbs with
              | None => Some (FailLine (p_name p) EncodeError, fs)
              | Some jpg =>
                  Some (OkLine (p_name p) out_name, <[out := FileNode jpg]> fs)
              end
          end
      end
  end.

(** The workers run one after another over the given tasks. *)
Fixpoint run_tasks (outdir : path) (exif_autorotate : bool)
    (target_height : option Z) (fs : gmap path node) (tasks : list path)
  : option (list mpo_line * gmap path node) :=
  match tasks with
  | [] => Some ([], fs)
  | p :: rest =>
      match process_one outdir exif_autorotate target_height fs p with
      | None => None
      | Some (line, fs1) =>
          match run_tasks outdir exif_autorotate target_height fs1 rest with
          | None => None
          | Some (lines, fs2) => Some (line :: lines, fs2)
          end
      end
  end.

(** Lines 121-132: the tasks, or why there are none. *)
Definition mpo_discover (fs : gmap path node) (inp : path) (recursive : bool)
  : mpo_report + list path :=
  if is_file fs inp then
    if negb (str_in (py_lower (suffix inp)) image_suffixes)
    then inl (Unsupported (p_name inp))
    else inr [inp]
  else if is_dir fs inp then
    let it := if recursive then rglob_all fs inp else iterdir fs inp in
    let tasks :=
      filter (fun p => is_file fs p && str_in (py_lower (suffix p)) image_suffixes = true)
             it in
    match tasks with
    | [] => inl NoFilesFound
    | _ => inr tasks
    end
  else inl (InputNotFound inp).

(** [mpo_to_sbs].  The pool case runs the tasks in completion order. *)
Definition mpo_to_sbs (fs : gmap path node) (input_path output_folder : path)
    (exif_autorotate recursive : bool) (target_height : option Z) (workers : Z)
  : option (result mpo_report * gmap path node) :=
  match mkdir_parents fs output_folder with
  | inl e => Some (Raise e, fs)
  | inr fs1 =>
      match mpo_discover fs1 input_path recursive with
      | inl report => Some (Ok report, fs1)
      | inr tasks =>
          let order :=
            if bool_decide (length tasks = 1%nat) || (workers <=? 1)
            then tasks else completion tasks in
          match run_tasks output_folder exif_autorotate target_height fs1 order with
          | None => None
          | Some (lines, fs2) => Some (Ok (Logs lines), fs2)
          end
      end
  end.

End MpoDriver.

(** Auxiliary: the path holds no file of at least 12 bytes. *)
Definition no_header_at (fs : gmap path node) (p : path) : Prop :=
  forall d, fs !! p = Some (FileNode d) -> (length d < 12)%nat.

(** Auxiliary: the file a report line is about. *)
Definition mpo_line_name (l : mpo_line) : string :=
  match l with
  | OkLine name _ => name
  | FailLine name _ => name
  end.

(** A batch of three AVI files, the second of them empty, and an existing
    output directory. *)
Definition demo_batch : gmap path node :=
  {[ ["clips"]%string := DirNode;
     ["clips"; "a.avi"]%string := FileNode (encode_avi demo_avi);
     ["clips"; "b.avi"]%string := FileNode [];
     ["clips"; "c.avi"]%string := FileNode (encode_avi demo_avi);
     ["out"]%string := DirNode ]}.

(** The same three files as still images for the other driver. *)
Definition demo_still : list byte :=
  [xff; xd8; xff; xe1; x00; xff; xd8; xff; xe0; x01; x02]%byte.

Definition demo_stills : gmap path node :=
  {[ ["shots"]%string := DirNode;
     ["shots"; "a.mpo"]%string := FileNode demo_still;
     ["shots"; "b.mpo"]%string := FileNode [];
     ["shots"; "c.mpo"]%string := FileNode demo_still ]}.

(** Stand-ins for the image library on the examples. *)
Definition demo_decode (bs : list byte) : option image :=
  match bs with
  | [] => None
  | _ => Some demo_left
  end.


(** ** Auxiliary definitions for the further properties *)

(** Auxiliary: the folder of [st] against the folder [tmp0] the walk began
    with. *)
Definition folder_inv (tmp0 : gmap frame_file (list byte)) (st : walk_state) : Prop :=
  (forall i, (i < left_count st)%nat -> is_Some (tmp st !! LeftJpg i))
  /\ (forall i, (i < right_count st)%nat -> is_Some (tmp st !! RightJpg i))
  /\ (forall i, (left_count st <= i)%nat -> tmp st !! LeftJpg i = tmp0 !! LeftJpg i)
  /\ (forall i, (right_count st <= i)%nat -> tmp st !! RightJpg i = tmp0 !! RightJpg i)
  /\ (forall i, tmp st !! SbsJpg i = tmp0 !! SbsJpg i).

(** Two still images with one stem. *)
Definition demo_twins : gmap path node :=
  {[ ["shots"; "a.mpo"]%string := FileNode demo_still;
     ["shots"; "a.jpg"]%string := FileNode demo_still ]}.

(** Two different still images with one stem, and stand-ins for the
    image library that tell images apart: a file decodes to an image as
    wide as the file is long, and an image is saved as its width. *)
Definition demo_namesakes : gmap path node :=
  {[ ["shots"; "a.mpo"]%string := FileNode demo_still;
     ["shots"; "a.jpg"]%string := FileNode (demo_still ++ [x03]%byte) ]}.

Definition demo_decode_length (bs : list byte) : option image :=
  Some (mkImage (Z.of_nat (length bs)) 1 (fun _ _ => black)).

Definition demo_save_width (im : image) : option (list byte) :=
  Some (le32 (width im)).

(** Auxiliary: the file a report line of the AVI driver is about. *)
Definition avi_line_name (l : avi_line) : string :=
  match l with
  | Skipping name => name
  | ExtractionFailed name _ _ => name
  | Converted name _ _ => name
  end.

(** A file system holding one file of twelve zero bytes, which is no AVI. *)
Definition demo_not_avi : gmap path node :=
  {[ ["in.avi"]%string :=
       FileNode [x00; x00; x00; x00; x00; x00; x00; x00; x00; x00; x00; x00]%byte ]}.

(** A file system in which the output path is taken by a regular file. *)
Definition demo_blocked : gmap path node :=
  {[ ["out"]%string := FileNode [];
     ["clips"]%string := DirNode;
     ["clips"; "a.avi"]%string := FileNode (encode_avi demo_avi) ]}.

(** A directory holding a file the camera named in upper case. *)
Definition demo_card : gmap path node :=
  {[ ["card"]%string := DirNode;
     ["card"; "DSCF0001.AVI"]%string := FileNode (encode_avi demo_avi);
     ["card"; "clip.avi"]%string := DirNode ]}.

(** ** The size of the thread pool: main_images.py, lines 141 and 149 *)

(** [os.cpu_count() or 4]: [None] and 0 give 4. *)
Definition cpu_count_or_4 (cpu_count : option Z) : Z :=
  match cpu_count with
  | Some n => if n =? 0 then 4 else n
  | None => 4
  end.

(** [w = max(1, min(workers, os.cpu_count() or 4))]. *)
Definition pool_size (workers : Z) (cpu_count : option Z) : Z :=
  Z.max 1 (Z.min workers (cpu_count_or_4 cpu_count)).

(** [default_workers = max(1, (os.cpu_count() or 4) // 2)]. *)
Definition default_workers (cpu_count : option Z) : Z :=
  Z.max 1 (cpu_count_or_4 cpu_count / 2).

(** ** Extensions compared without regard to letter case *)

(** The upper-case form of an ASCII letter; any other character is
    itself. *)
Definition upper_ascii (a : ascii) : ascii :=
  let n := N_of_ascii a in
  if (97 <=? n)%N && (n <=? 122)%N then ascii_of_N (n - 32) else a.

Fixpoint upper_string (s : string) : string :=
  match s with
  | EmptyString => EmptyString
  | String a tl => String (upper_ascii a) (upper_string tl)
  end.

(** Two texts are the same up to the case of their ASCII letters. *)
Definition same_ignoring_case (s t : string) : bool :=
  String.eqb (upper_string s) (upper_string t).

(** An extension is that of an AVI file, or of a still image, whatever
    the case of its letters. *)
Definition is_avi_extension (ext : string) : bool :=
  same_ignoring_case ext ".avi".

Definition is_still_extension (ext : string) : bool :=
  same_ignoring_case ext ".mpo" || same_ignoring_case ext ".jpg"
  || same_ignoring_case ext ".jpeg".

(** Files named in upper and mixed case. *)
Definition demo_cases : gmap path node :=
  {[ ["shots"]%string := DirNode;
     ["shots"; "a.MpO"]%string := FileNode [];
     ["shots"; "b.JPEG"]%string := FileNode [];
     ["shots"; "c.txt"]%string := FileNode [];
     ["clips"; "DSCF0001.AVI"]%string := FileNode [] ]}.

(** ** A list chunk of odd size ahead of the movie data *)

(** One left and one right frame. *)
Definition demo_pair : list subchunk :=
  [mkSub (bytes_lit "00dc") [xaa; xbb]%byte x00%byte;
   mkSub (bytes_lit "02dc") [xcc; xdd]%byte x00%byte].

(** A file whose first chunk, tagged [tag], declares 5 bytes: the four
    bytes [hdrl], one more byte and the pad byte; the movie-data list
    follows at offset 26. *)
Definition demo_odd_list (tag : list byte) : list byte :=
  bytes_lit "RIFF" ++ le32 0 ++ bytes_lit "AVI "
  ++ tag ++ le32 5 ++ bytes_lit "hdrl" ++ [x01; x00]%byte
  ++ bytes_lit "LIST" ++ le32 24 ++ bytes_lit "movi" ++ encode_subs demo_pair.

(** The batch with a directory lying at the name of the first left frame
    of its first file. *)
Definition demo_frame_dir : gmap path node :=
  <[ ["out"; "a_tmp"; "left_0000.jpg"]%string := DirNode ]> demo_batch.

(** Auxiliary: [fs'] holds at [q] nothing that [fs] did not hold there. *)
Definition no_new_at (fs fs' : gmap path node) (q : path) : Prop :=
  forall v, fs' !! q = Some v -> fs !! q = Some v.

(** * Part II: the properties *)
Lemma buf_at_drop buf (k j : nat) :
  buf_at buf (Z.of_nat k + Z.of_nat j) = drop k buf !! j.
Proof.
  unfold buf_at. destruct (decide _) as [_|]; [|lia].
  rewrite lookup_drop. f_equal. lia.
Qed.

Lemma quad_at_drop buf (k : nat) :
  quad_at buf (Z.of_nat k) = head4 (drop k buf).
Proof.
  unfold quad_at.
  replace (Z.of_nat k) with (Z.of_nat k + Z.of_nat 0) at 1 by lia.
  replace (Z.of_nat k + 1) with (Z.of_nat k + Z.of_nat 1) by lia.
  replace (Z.of_nat k + 2) with (Z.of_nat k + Z.of_nat 2) by lia.
  replace (Z.of_nat k + 3) with (Z.of_nat k + Z.of_nat 3) by lia.
  rewrite !buf_at_drop.
  destruct (drop k buf) as [|b0 [|b1 [|b2 [|b3 l]]]]; reflexivity.
Qed.

Lemma is_marker_inv b0 b1 b2 b3 :
  is_marker (b0, b1, b2, b3) = true ->
  b0 = xff%byte /\ b1 = xd8%byte /\ b2 = xff%byte /\ (b3 = xe1%byte \/ b3 = xe0%byte).
Proof.
  unfold is_marker, pattern1, pattern2. intros H.
  apply orb_true_iff in H. destruct H as [H|H]; apply bool_decide_eq_true in H;
    inversion H; subst; auto.
Qed.

Lemma is_marker_head b0 b1 b2 b3 :
  is_marker (b0, b1, b2, b3) = true -> b0 = xff%byte.
Proof. intros H. apply is_marker_inv in H. tauto. Qed.

Lemma occ_skip off l q :
  head4 l = Some q -> is_marker q = true ->
  occ off l = off :: occ (off + 4) (drop 4 l).
Proof.
  intros Hh Hm.
  destruct l as [|b0 [|b1 [|b2 [|b3 l]]]]; try discriminate.
  simpl in Hh. injection Hh as <-.
  apply is_marker_inv in Hm. destruct Hm as (-> & -> & -> & Hb3).
  assert (Hn1 : forall x y z, is_marker (xd8, x, y, z)%byte = false).
  { intros. unfold is_marker, pattern1, pattern2.
    rewrite !bool_decide_eq_false_2; [reflexivity| |]; intros [=]. }
  assert (Hn3 : forall x y z, b3 = xe1%byte \/ b3 = xe0%byte -> is_marker (b3, x, y, z) = false).
  { intros x y z [->| ->]; unfold is_marker, pattern1, pattern2;
    rewrite !bool_decide_eq_false_2; try reflexivity; intros [=]. }
  assert (Hn2 : forall y z, b3 = xe1%byte \/ b3 = xe0%byte -> is_marker (xff, b3, y, z)%byte = false).
  { intros y z [->| ->]; unfold is_marker, pattern1, pattern2;
    rewrite !bool_decide_eq_false_2; try reflexivity; intros [=]. }
  cbn [occ head4 drop].
  replace (is_marker (xff, xd8, xff, b3)%byte) with true
    by (symmetry; destruct Hb3 as [->| ->]; reflexivity).
  f_equal.
  replace (off + 4) with (off + 1 + 1 + 1 + 1) by lia.
  destruct l as [|c0 [|c1 [|c2 l]]]; cbn [occ head4];
    rewrite ?Hn1, ?Hn2, ?Hn3 by assumption; reflexivity.
Qed.

Lemma scan_loop_occ buf : forall fuel (k : nat) acc,
  (length (drop k buf) < fuel)%nat ->
  scan_loop fuel buf (Z.of_nat k) acc = Some (acc ++ occ (Z.of_nat k) (drop k buf)).
Proof.
  induction fuel as [|fuel IH]; intros k acc Hfuel; [exfalso; lia|].
  cbn [scan_loop]. rewrite length_drop in Hfuel.
  destruct (decide (Z.of_nat k <= Z.of_nat (length buf) - 4)) as [Hle|Hgt].
  - rewrite quad_at_drop.
    destruct (head4 (drop k buf)) as [q|] eqn:Hq.
    + destruct (is_marker q) eqn:Hm.
      * rewrite (occ_skip _ _ _ Hq Hm).
        replace (Z.of_nat k + 3 + 1) with (Z.of_nat (k + 4)) by lia.
        rewrite IH by (rewrite length_drop; lia).
        rewrite drop_drop. rewrite <- app_assoc. simpl.
        replace (Z.of_nat (k + 4)) with (Z.of_nat k + 4) by lia. reflexivity.
      * replace (Z.of_nat k + 1) with (Z.of_nat (S k)) by lia.
        rewrite IH by (rewrite length_drop; lia).
        destruct (drop k buf) as [|b l] eqn:Hd; [discriminate|].
        cbn [occ]. rewrite Hq, Hm.
        replace (drop (S k) buf) with l.
        { replace (Z.of_nat (S k)) with (Z.of_nat k + 1) by lia. reflexivity. }
        replace (S k) with (k + 1)%nat by lia.
        rewrite <- drop_drop, Hd. reflexivity.
    + exfalso.
      assert (4 <= length (drop k buf))%nat by (rewrite length_drop; lia).
      destruct (drop k buf) as [|b0 [|b1 [|b2 [|b3 l]]]]; simpl in *; try lia; discriminate.
  - f_equal.
    assert (Hshort : (length (drop k buf) < 4)%nat) by (rewrite length_drop; lia).
    destruct (drop k buf) as [|b0 [|b1 [|b2 [|b3 l]]]]; simpl in *; try lia;
      rewrite app_nil_r; reflexivity.
Qed.

Lemma scan_total buf :
  scan_loop (S (length buf)) buf 0 [] = Some (occ 0 buf).
Proof.
  change 0 with (Z.of_nat 0).
  rewrite scan_loop_occ by (rewrite drop_0; lia).
  rewrite drop_0. reflexivity.
Qed.




Lemma marker_at_drop buf (k : nat) :
  marker_at buf (Z.of_nat k) = match head4 (drop k buf) with Some q => is_marker q | None => false end.
Proof. unfold marker_at. rewrite quad_at_drop. reflexivity. Qed.

Lemma occ_filter buf : forall m (k : nat),
  (k + m = length buf)%nat ->
  filter (fun i => marker_at buf i = true) (map Z.of_nat (seq k m))
  = occ (Z.of_nat k) (drop k buf).
Proof.
  induction m as [|m IH]; intros k Hk.
  - rewrite drop_ge by lia. reflexivity.
  - cbn [seq map]. rewrite filter_cons.
    assert (Hlen : length (drop k buf) = S m) by (rewrite length_drop; lia).
    destruct (drop k buf) as [|b l] eqn:Hd; [discriminate|].
    assert (Hl : drop (S k) buf = l).
    { replace (S k) with (k + 1)%nat by lia. rewrite <- drop_drop, Hd. reflexivity. }
    rewrite IH by lia. rewrite Hl.
    cbn [occ]. rewrite marker_at_drop, Hd.
    replace (Z.of_nat (S k)) with (Z.of_nat k + 1) by lia.
    destruct (head4 (b :: l)) as [q|]; [destruct (is_marker q)|];
      destruct (decide _); congruence.
Qed.

Lemma marker_offsets_occ buf : marker_offsets buf = occ 0 buf.
Proof.
  unfold marker_offsets. rewrite (occ_filter buf (length buf) 0) by lia.
  rewrite drop_0. reflexivity.
Qed.

Lemma occ_lower : forall l off, Forall (fun x => off <= x) (occ off l).
Proof.
  induction l as [|b l IH]; intros off; [constructor|].
  cbn [occ].
  assert (H : Forall (fun x => off <= x) (occ (off + 1) l)).
  { eapply Forall_impl; [apply IH|]. simpl. intros; lia. }
  destruct (head4 (b :: l)) as [q|]; [destruct (is_marker q)|]; auto.
  constructor; [lia|assumption].
Qed.

Lemma occ_sorted : forall l off, StronglySorted Z.lt (occ off l).
Proof.
  induction l as [|b l IH]; intros off; [constructor|].
  cbn [occ].
  destruct (head4 (b :: l)) as [q|]; [destruct (is_marker q)|]; auto.
  constructor; [apply IH|].
  eapply Forall_impl; [apply occ_lower|]. simpl. intros; lia.
Qed.

Lemma marker_offsets_elem buf i :
  i ∈ marker_offsets buf <-> marker_at buf i = true.
Proof.
  unfold marker_offsets. rewrite list_elem_of_filter. split; [tauto|].
  intros H. split; [assumption|].
  unfold marker_at, quad_at, buf_at in H.
  destruct (decide (0 <= i)) as [Hi|]; [|discriminate].
  destruct (buf !! Z.to_nat i) as [b|] eqn:Hb; [|discriminate].
  apply lookup_lt_Some in Hb.
  apply list_elem_of_fmap. exists (Z.to_nat i). split; [lia|].
  apply elem_of_seq. lia.
Qed.


Example parse_mpo_two_markers :
  parse_mpo_for_second_image
    [xff; xd8; xff; xe1; x00; xff; xd8; xff; xe0; x01; x02]%byte
  = Some (inr (5, 6)).
Proof. reflexivity. Qed.

Example parse_mpo_three_markers :
  parse_mpo_for_second_image
    [xff; xd8; xff; xe1; xff; xd8; xff; xe0; x01; xff; xd8; xff; xe1; x07]%byte
  = Some (inr (4, 5)).
Proof. reflexivity. Qed.

Example parse_mpo_single_marker :
  parse_mpo_for_second_image [xff; xd8; xff; xe0; x00; xff; xd8; xff]%byte
  = Some (inl InsufficientMarkers).
Proof. reflexivity. Qed.

(** ** The chunk walk *)

(** *** Tags: decoding and stripping four bytes *)

Lemma py_lstrip_length s : (String.length (py_lstrip s) <= String.length s)%nat.
Proof.
  induction s as [|c s IH]; simpl; [lia|].
  destruct (py_isspace c); simpl; lia.
Qed.

Lemma py_lstrip_full s :
  String.length (py_lstrip s) = String.length s -> py_lstrip s = s.
Proof.
  destruct s as [|c s]; simpl; [reflexivity|].
  destruct (py_isspace c); [|reflexivity].
  pose proof (py_lstrip_length s). lia.
Qed.

Lemma py_rstrip_length s : (String.length (py_rstrip s) <= String.length s)%nat.
Proof.
  induction s as [|c s IH]; simpl; [lia|].
  destruct (py_rstrip s); [destruct (py_isspace c)|]; simpl in *; lia.
Qed.

Lemma py_rstrip_full s :
  String.length (py_rstrip s) = String.length s -> py_rstrip s = s.
Proof.
  induction s as [|c s IH]; simpl; [reflexivity|].
  pose proof (py_rstrip_length s) as Hle.
  destruct (py_rstrip s) as [|c' r] eqn:Hr.
  - destruct (py_isspace c); simpl; intros Hc; [lia|].
    destruct s; [reflexivity|]. simpl in *. lia.
  - simpl. intros Hc. f_equal. apply IH. simpl. lia.
Qed.

Lemma py_strip_length s : (String.length (py_strip s) <= String.length s)%nat.
Proof.
  unfold py_strip.
  pose proof (py_rstrip_length (py_lstrip s)). pose proof (py_lstrip_length s). lia.
Qed.

Lemma py_strip_full s :
  String.length (py_strip s) = String.length s -> py_strip s = s.
Proof.
  unfold py_strip. intros H.
  pose proof (py_rstrip_length (py_lstrip s)). pose proof (py_lstrip_length s).
  rewrite py_rstrip_full by lia. apply py_lstrip_full. lia.
Qed.

Lemma decode_ascii_ignore_length bs :
  (String.length (decode_ascii_ignore bs) <= length bs)%nat.
Proof.
  induction bs as [|b bs IH]; simpl; [lia|].
  destruct (byte_val b <? 128); simpl; lia.
Qed.

Lemma decode_ascii_ignore_full bs :
  String.length (decode_ascii_ignore bs) = length bs ->
  decode_ascii_ignore bs = string_of_list_byte bs.
Proof.
  induction bs as [|b bs IH]; simpl; [reflexivity|].
  pose proof (decode_ascii_ignore_length bs).
  destruct (byte_val b <? 128); simpl; intros Hc; [|lia].
  unfold string_of_list_byte in *. simpl. f_equal. apply IH. lia.
Qed.

(** A tag of as many bytes as the text has characters reads as that text
    only when it is that text, byte for byte. *)
Lemma tag_reads_as bs t :
  length bs = String.length t ->
  py_strip (decode_ascii_ignore bs) = t -> bs = bytes_lit t.
Proof.
  intros Hlen Ht.
  pose proof (py_strip_length (decode_ascii_ignore bs)) as H1.
  pose proof (decode_ascii_ignore_length bs) as H2.
  rewrite Ht in H1.
  assert (Hs : py_strip (decode_ascii_ignore bs) = decode_ascii_ignore bs)
    by (apply py_strip_full; rewrite Ht; lia).
  assert (Hd : decode_ascii_ignore bs = string_of_list_byte bs)
    by (apply decode_ascii_ignore_full; lia).
  unfold bytes_lit. rewrite <- Ht, Hs, Hd.
  symmetry. apply list_byte_of_string_of_list_byte.
Qed.

Lemma tag_test bs t :
  length bs = String.length t ->
  py_strip (decode_ascii_ignore (bytes_lit t)) = t ->
  String.eqb (py_strip (decode_ascii_ignore bs)) t = bool_decide (bs = bytes_lit t).
Proof.
  intros Hlen Hlit.
  destruct (String.eqb_spec (py_strip (decode_ascii_ignore bs)) t) as [He|Hne].
  - symmetry. apply bool_decide_eq_true. apply tag_reads_as; assumption.
  - symmetry. apply bool_decide_eq_false. intros ->. contradiction.
Qed.

(** *** Little-endian sizes *)

Lemma byte_val_range b : 0 <= byte_val b < 256.
Proof.
  unfold byte_val. pose proof (Byte.to_N_bounded b). lia.
Qed.

Lemma byte_val_of_Z z : 0 <= z < 256 -> byte_val (byte_of_Z z) = z.
Proof.
  intros Hz. unfold byte_val, byte_of_Z.
  destruct (Byte.of_N (Z.to_N z)) as [b|] eqn:Hb.
  - apply Byte.to_of_N in Hb. rewrite Hb. lia.
  - apply Byte.of_N_None_iff in Hb. lia.
Qed.

Lemma le_u32_le32 n :
  0 <= n < 2 ^ 32 ->
  match le32 n with
  | [s0; s1; s2; s3] => le_u32 s0 s1 s2 s3 = n
  | _ => False
  end.
Proof.
  intros Hn. unfold le32, le_u32.
  rewrite !byte_val_of_Z by (apply Z.mod_pos_bound; lia).
  change (2 ^ 32) with 4294967296 in Hn.
  pose proof (Z.div_mod n 256 ltac:(lia)).
  pose proof (Z.div_mod (n / 256) 256 ltac:(lia)).
  pose proof (Z.div_mod (n / 65536) 256 ltac:(lia)).
  assert (n / 65536 = n / 256 / 256) by (rewrite Z.div_div by lia; reflexivity).
  assert (n / 16777216 = n / 65536 / 256) by (rewrite Z.div_div by lia; reflexivity).
  assert (0 <= n / 16777216 < 256).
  { split; [apply Z.div_pos; lia|apply Z.div_lt_upper_bound; lia]. }
  rewrite (Z.mod_small (n / 16777216) 256) by lia.
  lia.
Qed.

Lemma le32_length n : length (le32 n) = 4%nat.
Proof. reflexivity. Qed.

Lemma unpack_4sI_header tag n :
  length tag = 4%nat -> 0 <= n < 2 ^ 32 ->
  unpack_4sI (tag ++ le32 n) = Ok (tag, n).
Proof.
  intros Htag Hn.
  destruct tag as [|t0 [|t1 [|t2 [|t3 [|]]]]]; try discriminate.
  pose proof (le_u32_le32 n Hn) as H.
  destruct (le32 n) as [|s0 [|s1 [|s2 [|s3 [|]]]]] eqn:He; try contradiction.
  simpl. rewrite H. reflexivity.
Qed.

(** *** Reading and seeking *)

Lemma ahead_read f x rest :
  ahead f (x ++ rest) ->
  f_read (Z.of_nat (length x)) f = (x, mkFile (f_data f) (f_pos f + Z.of_nat (length x)))
  /\ ahead (mkFile (f_data f) (f_pos f + Z.of_nat (length x))) rest.
Proof.
  intros [Hpos Hd]. unfold f_read, ahead. simpl.
  rewrite Hd, Nat2Z.id, take_app_length. split; [reflexivity|].
  split; [lia|].
  replace (Z.to_nat (f_pos f + Z.of_nat (length x)))
    with (Z.to_nat (f_pos f) + length x)%nat by lia.
  rewrite <- drop_drop, Hd, drop_app_length. reflexivity.
Qed.

Lemma ahead_seek f x rest k :
  ahead f (x ++ rest) -> k = Z.of_nat (length x) ->
  ahead (f_seek_cur k f) rest.
Proof.
  intros [Hpos Hd] ->. unfold f_seek_cur, ahead. simpl. split; [lia|].
  replace (Z.to_nat (f_pos f + Z.of_nat (length x)))
    with (Z.to_nat (f_pos f) + length x)%nat by lia.
  rewrite <- drop_drop, Hd, drop_app_length. reflexivity.
Qed.

Lemma ahead_start data : ahead (mkFile data 0) data.
Proof. split; [simpl; lia|reflexivity]. Qed.

Lemma f_read_length n f :
  0 <= n -> (Z.of_nat (length (f_read n f).1) <= n).
Proof.
  intros Hn. unfold f_read. simpl. rewrite length_take. lia.
Qed.

Lemma f_read_pos n f : f_pos (f_read n f).2 = f_pos f + Z.of_nat (length (f_read n f).1).
Proof. reflexivity. Qed.

Lemma f_read_data n f : f_data (f_read n f).2 = f_data f.
Proof. reflexivity. Qed.

Lemma f_read_bound n f :
  0 <= f_pos f -> (f_read n f).1 <> [] ->
  f_pos (f_read n f).2 <= Z.of_nat (length (f_data f)).
Proof.
  intros Hpos Hne. unfold f_read in *. simpl in *.
  rewrite length_take, length_drop.
  destruct (decide (Z.to_nat (f_pos f) < length (f_data f))%nat) as [|Hge]; [lia|].
  exfalso. apply Hne. rewrite drop_ge by lia. apply take_nil.
Qed.

Lemma pad_of_length sc :
  Z.of_nat (length (pad_of sc)) = Z.of_nat (length (sc_payload sc)) mod 2.
Proof.
  unfold pad_of.
  pose proof (Z.mod_pos_bound (Z.of_nat (length (sc_payload sc))) 2 ltac:(lia)).
  destruct (Z.eqb_spec (Z.of_nat (length (sc_payload sc)) mod 2) 1); simpl; lia.
Qed.

Lemma encode_sub_length sc :
  length (sc_tag sc) = 4%nat ->
  Z.of_nat (length (encode_sub sc))
  = 8 + Z.of_nat (length (sc_payload sc)) + Z.of_nat (length (sc_payload sc)) mod 2.
Proof.
  intros Htag. unfold encode_sub.
  rewrite !length_app, le32_length, Htag.
  pose proof (pad_of_length sc). lia.
Qed.

(** *** One turn of the inner loop on a well-formed sub-chunk *)

Lemma emit_tags sc st :
  length (sc_tag sc) = 4%nat ->
  (if String.eqb (py_strip (decode_ascii_ignore (sc_tag sc))) "00dc" then
     mkWalk (S (left_count st)) (right_count st)
            (<[LeftJpg (left_count st) := sc_payload sc]> (tmp st))
   else if String.eqb (py_strip (decode_ascii_ignore (sc_tag sc))) "02dc" then
     mkWalk (left_count st) (S (right_count st))
            (<[RightJpg (right_count st) := sc_payload sc]> (tmp st))
   else st) = emit sc st.
Proof.
  intros Htag. unfold emit.
  rewrite !tag_test by (assumption || reflexivity). reflexivity.
Qed.

Lemma movi_body_sub f sc rest st :
  sub_ok sc -> ahead f (encode_sub sc ++ rest) ->
  exists f',
    movi_body f st = Continue (f', emit sc st)
    /\ ahead f' rest
    /\ f_data f' = f_data f
    /\ f_pos f' = f_pos f + Z.of_nat (length (encode_sub sc)).
Proof.
  intros [Htag Hsize] Ha.
  set (n := Z.of_nat (length (sc_payload sc))) in *.
  assert (Hn : 0 <= n < 2 ^ 32) by (unfold n; lia).
  unfold encode_sub in Ha. fold n in Ha.
  rewrite app_assoc, <- !app_assoc in Ha.
  rewrite (app_assoc (sc_tag sc)) in Ha.
  destruct (ahead_read _ _ _ Ha) as [Hr1 Ha1].
  rewrite length_app, le32_length, Htag in Hr1, Ha1.
  change (Z.of_nat (4 + 4)) with 8 in Hr1, Ha1.
  destruct (ahead_read _ _ _ Ha1) as [Hr2 Ha2]. fold n in Hr2, Ha2.
  unfold movi_body. rewrite Hr1.
  rewrite (unpack_4sI_header _ _ Htag Hn).
  assert (Hh : length (sc_tag sc ++ le32 n) = 8%nat)
    by (rewrite length_app, le32_length, Htag; reflexivity).
  assert (Hne : sc_tag sc ++ le32 n <> [])
    by (intros E; rewrite E in Hh; discriminate).
  assert (Hlt : ~ Z.of_nat (length (sc_tag sc ++ le32 n)) < 8) by lia.
  rewrite (bool_decide_eq_false_2 _ Hne), (bool_decide_eq_false_2 _ Hlt).
  cbn [orb]. unfold Ok. rewrite Hr2. cbv beta iota zeta.
  rewrite (emit_tags sc st Htag).
  pose proof (encode_sub_length sc Htag) as Hlen. fold n in Hlen.
  pose proof (pad_of_length sc) as Hpad. fold n in Hpad.
  unfold pad_of in *. fold n in Ha2, Hpad |- *.
  destruct (Z.eqb_spec (n mod 2) 1) as [Hodd|Heven].
  - eexists. split; [reflexivity|].
    split; [eapply ahead_seek; [exact Ha2|reflexivity]|].
    split; [reflexivity|]. simpl. lia.
  - eexists. split; [reflexivity|].
    split; [exact Ha2|].
    split; [reflexivity|]. simpl in *. lia.
Qed.

Lemma encode_subs_cons sc l : encode_subs (sc :: l) = encode_sub sc ++ encode_subs l.
Proof. reflexivity. Qed.

(** *** The inner loop over a well-formed movie-data list *)

Lemma movi_loop_S fuel f movi_end st :
  movi_loop (S fuel) f movi_end st =
  if f_tell f <? movi_end then
    match movi_body f st with
    | Continue (f', st') => movi_loop fuel f' movi_end st'
    | Break => Some (Ok st)
    | Raised e => Some (Raise e)
    end
  else Some (Ok st).
Proof. reflexivity. Qed.

Lemma top_loop_S fuel f st :
  top_loop (S fuel) f st =
  match top_body f with
  | TopNext f' => top_loop fuel f' st
  | TopMovi f' movi_end => movi_loop fuel f' movi_end st
  | TopBreak => Some (Ok st)
  | TopRaised e => Some (Raise e)
  end.
Proof. reflexivity. Qed.

Lemma movi_loop_subs : forall subs f rest st fuel,
  Forall sub_ok subs ->
  ahead f (encode_subs subs ++ rest) ->
  movi_loop (S (length subs + fuel)) f
            (f_pos f + Z.of_nat (length (encode_subs subs))) st
  = Some (Ok (emit_all subs st)).
Proof.
  induction subs as [|sc subs IH]; intros f rest st fuel Hok Ha.
  - rewrite movi_loop_S. unfold f_tell. simpl.
    rewrite (proj2 (Z.ltb_ge _ _)) by lia. reflexivity.
  - inversion Hok as [|? ? Hsc Hrest]; subst.
    rewrite encode_subs_cons in Ha |- *. rewrite <- app_assoc in Ha.
    destruct (movi_body_sub f sc _ st Hsc Ha) as (f' & Hb & Ha' & Hdata & Hpos).
    pose proof (encode_sub_length sc (proj1 Hsc)) as Hlen.
    pose proof (Z.mod_pos_bound (Z.of_nat (length (sc_payload sc))) 2 ltac:(lia)).
    cbn [length Nat.add]. rewrite movi_loop_S. unfold f_tell.
    rewrite (proj2 (Z.ltb_lt _ _)) by (rewrite length_app; lia).
    rewrite Hb.
    replace (f_pos f + Z.of_nat (length (encode_sub sc ++ encode_subs subs)))
      with (f_pos f' + Z.of_nat (length (encode_subs subs)))
      by (rewrite length_app; lia).
    rewrite (IH f' rest (emit sc st) fuel Hrest Ha'). reflexivity.
Qed.

(** *** One turn of the outer loop *)

Lemma top_body_leaf f sc rest :
  sub_ok sc -> sc_tag sc <> bytes_lit "LIST" ->
  ahead f (encode_sub sc ++ rest) ->
  exists f',
    top_body f = TopNext f'
    /\ ahead f' rest
    /\ f_pos f' = f_pos f + Z.of_nat (length (encode_sub sc)).
Proof.
  intros [Htag Hsize] Hnl Ha.
  set (n := Z.of_nat (length (sc_payload sc))) in *.
  assert (Hn : 0 <= n < 2 ^ 32) by (unfold n; lia).
  pose proof (encode_sub_length sc Htag) as Hlen. fold n in Hlen.
  pose proof (pad_of_length sc) as Hpad. fold n in Hpad.
  unfold encode_sub in Ha. fold n in Ha.
  rewrite app_assoc, <- !app_assoc in Ha.
  rewrite (app_assoc (sc_tag sc)) in Ha.
  destruct (ahead_read _ _ _ Ha) as [Hr1 Ha1].
  rewrite length_app, le32_length, Htag in Hr1, Ha1.
  change (Z.of_nat (4 + 4)) with 8 in Hr1, Ha1.
  unfold top_body. rewrite Hr1.
  rewrite (unpack_4sI_header _ _ Htag Hn).
  assert (Hh : length (sc_tag sc ++ le32 n) = 8%nat)
    by (rewrite length_app, le32_length, Htag; reflexivity).
  assert (Hne : sc_tag sc ++ le32 n <> [])
    by (intros E; rewrite E in Hh; discriminate).
  assert (Hlt : ~ Z.of_nat (length (sc_tag sc ++ le32 n)) < 8) by lia.
  rewrite (bool_decide_eq_false_2 _ Hne), (bool_decide_eq_false_2 _ Hlt).
  cbn [orb]. unfold Ok. cbv beta iota zeta.
  rewrite tag_test by (assumption || reflexivity).
  rewrite (bool_decide_eq_false_2 _ Hnl).
  eexists. split; [reflexivity|]. split.
  - rewrite app_assoc in Ha1. eapply ahead_seek; [exact Ha1|].
    rewrite length_app. lia.
  - simpl. lia.
Qed.

Lemma top_body_list f size subtype rest :
  0 <= size < 2 ^ 32 -> length subtype = 4%nat ->
  ahead f (bytes_lit "LIST" ++ le32 size ++ subtype ++ rest) ->
  exists f',
    top_body f =
      (if bool_decide (subtype = bytes_lit "movi")
       then TopMovi f' (f_pos f + 8 + size) else TopNext f')
    /\ ahead f' rest
    /\ f_pos f' = f_pos f + 12.
Proof.
  intros Hn Hst Ha.
  rewrite app_assoc in Ha.
  destruct (ahead_read _ _ _ Ha) as [Hr1 Ha1].
  rewrite length_app, le32_length in Hr1, Ha1.
  change (Z.of_nat (length (bytes_lit "LIST") + 4)) with 8 in Hr1, Ha1.
  destruct (ahead_read _ _ _ Ha1) as [Hr2 Ha2].
  rewrite Hst in Hr2, Ha2. change (Z.of_nat 4) with 4 in Hr2, Ha2.
  unfold top_body. rewrite Hr1.
  rewrite (unpack_4sI_header (bytes_lit "LIST") size eq_refl Hn).
  assert (Hne : bytes_lit "LIST" ++ le32 size <> []) by discriminate.
  assert (Hlt : ~ Z.of_nat (length (bytes_lit "LIST" ++ le32 size)) < 8)
    by (rewrite length_app, le32_length; simpl; lia).
  rewrite (bool_decide_eq_false_2 _ Hne), (bool_decide_eq_false_2 _ Hlt).
  cbn [orb]. unfold Ok. cbv beta iota zeta.
  rewrite (tag_test (bytes_lit "LIST") "LIST" eq_refl eq_refl).
  rewrite bool_decide_eq_true_2 by reflexivity.
  rewrite Hr2. cbv beta iota zeta.
  rewrite tag_test by (assumption || reflexivity).
  eexists. split; [unfold f_tell; destruct (bool_decide _); reflexivity|].
  split; [exact Ha2|]. simpl. lia.
Qed.

(** *** The loops never run out of fuel *)

Lemma header_read f header f1 :
  0 <= f_pos f ->
  f_read 8 f = (header, f1) ->
  bool_decide (header = []) || bool_decide (Z.of_nat (length header) < 8) = false ->
  f_data f1 = f_data f /\ f_pos f1 = f_pos f + 8
  /\ f_pos f + 8 <= Z.of_nat (length (f_data f)).
Proof.
  intros Hpos Hr Hc.
  apply orb_false_iff in Hc. destruct Hc as [Hne Hlt].
  apply bool_decide_eq_false in Hne, Hlt.
  pose proof (f_read_length 8 f ltac:(lia)) as Hle.
  pose proof (f_read_pos 8 f) as Hp.
  pose proof (f_read_bound 8 f Hpos) as Hb.
  rewrite Hr in Hle, Hp, Hb. simpl in Hle, Hp, Hb.
  specialize (Hb Hne).
  split; [rewrite <- (f_read_data 8 f), Hr; reflexivity|]. lia.
Qed.

Lemma movi_body_progress f st f' st' :
  0 <= f_pos f ->
  movi_body f st = Continue (f', st') ->
  f_data f' = f_data f /\ f_pos f + 8 <= f_pos f'
  /\ f_pos f + 8 <= Z.of_nat (length (f_data f)).
Proof.
  intros Hpos. unfold movi_body.
  destruct (f_read 8 f) as [header f1] eqn:Hr.
  destruct (_ || _) eqn:Hc; [discriminate|].
  destruct (header_read _ _ _ Hpos Hr Hc) as (Hd1 & Hp1 & Hb).
  destruct (unpack_4sI header) as [e|[frame_id_bytes frame_size]]; [discriminate|].
  destruct (f_read frame_size f1) as [frame_data f2] eqn:Hr2.
  pose proof (f_read_pos frame_size f1) as Hp2.
  pose proof (f_read_data frame_size f1) as Hd2.
  rewrite Hr2 in Hp2, Hd2. simpl in Hp2, Hd2.
  intros [= <- _].
  destruct (frame_size mod 2 =? 1); simpl; (split; [congruence|lia]).
Qed.

Lemma top_body_progress f :
  0 <= f_pos f ->
  match top_body f with
  | TopNext f' | TopMovi f' _ =>
      f_data f' = f_data f /\ f_pos f + 8 <= f_pos f'
      /\ f_pos f + 8 <= Z.of_nat (length (f_data f))
  | TopBreak => True
  | TopRaised _ => True
  end.
Proof.
  intros Hpos. unfold top_body.
  destruct (f_read 8 f) as [header f1] eqn:Hr.
  destruct (_ || _) eqn:Hc; [exact I|].
  destruct (header_read _ _ _ Hpos Hr Hc) as (Hd1 & Hp1 & Hb).
  destruct (unpack_4sI header) as [e|[chunk_id_bytes chunk_size]] eqn:Hu; [exact I|].
  assert (Hsz : 0 <= chunk_size).
  { unfold unpack_4sI in Hu.
    destruct header as [|t0 [|t1 [|t2 [|t3 [|s0 [|s1 [|s2 [|s3 [|]]]]]]]]];
      try discriminate.
    injection Hu as _ <-. unfold le_u32.
    pose proof (byte_val_range s0). pose proof (byte_val_range s1).
    pose proof (byte_val_range s2). pose proof (byte_val_range s3). lia. }
  destruct (String.eqb _ "LIST").
  - destruct (f_read 4 f1) as [list_type f2] eqn:Hr2.
    pose proof (f_read_pos 4 f1) as Hp2.
    pose proof (f_read_data 4 f1) as Hd2.
    rewrite Hr2 in Hp2, Hd2. simpl in Hp2, Hd2.
    destruct (String.eqb _ "movi"); (split; [congruence|lia]).
  - pose proof (Z.mod_pos_bound chunk_size 2 ltac:(lia)).
    simpl. split; [congruence|lia].
Qed.

Lemma movi_loop_total : forall fuel f movi_end st,
  0 <= f_pos f ->
  Z.max 0 (Z.of_nat (length (f_data f)) - f_pos f) < Z.of_nat fuel ->
  exists r, movi_loop fuel f movi_end st = Some r.
Proof.
  induction fuel as [|fuel IH]; intros f movi_end st Hpos Hfuel; [exfalso; lia|].
  rewrite movi_loop_S.
  destruct (f_tell f <? movi_end); [|eauto].
  destruct (movi_body f st) as [[f' st']| |e] eqn:Hb; [|eauto|eauto].
  apply movi_body_progress in Hb; [|assumption].
  apply IH; [lia|]. destruct Hb as (-> & ? & ?). lia.
Qed.

Lemma top_loop_total : forall fuel f st,
  0 <= f_pos f ->
  Z.max 0 (Z.of_nat (length (f_data f)) - f_pos f) < Z.of_nat fuel ->
  exists r, top_loop fuel f st = Some r.
Proof.
  induction fuel as [|fuel IH]; intros f st Hpos Hfuel; [exfalso; lia|].
  rewrite top_loop_S.
  pose proof (top_body_progress f Hpos) as Hp.
  destruct (top_body f) as [f'|f' movi_end| |e]; [| |eauto|eauto].
  - destruct Hp as (Hd & ? & ?). apply IH; [lia|]. rewrite Hd. lia.
  - destruct Hp as (Hd & ? & ?). apply movi_loop_total; [lia|]. rewrite Hd. lia.
Qed.

Lemma movi_loop_mono : forall fuel fuel' f movi_end st r,
  (fuel <= fuel')%nat ->
  movi_loop fuel f movi_end st = Some r ->
  movi_loop fuel' f movi_end st = Some r.
Proof.
  induction fuel as [|fuel IH]; intros fuel' f movi_end st r Hle H; [discriminate|].
  destruct fuel' as [|fuel']; [lia|].
  rewrite movi_loop_S in H |- *.
  destruct (f_tell f <? movi_end); [|assumption].
  destruct (movi_body f st) as [[f' st']| |e]; [|assumption|assumption].
  apply (IH fuel'); [lia|assumption].
Qed.

Lemma top_loop_mono : forall fuel fuel' f st r,
  (fuel <= fuel')%nat ->
  top_loop fuel f st = Some r ->
  top_loop fuel' f st = Some r.
Proof.
  induction fuel as [|fuel IH]; intros fuel' f st r Hle H; [discriminate|].
  destruct fuel' as [|fuel']; [lia|].
  rewrite top_loop_S in H |- *.
  destruct (top_body f) as [f'|f' movi_end| |e]; [| |assumption|assumption].
  - apply (IH fuel'); [lia|assumption].
  - apply (movi_loop_mono fuel fuel'); [lia|assumption].
Qed.

(** Whatever some amount of fuel yields is what the walk returns. *)
Lemma top_loop_enough fuel f st r :
  0 <= f_pos f -> f_pos f <= Z.of_nat (length (f_data f)) ->
  top_loop fuel f st = Some r ->
  top_loop (S (length (f_data f))) f st = Some r.
Proof.
  intros Hpos Hle H.
  destruct (top_loop_total (S (length (f_data f))) f st Hpos ltac:(lia)) as [r' Hr'].
  pose proof (top_loop_mono fuel (Nat.max fuel (S (length (f_data f)))) f st r
                ltac:(lia) H) as H1.
  pose proof (top_loop_mono (S (length (f_data f)))
                (Nat.max fuel (S (length (f_data f)))) f st r'
                ltac:(lia) Hr') as H2.
  congruence.
Qed.

(** *** Chunk trees ahead of the movie data *)

Lemma chunk_ind_nested (P : chunk -> Prop) :
  (forall sc, P (Leaf sc)) ->
  (forall subtype children, Forall P children -> P (Lst subtype children)) ->
  forall c, P c.
Proof.
  intros Hleaf Hlst.
  fix IH 1. intros [sc|subtype children].
  - apply Hleaf.
  - apply Hlst. induction children as [|c l IHl]; constructor; [apply IH|exact IHl].
Qed.

Lemma chunk_ok_Lst subtype children :
  chunk_ok (Lst subtype children) <->
  length subtype = 4%nat /\ subtype <> bytes_lit "movi"
  /\ 4 + Z.of_nat (length (encode_chunks children)) < 2 ^ 32
  /\ Forall chunk_ok children.
Proof.
  cbn [chunk_ok]. fold (encode_chunks children).
  assert (Hall : (fix all (l : list chunk) : Prop :=
            match l with
            | [] => True
            | c' :: l' => chunk_ok c' /\ all l'
            end) children <-> Forall chunk_ok children).
  { induction children as [|c l IH]; [split; constructor|].
    rewrite Forall_cons, IH. reflexivity. }
  rewrite Hall. reflexivity.
Qed.

Lemma walked_past_nil : walked_past [].
Proof.
  intros f rest Ha. exists 0%nat, f. simpl.
  split; [exact Ha|]. split; [reflexivity|]. split; [lia|reflexivity].
Qed.

Lemma walked_past_app l1 l2 :
  walked_past l1 -> walked_past l2 -> walked_past (l1 ++ l2).
Proof.
  intros H1 H2 f rest Ha. rewrite <- app_assoc in Ha.
  destruct (H1 f _ Ha) as (n1 & f1 & Ha1 & Hd1 & Hp1 & Hl1).
  destruct (H2 f1 _ Ha1) as (n2 & f2 & Ha2 & Hd2 & Hp2 & Hl2).
  exists (n1 + n2)%nat, f2.
  split; [exact Ha2|]. split; [congruence|].
  split; [rewrite length_app; lia|].
  intros fuel st. rewrite <- Nat.add_assoc, Hl1, Hl2. reflexivity.
Qed.

Lemma walked_past_one l :
  (forall f rest, ahead f (l ++ rest) ->
     exists f', top_body f = TopNext f' /\ ahead f' rest
                /\ f_pos f' = f_pos f + Z.of_nat (length l)) ->
  walked_past l.
Proof.
  intros H f rest Ha.
  destruct (H f rest Ha) as (f' & Hb & Ha' & Hp).
  exists 1%nat, f'. split; [exact Ha'|].
  split.
  { pose proof (top_body_progress f (proj1 Ha)) as Hpr. rewrite Hb in Hpr. tauto. }
  split; [exact Hp|].
  intros fuel st. change (1 + fuel)%nat with (S fuel).
  rewrite top_loop_S, Hb. reflexivity.
Qed.

Lemma walked_past_chunk c : chunk_ok c -> walked_past (encode_chunk c).
Proof.
  induction c as [sc|subtype children IH] using chunk_ind_nested; intros Hok.
  - destruct Hok as [Hsc Hnl]. apply walked_past_one.
    intros f rest Ha. apply top_body_leaf; assumption.
  - apply chunk_ok_Lst in Hok. destruct Hok as (Hst & Hnm & Hsize & Hch).
    cbn [encode_chunk]. fold (encode_chunks children).
    replace (bytes_lit "LIST" ++ le32 (4 + Z.of_nat (length (encode_chunks children)))
             ++ subtype ++ encode_chunks children)
      with ((bytes_lit "LIST" ++ le32 (4 + Z.of_nat (length (encode_chunks children)))
             ++ subtype) ++ encode_chunks children)
      by (rewrite <- !app_assoc; reflexivity).
    apply walked_past_app.
    + apply walked_past_one. intros f rest Ha.
      rewrite <- !app_assoc in Ha.
      assert (Hrange : 0 <= 4 + Z.of_nat (length (encode_chunks children)) < 2 ^ 32) by lia.
      destruct (top_body_list f _ subtype rest Hrange Hst Ha) as (f' & Hb & Ha' & Hp).
      rewrite (bool_decide_eq_false_2 _ Hnm) in Hb.
      exists f'. split; [exact Hb|]. split; [exact Ha'|].
      rewrite !length_app, le32_length, Hst. simpl. lia.
    + clear Hsize. induction children as [|c l IHl]; [apply walked_past_nil|].
      inversion IH; subst. inversion Hch; subst.
      change (encode_chunks (c :: l)) with (encode_chunk c ++ encode_chunks l).
      apply walked_past_app; auto.
Qed.

Lemma walked_past_chunks l : Forall chunk_ok l -> walked_past (encode_chunks l).
Proof.
  induction 1 as [|c l Hc Hl IH]; [apply walked_past_nil|].
  change (encode_chunks (c :: l)) with (encode_chunk c ++ encode_chunks l).
  apply walked_past_app; [apply walked_past_chunk; assumption|exact IH].
Qed.

(** *** What the inner loop leaves behind *)

Lemma payloads_of_cons tag sc l :
  payloads_of tag (sc :: l) =
  if bool_decide (sc_tag sc = bytes_lit tag)
  then sc_payload sc :: payloads_of tag l else payloads_of tag l.
Proof.
  unfold payloads_of. rewrite filter_cons.
  destruct (decide (sc_tag sc = bytes_lit tag)) as [E|E].
  - rewrite (bool_decide_eq_true_2 _ E). reflexivity.
  - rewrite (bool_decide_eq_false_2 _ E). reflexivity.
Qed.

Lemma emit_all_counts : forall subs st,
  left_count (emit_all subs st)
    = (left_count st + length (payloads_of "00dc" subs))%nat
  /\ right_count (emit_all subs st)
    = (right_count st + length (payloads_of "02dc" subs))%nat.
Proof.
  induction subs as [|sc subs IH]; intros st.
  - simpl. split; lia.
  - change (emit_all (sc :: subs) st) with (emit_all subs (emit sc st)).
    destruct (IH (emit sc st)) as [IHl IHr]. rewrite IHl, IHr.
    rewrite !payloads_of_cons. unfold emit.
    destruct (decide (sc_tag sc = bytes_lit "00dc")) as [E|E].
    + rewrite (bool_decide_eq_true_2 _ E).
      rewrite bool_decide_eq_false_2 by (rewrite E; discriminate).
      simpl. split; lia.
    + rewrite (bool_decide_eq_false_2 _ E).
      destruct (bool_decide (sc_tag sc = bytes_lit "02dc")); simpl; split; lia.
Qed.

Lemma emit_all_left : forall subs st i,
  tmp (emit_all subs st) !! LeftJpg i =
  if decide (left_count st <= i < left_count st + length (payloads_of "00dc" subs))%nat
  then payloads_of "00dc" subs !! (i - left_count st)%nat
  else tmp st !! LeftJpg i.
Proof.
  induction subs as [|sc subs IH]; intros st i.
  - simpl. destruct (decide _); [lia|reflexivity].
  - change (emit_all (sc :: subs) st) with (emit_all subs (emit sc st)).
    rewrite IH, payloads_of_cons. unfold emit.
    destruct (decide (sc_tag sc = bytes_lit "00dc")) as [E|E].
    + rewrite (bool_decide_eq_true_2 _ E). cbn [left_count tmp length].
      repeat destruct (decide _); try lia.
      * replace (i - left_count st)%nat with (S (i - S (left_count st))) by lia.
        reflexivity.
      * assert (i = left_count st) as -> by lia.
        rewrite lookup_insert_eq, Nat.sub_diag. reflexivity.
      * rewrite lookup_insert_ne by (intros [=]; lia). reflexivity.
    + rewrite (bool_decide_eq_false_2 _ E).
      destruct (bool_decide (sc_tag sc = bytes_lit "02dc")); cbn [left_count tmp];
        repeat destruct (decide _); try lia; try reflexivity.
      rewrite lookup_insert_ne by discriminate. reflexivity.
Qed.

Lemma emit_all_right : forall subs st i,
  tmp (emit_all subs st) !! RightJpg i =
  if decide (right_count st <= i < right_count st + length (payloads_of "02dc" subs))%nat
  then payloads_of "02dc" subs !! (i - right_count st)%nat
  else tmp st !! RightJpg i.
Proof.
  induction subs as [|sc subs IH]; intros st i.
  - simpl. destruct (decide _); [lia|reflexivity].
  - change (emit_all (sc :: subs) st) with (emit_all subs (emit sc st)).
    rewrite IH, payloads_of_cons. unfold emit.
    destruct (decide (sc_tag sc = bytes_lit "00dc")) as [E|E].
    + rewrite (bool_decide_eq_true_2 _ E).
      rewrite bool_decide_eq_false_2 by (rewrite E; discriminate).
      cbn [right_count tmp].
      rewrite lookup_insert_ne by discriminate. reflexivity.
    + rewrite (bool_decide_eq_false_2 _ E).
      destruct (decide (sc_tag sc = bytes_lit "02dc")) as [E2|E2].
      * rewrite (bool_decide_eq_true_2 _ E2). cbn [right_count tmp length].
        repeat destruct (decide _); try lia.
        -- replace (i - right_count st)%nat with (S (i - S (right_count st))) by lia.
           reflexivity.
        -- assert (i = right_count st) as -> by lia.
           rewrite lookup_insert_eq, Nat.sub_diag. reflexivity.
        -- rewrite lookup_insert_ne by (intros [=]; lia). reflexivity.
      * rewrite (bool_decide_eq_false_2 _ E2). reflexivity.
Qed.

Lemma emit_all_sbs : forall subs st i,
  tmp (emit_all subs st) !! SbsJpg i = tmp st !! SbsJpg i.
Proof.
  induction subs as [|sc subs IH]; intros st i; [reflexivity|].
  change (emit_all (sc :: subs) st) with (emit_all subs (emit sc st)).
  rewrite IH. unfold emit.
  repeat (destruct (bool_decide _)); cbn [tmp];
    rewrite ?lookup_insert_ne by discriminate; reflexivity.
Qed.

(** *** Where the sub-chunks lie in the encoded file *)

Lemma encode_subs_app l1 l2 :
  encode_subs (l1 ++ l2) = encode_subs l1 ++ encode_subs l2.
Proof. unfold encode_subs. rewrite map_app, concat_app. reflexivity. Qed.

Lemma encode_avi_at_sub a k sc :
  avi_movi a !! k = Some sc ->
  exists rest,
    drop (Z.to_nat (sub_offset a k)) (encode_avi a) = encode_sub sc ++ rest.
Proof.
  intros Hk.
  assert (Hsplit : encode_subs (avi_movi a)
                   = encode_subs (take k (avi_movi a)) ++ encode_sub sc
                     ++ encode_subs (drop (S k) (avi_movi a))).
  { rewrite <- (take_drop_middle _ _ _ Hk) at 1.
    rewrite encode_subs_app, encode_subs_cons. reflexivity. }
  unfold sub_offset, encode_avi.
  exists (encode_subs (drop (S k) (avi_movi a)) ++ avi_trailer a).
  rewrite Nat2Z.id.
  set (pre := encode_chunks (avi_preamble a)).
  set (size := le32 (4 + _)).
  rewrite Hsplit.
  set (before := encode_subs (take k (avi_movi a))).
  replace (bytes_lit "RIFF" ++ le32 (avi_size a) ++ bytes_lit "AVI " ++ pre
           ++ bytes_lit "LIST" ++ size ++ bytes_lit "movi"
           ++ (before ++ encode_sub sc ++ encode_subs (drop (S k) (avi_movi a)))
           ++ avi_trailer a)
    with ((bytes_lit "RIFF" ++ le32 (avi_size a) ++ bytes_lit "AVI " ++ pre
           ++ bytes_lit "LIST" ++ size ++ bytes_lit "movi" ++ before)
          ++ encode_sub sc ++ encode_subs (drop (S k) (avi_movi a)) ++ avi_trailer a)
    by (rewrite <- !app_assoc; reflexivity).
  rewrite drop_app_length'; [reflexivity|].
  rewrite !length_app. unfold size. rewrite !le32_length. simpl. lia.
Qed.

(** *** The walk over a well-formed container *)

Lemma walk_of_well_formed a tmp0 :
  avi_ok a ->
  extract_frames (encode_avi a) tmp0
  = Some (Ok (Walked (emit_all (avi_movi a) (mkWalk 0 0 tmp0)))).
Proof.
  intros (Hpre & Hsubs & Hsize).
  unfold extract_frames.
  set (data := encode_avi a).
  set (hdr := bytes_lit "RIFF" ++ le32 (avi_size a) ++ bytes_lit "AVI ").
  set (body := encode_subs (avi_movi a)) in *.
  assert (Ha0 : ahead (mkFile data 0)
                  (hdr ++ encode_chunks (avi_preamble a)
                   ++ (bytes_lit "LIST" ++ le32 (4 + Z.of_nat (length body))
                       ++ bytes_lit "movi" ++ body ++ avi_trailer a))).
  { replace (hdr ++ _) with data; [apply ahead_start|].
    unfold data, encode_avi, hdr, body. rewrite <- !app_assoc. reflexivity. }
  destruct (ahead_read _ _ _ Ha0) as [Hr Ha1].
  change (Z.of_nat (length hdr)) with 12 in Hr, Ha1. rewrite Hr.
  change (unpack_4sI4s hdr) with
    (Ok (A := list byte * Z * list byte)
        (bytes_lit "RIFF",
         match le32 (avi_size a) with
         | [s0; s1; s2; s3] => le_u32 s0 s1 s2 s3
         | _ => 0
         end, bytes_lit "AVI ")).
  unfold Ok at 1. cbv beta iota.
  rewrite !bool_decide_eq_false_2 by (intros H; apply H; reflexivity).
  cbn [orb].
  set (f1 := mkFile (f_data (mkFile data 0)) (f_pos (mkFile data 0) + 12)) in *.
  destruct (walked_past_chunks _ Hpre f1 _ Ha1) as (n & f2 & Ha2 & Hd2 & Hp2 & Hloop).
  assert (Hrange : 0 <= 4 + Z.of_nat (length body) < 2 ^ 32) by lia.
  destruct (top_body_list f2 _ (bytes_lit "movi") _ Hrange eq_refl Ha2)
    as (f3 & Hb & Ha3 & Hp3).
  rewrite bool_decide_eq_true_2 in Hb by reflexivity.
  assert (Hrun : top_loop (n + S (S (length (avi_movi a) + 0))) f1 (mkWalk 0 0 tmp0)
                 = Some (Ok (emit_all (avi_movi a) (mkWalk 0 0 tmp0)))).
  { rewrite Hloop, top_loop_S, Hb.
    replace (f_pos f2 + 8 + (4 + Z.of_nat (length body)))
      with (f_pos f3 + Z.of_nat (length (encode_subs (avi_movi a))))
      by (fold body; lia).
    apply (movi_loop_subs _ _ _ _ _ Hsubs Ha3). }
  apply top_loop_enough in Hrun; [|simpl; lia|].
  - change (f_data f1) with data in Hrun. rewrite Hrun. reflexivity.
  - change (f_data f1) with data. change (f_pos f1) with (0 + 12).
    unfold data, encode_avi. rewrite !length_app. simpl. lia.
Qed.

Lemma sub_offset_header a k sc :
  avi_ok a -> avi_movi a !! k = Some sc ->
  unpack_4sI (take 8 (drop (Z.to_nat (sub_offset a k)) (encode_avi a)))
    = Ok (sc_tag sc, Z.of_nat (length (sc_payload sc)))
  /\ take (length (sc_payload sc))
          (drop (Z.to_nat (sub_offset a k + 8)) (encode_avi a))
     = sc_payload sc.
Proof.
  intros (_ & Hsubs & _) Hk.
  destruct (encode_avi_at_sub a k sc Hk) as [rest Hd].
  assert (Hsc : sub_ok sc).
  { rewrite Forall_forall in Hsubs. apply Hsubs.
    apply list_elem_of_lookup. eauto. }
  destruct Hsc as [Htag Hsize].
  assert (H0 : 0 <= sub_offset a k) by (unfold sub_offset; lia).
  split.
  - rewrite Hd. unfold encode_sub.
    rewrite app_assoc, <- !app_assoc, (app_assoc (sc_tag sc)).
    rewrite take_app_length' by (rewrite length_app, le32_length, Htag; reflexivity).
    apply unpack_4sI_header; [assumption|lia].
  - replace (Z.to_nat (sub_offset a k + 8)) with (Z.to_nat (sub_offset a k) + 8)%nat by lia.
    rewrite <- drop_drop, Hd. unfold encode_sub.
    rewrite app_assoc, <- !app_assoc, (app_assoc (sc_tag sc)).
    rewrite drop_app_length' by (rewrite length_app, le32_length, Htag; reflexivity).
    apply take_app_length.
Qed.

Lemma sub_offset_ascending a k k' :
  avi_ok a -> (k < k' <= length (avi_movi a))%nat ->
  sub_offset a k < sub_offset a k'.
Proof.
  intros (_ & Hsubs & _) Hk. unfold sub_offset.
  assert (Hlt : (length (encode_subs (take k (avi_movi a)))
                 < length (encode_subs (take k' (avi_movi a))))%nat); [|lia].
  replace (take k (avi_movi a)) with (take k (take k' (avi_movi a)))
    by (rewrite take_take; f_equal; lia).
  assert (Hok : Forall sub_ok (take k' (avi_movi a))) by (apply Forall_take; assumption).
  assert (Hlen : (k < length (take k' (avi_movi a)))%nat) by (rewrite length_take; lia).
  revert Hok Hlen. generalize (take k' (avi_movi a)). clear. intros l Hok Hlen.
  rewrite <- (take_drop k l) at 2. rewrite encode_subs_app, length_app.
  destruct (drop k l) as [|sc l'] eqn:Hd.
  { pose proof (length_drop l k) as Hl. rewrite Hd in Hl. simpl in Hl. lia. }
  assert (Hsc : sub_ok sc).
  { rewrite Forall_forall in Hok. apply Hok.
    rewrite <- (take_drop k l), Hd. apply elem_of_app. right. constructor. }
  rewrite encode_subs_cons, length_app.
  pose proof (encode_sub_length sc (proj1 Hsc)).
  pose proof (Z.mod_pos_bound (Z.of_nat (length (sc_payload sc))) 2 ltac:(lia)).
  lia.
Qed.

(** C1.  For a well-formed container the walk returns, with as many left
    (right) frames counted as the movie-data list has sub-chunks tagged
    00dc (02dc); frame file number [i] of a tag holds the payload of the
    [i]-th sub-chunk of that tag in file order, nothing else in the folder
    changes, every payload is as long as its header declares, and the
    sub-chunks lie at ascending offsets. *)
Theorem walk_emits_every_frame (a : avi) (tmp0 : gmap frame_file (list byte)) :
  avi_ok a ->
  let lefts := payloads_of "00dc" (avi_movi a) in
  let rights := payloads_of "02dc" (avi_movi a) in
  exists st,
    extract_frames (encode_avi a) tmp0 = Some (Ok (Walked st))
    /\ left_count st = length lefts
    /\ right_count st = length rights
    /\ (forall i, tmp st !! LeftJpg i =
          if decide (i < length lefts)%nat then lefts !! i else tmp0 !! LeftJpg i)
    /\ (forall i, tmp st !! RightJpg i =
          if decide (i < length rights)%nat then rights !! i else tmp0 !! RightJpg i)
    /\ (forall i, tmp st !! SbsJpg i = tmp0 !! SbsJpg i)
    /\ (forall k sc, avi_movi a !! k = Some sc ->
          unpack_4sI (take 8 (drop (Z.to_nat (sub_offset a k)) (encode_avi a)))
            = Ok (sc_tag sc, Z.of_nat (length (sc_payload sc)))
          /\ take (length (sc_payload sc))
                  (drop (Z.to_nat (sub_offset a k + 8)) (encode_avi a))
             = sc_payload sc)
    /\ (forall k k', (k < k' <= length (avi_movi a))%nat ->
          sub_offset a k < sub_offset a k').
Proof.
  intros Hok lefts rights.
  exists (emit_all (avi_movi a) (mkWalk 0 0 tmp0)).
  split; [apply walk_of_well_formed; assumption|].
  destruct (emit_all_counts (avi_movi a) (mkWalk 0 0 tmp0)) as [Hl Hr].
  split; [exact Hl|]. split; [exact Hr|].
  split.
  { intros i. rewrite emit_all_left. cbn [left_count tmp]. fold lefts.
    rewrite Nat.sub_0_r. repeat destruct (decide _); try lia; reflexivity. }
  split.
  { intros i. rewrite emit_all_right. cbn [right_count tmp]. fold rights.
    rewrite Nat.sub_0_r. repeat destruct (decide _); try lia; reflexivity. }
  split; [intros i; apply emit_all_sbs|].
  split; [intros k sc; apply sub_offset_header; assumption|].
  intros k k'. apply sub_offset_ascending; assumption.
Qed.

(** *** Padding *)

Lemma f_read_split n f got :
  (f_read n f).1 = got ->
  f_read n f = (got, mkFile (f_data f) (f_pos f + Z.of_nat (length got))).
Proof. intros <-. reflexivity. Qed.

Lemma f_read_exact n f :
  0 <= n -> 0 <= f_pos f -> f_pos f + n <= Z.of_nat (length (f_data f)) ->
  Z.of_nat (length (f_read n f).1) = n.
Proof.
  intros Hn Hpos Hle. unfold f_read. simpl.
  rewrite length_take, length_drop. lia.
Qed.

(** C4, as the code has it.  A chunk with an odd declared size takes its
    payload and one pad byte, one with an even size takes its payload
    only, before the loop reads the next header: for a top-level chunk
    with any tag but LIST, and for a sub-chunk of the movie-data list
    whose payload lies inside the file.  A top-level LIST chunk that is
    not the movie-data list is not skipped: the loop steps into it and
    reads the next header right after the four bytes of its subtype,
    twelve bytes on, whatever size the list declares. *)
Theorem odd_chunks_take_one_pad_byte (f : file) (tag : list byte) (size : Z) :
  0 <= f_pos f -> length tag = 4%nat -> 0 <= size < 2 ^ 32 ->
  (f_read 8 f).1 = tag ++ le32 size ->
  let pad := if Z.odd size then 1 else 0 in
  (tag <> bytes_lit "LIST" ->
     exists f',
       top_body f = TopNext f'
       /\ f_data f' = f_data f
       /\ f_pos f' = f_pos f + 8 + size + pad
       /\ forall fuel st, top_loop (S fuel) f st = top_loop fuel f' st)
  /\ (f_pos f + 8 + size <= Z.of_nat (length (f_data f)) ->
      forall st, exists f' st',
        movi_body f st = Continue (f', st')
        /\ f_data f' = f_data f
        /\ f_pos f' = f_pos f + 8 + size + pad
        /\ forall fuel movi_end, f_pos f < movi_end ->
             movi_loop (S fuel) f movi_end st = movi_loop fuel f' movi_end st')
  /\ (tag = bytes_lit "LIST" ->
      forall subtype,
        take 4 (drop (Z.to_nat (f_pos f + 8)) (f_data f)) = subtype ->
        length subtype = 4%nat -> subtype <> bytes_lit "movi" ->
        exists f',
          top_body f = TopNext f'
          /\ f_data f' = f_data f
          /\ f_pos f' = f_pos f + 12
          /\ forall fuel st, top_loop (S fuel) f st = top_loop fuel f' st).
Proof.
  intros Hpos Htag Hsize Hhdr pad.
  assert (Hlen : length (tag ++ le32 size) = 8%nat)
    by (rewrite length_app, le32_length, Htag; reflexivity).
  assert (Hne : tag ++ le32 size <> [])
    by (intros E; rewrite E in Hlen; discriminate).
  assert (Hlt : ~ Z.of_nat (length (tag ++ le32 size)) < 8) by lia.
  assert (Hpad : size mod 2 = pad /\ 0 <= pad <= 1).
  { unfold pad. rewrite Zmod_odd. destruct (Z.odd size); lia. }
  destruct Hpad as [Hmod Hpad].
  apply f_read_split in Hhdr. rewrite Hlen in Hhdr.
  split; [|split].
  - intros Hnl.
    assert (Hb : top_body f
                 = TopNext (f_seek_cur (size + size mod 2)
                              (mkFile (f_data f) (f_pos f + Z.of_nat 8)))).
    { unfold top_body. rewrite Hhdr.
      rewrite (bool_decide_eq_false_2 _ Hne), (bool_decide_eq_false_2 _ Hlt).
      cbn [orb]. rewrite (unpack_4sI_header _ _ Htag Hsize).
      unfold Ok. cbv beta iota zeta.
      rewrite tag_test by (assumption || reflexivity).
      rewrite (bool_decide_eq_false_2 _ Hnl). reflexivity. }
    eexists. split; [exact Hb|]. split; [reflexivity|].
    split; [simpl; lia|].
    intros fuel st. rewrite top_loop_S, Hb. reflexivity.
  - intros Hin st.
    set (f1 := mkFile (f_data f) (f_pos f + Z.of_nat 8)) in *.
    pose proof (f_read_exact size f1 ltac:(lia) ltac:(simpl; lia) ltac:(simpl; lia)) as Hgot.
    pose proof (f_read_pos size f1) as Hp2. pose proof (f_read_data size f1) as Hd2.
    destruct (f_read size f1) as [frame_data f2] eqn:Hr2.
    simpl in Hp2, Hd2, Hgot.
    assert (Hb : exists st',
               movi_body f st
               = Continue (if size mod 2 =? 1 then f_seek_cur 1 f2 else f2, st')).
    { unfold movi_body. rewrite Hhdr.
      rewrite (bool_decide_eq_false_2 _ Hne), (bool_decide_eq_false_2 _ Hlt).
      cbn [orb]. rewrite (unpack_4sI_header _ _ Htag Hsize).
      unfold Ok. cbv beta iota zeta. fold f1. rewrite Hr2. eexists. reflexivity. }
    destruct Hb as [st' Hb].
    eexists _, st'. split; [exact Hb|].
    rewrite Hmod.
    split; [destruct (pad =? 1); simpl; congruence|].
    split; [destruct (Z.eqb_spec pad 1); simpl; lia|].
    intros fuel movi_end He. rewrite movi_loop_S. unfold f_tell.
    rewrite (proj2 (Z.ltb_lt _ _) He), Hb, Hmod. reflexivity.
  - intros Hlist subtype Hsub Hsublen Hnm.
    assert (Hb : top_body f = TopNext (mkFile (f_data f) (f_pos f + Z.of_nat 8 + 4))).
    { unfold top_body. rewrite Hhdr.
      rewrite (bool_decide_eq_false_2 _ Hne), (bool_decide_eq_false_2 _ Hlt).
      cbn [orb]. rewrite (unpack_4sI_header _ _ Htag Hsize).
      unfold Ok. cbv beta iota zeta.
      rewrite tag_test by (assumption || reflexivity).
      rewrite (bool_decide_eq_true_2 _ Hlist).
      unfold f_read at 1. cbn [f_pos f_data].
      change (Z.to_nat 4) with 4%nat.
      replace (f_pos f + Z.of_nat 8) with (f_pos f + 8) by lia.
      rewrite Hsub, Hsublen.
      rewrite tag_test by (assumption || reflexivity).
      rewrite (bool_decide_eq_false_2 _ Hnm).
      replace (f_pos f + 8 + Z.of_nat 4) with (f_pos f + Z.of_nat 8 + 4) by lia.
      reflexivity. }
    eexists. split; [exact Hb|]. split; [reflexivity|].
    split; [simpl; lia|].
    intros fuel st. rewrite top_loop_S, Hb. reflexivity.
Qed.

Lemma demo_avi_ok : avi_ok demo_avi.
Proof.
  unfold avi_ok, demo_avi. cbn [avi_preamble avi_movi].
  split; [|split].
  - repeat constructor; try discriminate; vm_compute; reflexivity.
  - repeat constructor; vm_compute; reflexivity.
  - vm_compute. reflexivity.
Defined.

Example demo_avi_walk :
  exists st,
    extract_frames (encode_avi demo_avi) ∅ = Some (Ok (Walked st))
    /\ left_count st = 2%nat /\ right_count st = 1%nat
    /\ tmp st !! LeftJpg 0 = Some [xaa; xbb; xcc]%byte
    /\ tmp st !! LeftJpg 1 = Some []
    /\ tmp st !! RightJpg 0 = Some [xdd; xee]%byte
    /\ tmp st !! LeftJpg 2 = None.
Proof. eexists. split; [vm_compute; reflexivity|]. repeat split. Qed.

Lemma walk_emits_every_frame_witness :
  avi_ok demo_avi
  /\ exists st,
       extract_frames (encode_avi demo_avi) ∅ = Some (Ok (Walked st))
       /\ left_count st = 2%nat /\ right_count st = 1%nat.
Proof.
  split; [exact demo_avi_ok|].
  destruct (walk_emits_every_frame demo_avi ∅ demo_avi_ok)
    as (st & Hrun & Hl & Hr & _).
  exists st. split; [exact Hrun|]. split; [exact Hl|exact Hr].
Defined.

Lemma odd_chunks_take_one_pad_byte_witness :
  (exists f', top_body (mkFile (encode_avi demo_avi) 24) = TopNext f'
              /\ f_pos f' = 24 + 8 + 3 + 1)
  /\ (exists f' st', movi_body (mkFile (encode_avi demo_avi) 56) (mkWalk 0 0 ∅)
                     = Continue (f', st')
                     /\ f_pos f' = 56 + 8 + 3 + 1).
Proof.
  pose proof (odd_chunks_take_one_pad_byte
                (mkFile (encode_avi demo_avi) 24) (bytes_lit "avih") 3
                ltac:(simpl; lia) eq_refl ltac:(lia) eq_refl) as [Htop _].
  pose proof (odd_chunks_take_one_pad_byte
                (mkFile (encode_avi demo_avi) 56) (bytes_lit "00dc") 3
                ltac:(simpl; lia) eq_refl ltac:(lia) eq_refl) as (_ & Hsub & _).
  split.
  - destruct (Htop ltac:(discriminate)) as (f' & Hb & _ & Hp & _).
    exists f'. split; [exact Hb|exact Hp].
  - destruct (Hsub ltac:(vm_compute; discriminate) (mkWalk 0 0 ∅))
      as (f' & st' & Hb & _ & Hp & _).
    exists f', st'. split; [exact Hb|exact Hp].
Defined.

(** C4 fails as worded on a list that is not the movie-data list: a LIST
    chunk of declared size 5 and subtype [hdrl] at offset 12 would be
    passed at 12 + 8 + 5 + 1 = 26, where the movie-data list of this file
    begins; the loop goes on at offset 24 instead, takes the last content
    byte and the pad byte for the start of a chunk header, and never finds
    the movie-data list: no frame is extracted.  With a tag other than
    LIST in its place the same chunk is passed as the claim says and both
    frames are found. *)
Lemma odd_list_is_entered_not_skipped :
  (exists f', top_body (mkFile (demo_odd_list (bytes_lit "LIST")) 12) = TopNext f'
              /\ f_pos f' = 24)
  /\ 12 + 8 + 5 + 1 = 26
  /\ drop 26 (demo_odd_list (bytes_lit "LIST"))
     = bytes_lit "LIST" ++ le32 24 ++ bytes_lit "movi" ++ encode_subs demo_pair
  /\ extract_frames (demo_odd_list (bytes_lit "LIST")) ∅
     = Some (Ok (Walked (mkWalk 0 0 ∅)))
  /\ (exists f', top_body (mkFile (demo_odd_list (bytes_lit "JUNK")) 12) = TopNext f'
                 /\ f_pos f' = 26)
  /\ (exists st, extract_frames (demo_odd_list (bytes_lit "JUNK")) ∅
                 = Some (Ok (Walked st))
                 /\ left_count st = 1%nat /\ right_count st = 1%nat).
Proof.
  split; [eexists; split; [reflexivity|reflexivity]|].
  split; [reflexivity|]. split; [reflexivity|].
  split; [vm_compute; reflexivity|].
  split; [eexists; split; [reflexivity|reflexivity]|].
  eexists. split; [vm_compute; reflexivity|]. split; reflexivity.
Qed.
(** ** The frame pairer *)

Lemma merge_pair_side_by_side li ri : side_by_side li ri (merge_pair li ri).
Proof.
  unfold side_by_side, merge_pair. cbn [paste width height getpixel image_new].
  split; [reflexivity|]. split; [reflexivity|]. split.
  - intros x y Hx Hy.
    rewrite (proj2 (Z.leb_gt (width li) x)) by lia. cbn [andb].
    rewrite (proj2 (Z.leb_le 0 x)), (proj2 (Z.ltb_lt x (0 + width li))) by lia.
    rewrite (proj2 (Z.leb_le 0 y)), (proj2 (Z.ltb_lt y (0 + height li))) by lia.
    cbn [andb]. rewrite !Z.sub_0_r. reflexivity.
  - intros x y Hx Hy.
    rewrite (proj2 (Z.leb_le (width li) x)) by lia.
    rewrite (proj2 (Z.ltb_lt x (width li + width ri))) by lia.
    rewrite (proj2 (Z.leb_le 0 y)), (proj2 (Z.ltb_lt y (0 + height ri))) by lia.
    cbn [andb]. rewrite Z.sub_0_r. reflexivity.
Qed.

Section PairingProofs.

Variable decode : list byte -> option image.
Variable encode_jpeg : image -> option (list byte).
Variable blocked : nat -> bool.

Lemma merge_frame_spec folder idx :
  blocked idx = false ->
  is_Some (composite_of decode encode_jpeg folder idx) ->
  exists jpg,
    composite_of decode encode_jpeg folder idx = Some jpg
    /\ merge_frame decode encode_jpeg blocked folder idx
       = Ok (<[SbsJpg idx := jpg]> folder).
Proof.
  unfold composite_of, merge_frame. intros Hfree [jpg H].
  destruct (folder !! LeftJpg idx) as [lb|]; [|discriminate].
  destruct (folder !! RightJpg idx) as [rb|]; [|discriminate].
  destruct (decode lb) as [li|]; [|discriminate].
  destruct (decode rb) as [ri|]; [|discriminate].
  rewrite Hfree.
  destruct (encode_jpeg (merge_pair li ri)) as [out|]; [|discriminate].
  eexists. split; reflexivity.
Qed.


Lemma composite_of_insert folder idx jpg i :
  composite_of decode encode_jpeg (<[SbsJpg idx := jpg]> folder) i
  = composite_of decode encode_jpeg folder i.
Proof.
  unfold composite_of. rewrite !lookup_insert_ne by discriminate. reflexivity.
Qed.

Lemma merge_frames_spec : forall indices folder,
  (forall idx, idx ∈ indices -> blocked idx = false) ->
  (forall idx, idx ∈ indices -> is_Some (composite_of decode encode_jpeg folder idx)) ->
  exists folder',
    merge_frames decode encode_jpeg blocked folder indices = (None, folder')
    /\ (forall i, folder' !! LeftJpg i = folder !! LeftJpg i)
    /\ (forall i, folder' !! RightJpg i = folder !! RightJpg i)
    /\ (forall i, folder' !! SbsJpg i =
          if decide (i ∈ indices) then composite_of decode encode_jpeg folder i
          else folder !! SbsJpg i).
Proof.
  induction indices as [|idx rest IH]; intros folder Hfree Hall.
  - exists folder. split; [reflexivity|].
    split; [reflexivity|]. split; [reflexivity|].
    intros i. rewrite decide_False; [reflexivity|]. apply not_elem_of_nil.
  - assert (Hhead : is_Some (composite_of decode encode_jpeg folder idx))
      by (apply Hall; left).
    destruct (merge_frame_spec folder idx (Hfree idx ltac:(left)) Hhead)
      as (jpg & Hjpg & Hstep).
    assert (Htail : forall i, i ∈ rest ->
              is_Some (composite_of decode encode_jpeg (<[SbsJpg idx := jpg]> folder) i)).
    { intros i Hi. rewrite composite_of_insert. apply Hall. right. exact Hi. }
    destruct (IH (<[SbsJpg idx := jpg]> folder)
                (fun i Hi => Hfree i ltac:(right; exact Hi)) Htail)
      as (folder' & Hrun & Hl & Hr & Hs).
    exists folder'. cbn [merge_frames]. rewrite Hstep. unfold Ok at 1.
    split; [exact Hrun|].
    split; [intros i; rewrite Hl, lookup_insert_ne by discriminate; reflexivity|].
    split; [intros i; rewrite Hr, lookup_insert_ne by discriminate; reflexivity|].
    intros i. rewrite Hs, composite_of_insert.
    destruct (decide (i ∈ rest)) as [Hin|Hnin].
    + rewrite decide_True by (right; exact Hin). reflexivity.
    + destruct (decide (i = idx)) as [->|Hne].
      * rewrite lookup_insert_eq, decide_True by left. symmetry. exact Hjpg.
      * rewrite lookup_insert_ne by congruence.
        rewrite decide_False; [reflexivity|].
        intros Hin. apply elem_of_cons in Hin. tauto.
Qed.

(** The loop only adds composites: the frame files stay as they are. *)
Lemma merge_frames_keeps_frames : forall indices folder,
  (forall i, (merge_frames decode encode_jpeg blocked folder indices).2 !! LeftJpg i
             = folder !! LeftJpg i)
  /\ (forall i, (merge_frames decode encode_jpeg blocked folder indices).2 !! RightJpg i
                = folder !! RightJpg i).
Proof.
  induction indices as [|idx rest IH]; intros folder; [split; reflexivity|].
  cbn [merge_frames].
  destruct (merge_frame decode encode_jpeg blocked folder idx) as [e|folder'] eqn:E;
    [split; reflexivity|].
  assert (Hf : folder' = folder \/ exists jpg, folder' = <[SbsJpg idx := jpg]> folder).
  { revert E. unfold merge_frame.
    repeat (case_match; try discriminate). intros [= <-]. right. eexists. reflexivity. }
  destruct (IH folder') as [Hl Hr].
  split; intros i; [rewrite Hl|rewrite Hr];
    (destruct Hf as [->|[jpg ->]];
     [reflexivity|rewrite lookup_insert_ne by discriminate; reflexivity]).
Qed.



End PairingProofs.


(** ** The compositor *)

Lemma paste_left_region (canvas L R : image) x y :
  0 <= x < width L -> 0 <= y < height L ->
  getpixel (paste (paste canvas L 0 0) R (width L) 0) x y = getpixel L x y.
Proof.
  intros Hx Hy. cbn [paste getpixel].
  rewrite (proj2 (Z.leb_gt (width L) x)) by lia. cbn [andb].
  rewrite (proj2 (Z.leb_le 0 x)), (proj2 (Z.ltb_lt x (0 + width L))),
          (proj2 (Z.leb_le 0 y)), (proj2 (Z.ltb_lt y (0 + height L))) by lia.
  cbn [andb]. rewrite !Z.sub_0_r. reflexivity.
Qed.

Lemma paste_right_region (canvas L R : image) x y :
  width L <= x < width L + width R -> 0 <= y < height R ->
  getpixel (paste (paste canvas L 0 0) R (width L) 0) x y
  = getpixel R (x - width L) y.
Proof.
  intros Hx Hy. cbn [paste getpixel].
  rewrite (proj2 (Z.leb_le (width L) x)), (proj2 (Z.ltb_lt x (width L + width R))),
          (proj2 (Z.leb_le 0 y)), (proj2 (Z.ltb_lt y (0 + height R))) by lia.
  cbn [andb]. rewrite Z.sub_0_r. reflexivity.
Qed.

(** C5.  Two images of one size W x H, no target height: the composite is
    2W x H, its left half is the left image and its right half the right
    image, pixel for pixel, whatever the resampler is (it is not called:
    both images pass through unchanged); the merge of main.py yields the
    same composite. *)
Theorem sbs_of_equal_sizes_is_lossless
    (resize : image -> Z -> Z -> result image)
    (left right : image) (W H : Z) (target_height : option Z) :
  width left = W -> height left = H -> width right = W -> height right = H ->
  (target_height = None \/ exists t, target_height = Some t /\ t <= 0) ->
  exists out,
    make_sbs resize left right target_height = Ok out
    /\ merge_pair left right = out
    /\ scale_to_h resize left (Z.max H H) = Ok left
    /\ scale_to_h resize right (Z.max H H) = Ok right
    /\ width out = 2 * W /\ height out = H
    /\ (forall x y, 0 <= x < W -> 0 <= y < H -> getpixel out x y = getpixel left x y)
    /\ (forall x y, W <= x < 2 * W -> 0 <= y < H ->
          getpixel out x y = getpixel right (x - W) y).
Proof.
  intros Hwl Hhl Hwr Hhr Ht.
  assert (Hs : forall im, height im = H -> scale_to_h resize im (Z.max H H) = Ok im).
  { intros im Him. unfold scale_to_h. rewrite Z.max_id, Him, Z.eqb_refl, orb_true_r.
    reflexivity. }
  exists (merge_pair left right).
  split.
  { unfold make_sbs.
    assert (Htr : match target_height with
                  | Some t => negb (t =? 0) && (0 <? t)
                  | None => false
                  end = false).
    { destruct Ht as [->|(t & -> & Hle)]; [reflexivity|].
      rewrite (proj2 (Z.ltb_ge 0 t)) by lia. apply andb_false_r. }
    rewrite Htr. cbv zeta. rewrite Hhl, Hhr, !Hs by assumption. unfold Ok.
    unfold compose, merge_pair. rewrite Hhl, Hhr. reflexivity. }
  split; [reflexivity|].
  split; [apply Hs; assumption|]. split; [apply Hs; assumption|].
  split; [unfold merge_pair; simpl; lia|].
  split; [unfold merge_pair; simpl; lia|].
  split.
  - intros x y Hx Hy. unfold merge_pair. apply paste_left_region; lia.
  - intros x y Hx Hy. unfold merge_pair. rewrite paste_right_region by lia.
    rewrite Hwl. reflexivity.
Qed.

Lemma sbs_of_equal_sizes_is_lossless_witness :
  exists out,
    make_sbs nearest_resize demo_left demo_right None = Ok out
    /\ width out = 8 /\ height out = 2
    /\ getpixel out 3 1 = (x03, x01, x01)%byte
    /\ getpixel out 4 1 = (x00, x01, x02)%byte.
Proof.
  destruct (sbs_of_equal_sizes_is_lossless nearest_resize demo_left demo_right 4 2 None
              eq_refl eq_refl eq_refl eq_refl (or_introl eq_refl))
    as (out & Hrun & _ & _ & _ & Hw & Hh & Hl & Hr).
  exists out. split; [exact Hrun|]. split; [exact Hw|]. split; [exact Hh|].
  split.
  - rewrite (Hl 3 1) by lia. reflexivity.
  - rewrite (Hr 4 1) by lia. reflexivity.
Defined.

(** *** Rounding a float to the nearest integer *)

Lemma round_half_even_nearest m k :
  0 <= k -> 2 * Z.abs (round_half_even m k * 2 ^ k - m) <= 2 ^ k.
Proof.
  intros Hk. unfold round_half_even.
  assert (Hp : 0 < 2 ^ k) by (apply Z.pow_pos_nonneg; lia).
  pose proof (Z.div_mod m (2 ^ k) ltac:(lia)) as Hdm.
  pose proof (Z.mod_pos_bound m (2 ^ k) Hp) as Hr.
  set (q := m / 2 ^ k) in *. set (r := m mod 2 ^ k) in *.
  destruct (Z.compare_spec (2 * r) (2 ^ k)) as [He|Hl|Hg].
  - destruct (Z.even q); nia.
  - nia.
  - nia.
Qed.

Lemma py_round_nearest x W : py_round x = Ok W -> nearest_int W x.
Proof.
  destruct x as [s|s| |s m e]; cbn [py_round nearest_int]; try discriminate.
  - intros [= <-]. reflexivity.
  - intros [= <-].
    destruct (Z.leb_spec 0 e) as [He|He].
    + destruct s; [|reflexivity].
      change (Z.neg m) with (- Z.pos m). ring.
    + pose proof (round_half_even_nearest (Z.pos m) (- e) ltac:(lia)) as Hn.
      destruct s; [|exact Hn].
      replace (- round_half_even (Z.pos m) (- e) * 2 ^ (- e) - Z.neg m)
        with (- (round_half_even (Z.pos m) (- e) * 2 ^ (- e) - Z.pos m))
        by (change (Z.neg m) with (- Z.pos m); ring).
      rewrite Z.abs_opp. exact Hn.
Qed.

Lemma scaled_width_nearest w H h W :
  scaled_width w H h = Ok W ->
  exists ratio x,
    int_truediv H h = Ok ratio
    /\ int_mul_float w ratio = Ok x
    /\ nearest_int W x.
Proof.
  unfold scaled_width.
  destruct (int_truediv H h) as [e|ratio]; [discriminate|].
  destruct (int_mul_float w ratio) as [e|x] eqn:Hx; [discriminate|].
  intros Hr. exists ratio, x.
  split; [reflexivity|]. split; [exact Hx|]. apply py_round_nearest, Hr.
Qed.

(** *** The float operations stay finite on image sizes *)

Lemma digits2_pos_bounds p :
  2 ^ (Z.pos (digits2_pos p) - 1) <= Z.pos p < 2 ^ Z.pos (digits2_pos p).
Proof.
  induction p as [p IH|p IH|]; cbn [digits2_pos].
  - rewrite Pos2Z.inj_succ.
    replace (Z.succ (Z.pos (digits2_pos p)) - 1) with (Z.succ (Z.pos (digits2_pos p) - 1)) by lia.
    rewrite !Z.pow_succ_r by lia. lia.
  - rewrite Pos2Z.inj_succ.
    replace (Z.succ (Z.pos (digits2_pos p)) - 1) with (Z.succ (Z.pos (digits2_pos p) - 1)) by lia.
    rewrite !Z.pow_succ_r by lia. lia.
  - simpl. lia.
Qed.

Lemma Zdigits2_nonneg m : 0 <= Zdigits2 m.
Proof. destruct m; simpl; lia. Qed.

Lemma Zdigits2_bound m : 0 <= m -> m < 2 ^ Zdigits2 m.
Proof.
  destruct m as [|p|p]; intros Hm; [simpl; lia| |lia].
  apply digits2_pos_bounds.
Qed.

Lemma Zdigits2_le m k : 0 <= k -> 0 <= m < 2 ^ k -> Zdigits2 m <= k.
Proof.
  intros Hk [Hm Hlt]. destruct m as [|p|p]; [simpl; lia| |lia].
  cbn [Zdigits2]. pose proof (digits2_pos_bounds p) as [Hlo _].
  destruct (Z_le_gt_dec (Z.pos (digits2_pos p)) k) as [|Hgt]; [assumption|].
  exfalso.
  assert (2 ^ k <= 2 ^ (Z.pos (digits2_pos p) - 1)) by (apply Z.pow_le_mono_r; lia).
  lia.
Qed.

Lemma Zdigits2_mul a b :
  0 <= a -> 0 <= b -> Zdigits2 (a * b) <= Zdigits2 a + Zdigits2 b.
Proof.
  intros Ha Hb.
  pose proof (Zdigits2_nonneg a). pose proof (Zdigits2_nonneg b).
  apply Zdigits2_le; [lia|].
  rewrite Z.pow_add_r by lia.
  pose proof (Zdigits2_bound a Ha). pose proof (Zdigits2_bound b Hb). nia.
Qed.

Lemma Zdigits2_succ m : 0 <= m -> Zdigits2 (m + 1) <= Zdigits2 m + 1.
Proof.
  intros Hm. pose proof (Zdigits2_nonneg m).
  apply Zdigits2_le; [lia|].
  rewrite Z.pow_add_r by lia. pose proof (Zdigits2_bound m Hm).
  change (2 ^ 1) with 2. lia.
Qed.

Lemma Zdigits2_div_pow m n :
  0 <= m -> 0 <= n -> Zdigits2 (m / 2 ^ n) <= Z.max (Zdigits2 m - n) 0.
Proof.
  intros Hm Hn. pose proof (Zdigits2_nonneg m) as Hd.
  pose proof (Zdigits2_bound m Hm) as Hb.
  assert (Hp : 0 < 2 ^ n) by (apply Z.pow_pos_nonneg; lia).
  apply Zdigits2_le; [lia|]. split; [apply Z.div_pos; lia|].
  destruct (Z_le_gt_dec n (Zdigits2 m)) as [Hle|Hgt].
  - rewrite Z.max_l by lia.
    apply Z.div_lt_upper_bound; [lia|].
    rewrite <- Z.pow_add_r by lia. replace (n + (Zdigits2 m - n)) with (Zdigits2 m) by lia.
    exact Hb.
  - rewrite Z.max_r by lia. change (2 ^ 0) with 1.
    assert (2 ^ Zdigits2 m <= 2 ^ n) by (apply Z.pow_le_mono_r; lia).
    rewrite Z.div_small; lia.
Qed.

Lemma Zdigits2_mono a b : 0 <= a <= b -> Zdigits2 a <= Zdigits2 b.
Proof.
  intros [Ha Hab]. pose proof (Zdigits2_nonneg b).
  apply Zdigits2_le; [lia|]. pose proof (Zdigits2_bound b ltac:(lia)). lia.
Qed.

Lemma shr_1_m mrs : 0 <= shr_m mrs -> shr_m (shr_1 mrs) = shr_m mrs / 2.
Proof.
  destruct mrs as [m r s]. cbn [shr_m]. intros Hm.
  destruct m as [|[p|p|]|p]; cbn [shr_1 shr_m].
  - reflexivity.
  - apply Z.div_unique with 1; lia.
  - apply Z.div_unique with 0; lia.
  - reflexivity.
  - lia.
Qed.

Lemma iter_pos_shr_m : forall p mrs,
  0 <= shr_m mrs ->
  shr_m (SpecFloat.iter_pos shr_1 p mrs) = shr_m mrs / 2 ^ Z.pos p.
Proof.
  assert (Hnn : forall mrs, 0 <= shr_m mrs -> 0 <= shr_m (shr_1 mrs)).
  { intros mrs H. rewrite shr_1_m by assumption. apply Z.div_pos; lia. }
  induction p as [p IH|p IH|]; intros mrs Hm; cbn [SpecFloat.iter_pos].
  - assert (H1 : 0 <= shr_m (shr_1 mrs)) by auto.
    assert (H2 : 0 <= shr_m (SpecFloat.iter_pos shr_1 p (shr_1 mrs))).
    { rewrite IH by assumption. apply Z.div_pos; [lia|apply Z.pow_pos_nonneg; lia]. }
    rewrite IH, IH, shr_1_m by assumption.
    rewrite !Z.div_div by (try apply Z.pow_pos_nonneg; lia).
    f_equal. rewrite Pos2Z.inj_xI.
    rewrite <- Z.pow_add_r by lia. 
    replace (2 * Z.pos p + 1) with (1 + (Z.pos p + Z.pos p)) by lia.
    rewrite (Z.pow_add_r 2 1) by lia. reflexivity.
  - assert (H2 : 0 <= shr_m (SpecFloat.iter_pos shr_1 p mrs)).
    { rewrite IH by assumption. apply Z.div_pos; [lia|apply Z.pow_pos_nonneg; lia]. }
    rewrite IH, IH by assumption.
    rewrite !Z.div_div by (try apply Z.pow_pos_nonneg; lia).
    f_equal. rewrite Pos2Z.inj_xO.
    rewrite <- Z.pow_add_r by lia. f_equal. lia.
  - rewrite shr_1_m by assumption. reflexivity.
Qed.

Lemma shr_record_of_loc_m m l : shr_m (shr_record_of_loc m l) = m.
Proof. destruct l as [|[]]; reflexivity. Qed.

Lemma shr_fexp_mag m e l B :
  mag_le m e B -> -1074 <= B ->
  mag_le (shr_m (shr_fexp prec emax m e l).1) (shr_fexp prec emax m e l).2 B.
Proof.
  intros (Hm & Hd & He) HB. unfold shr_fexp, shr.
  set (n := fexp prec emax (Zdigits2 m + e) - e).
  assert (Hf : fexp prec emax (Zdigits2 m + e) <= B).
  { unfold fexp, SpecFloat.emin, prec, emax. lia. }
  destruct n as [|p|p] eqn:Hn; cbn [fst snd].
  - rewrite shr_record_of_loc_m. repeat split; assumption.
  - rewrite iter_pos_shr_m by (rewrite shr_record_of_loc_m; assumption).
    rewrite shr_record_of_loc_m.
    pose proof (Zdigits2_div_pow m (Z.pos p) Hm ltac:(lia)).
    pose proof (Zdigits2_nonneg m).
    split; [apply Z.div_pos; [lia|apply Z.pow_pos_nonneg; lia]|].
    unfold n in Hn. split; lia.
  - rewrite shr_record_of_loc_m. repeat split; assumption.
Qed.

Lemma round_nearest_even_range m l :
  m <= round_nearest_even m l <= m + 1.
Proof.
  unfold round_nearest_even. destruct l as [|[]]; try lia.
  destruct (Z.even m); lia.
Qed.

Lemma binary_round_aux_finite_le sx mx ex lx B :
  mag_le mx ex B -> -1074 <= B -> B + 1 <= 971 ->
  finite_le sx (B + 1) (binary_round_aux prec emax sx mx ex lx).
Proof.
  intros Hmag HB Hmax. unfold binary_round_aux, finite_le.
  pose proof (shr_fexp_mag mx ex lx B Hmag HB) as H1.
  destruct (shr_fexp prec emax mx ex lx) as [mrs' e']. cbn [fst snd] in H1.
  destruct H1 as (Hm1 & Hd1 & He1).
  set (m1 := round_nearest_even (shr_m mrs') (loc_of_shr_record mrs')).
  pose proof (round_nearest_even_range (shr_m mrs') (loc_of_shr_record mrs')) as Hr.
  fold m1 in Hr.
  assert (Hmag1 : mag_le m1 e' (B + 1)).
  { split; [lia|]. split; [|lia].
    pose proof (Zdigits2_mono m1 (shr_m mrs' + 1) ltac:(lia)).
    pose proof (Zdigits2_succ (shr_m mrs') Hm1). lia. }
  pose proof (shr_fexp_mag m1 e' loc_Exact (B + 1) Hmag1 ltac:(lia)) as H2.
  destruct (shr_fexp prec emax m1 e' loc_Exact) as [mrs'' e'']. cbn [fst snd] in H2.
  destruct H2 as (Hm2 & Hd2 & He2).
  destruct (shr_m mrs'') as [|m|m] eqn:Hm; [reflexivity| |lia].
  rewrite (proj2 (Z.leb_le e'' (emax - prec))) by (unfold emax, prec; lia).
  split; [reflexivity|]. repeat split; [lia|exact Hd2|exact He2].
Qed.

Lemma Pos_iter_xO p k : Z.pos (Pos.iter xO p k) = Z.pos p * 2 ^ Z.pos k.
Proof.
  induction k as [|k IH] using Pos.peano_ind.
  - simpl. lia.
  - rewrite Pos.iter_succ, Pos2Z.inj_xO, IH, Pos2Z.inj_succ, Z.pow_succ_r by lia. ring.
Qed.

Lemma Zdigits2_shift m k :
  0 <= m -> 0 <= k -> Zdigits2 (m * 2 ^ k) <= Zdigits2 m + k.
Proof.
  intros Hm Hk. pose proof (Zdigits2_nonneg m).
  assert (0 < 2 ^ k) by (apply Z.pow_pos_nonneg; lia).
  apply Zdigits2_le; [lia|]. rewrite Z.pow_add_r by lia.
  pose proof (Zdigits2_bound m Hm). nia.
Qed.

Lemma float_of_int_finite w :
  0 <= w < 2 ^ 31 ->
  exists x, float_of_int w = Ok x /\ finite_le false 32 x.
Proof.
  intros [Hw Hlt]. unfold float_of_int, binary_normalize.
  destruct w as [|p|p]; [| |lia].
  - exists (S754_zero false). split; reflexivity.
  - unfold binary_round, shl_align.
    assert (Hd : Zdigits2 (Z.pos p) <= 31) by (apply Zdigits2_le; lia).
    cbn [Zdigits2] in Hd. pose proof (Pos2Z.is_pos (digits2_pos p)) as Hdp.
    set (ex' := fexp prec emax (Z.pos (digits2_pos p) + 0)).
    assert (Hex : ex' = Z.pos (digits2_pos p) - 53)
      by (unfold ex', fexp, SpecFloat.emin, prec, emax; lia).
    destruct (ex' - 0) as [|d|d] eqn:Hsub; try lia.
    pose proof (binary_round_aux_finite_le false (Z.pos (Pos.iter xO p d)) ex'
                  loc_Exact 31) as Hfin.
    destruct (binary_round_aux prec emax false (Z.pos (Pos.iter xO p d)) ex' loc_Exact)
      as [s|s| |s m e] eqn:Hr.
    + exists (S754_zero s). split; [reflexivity|]. apply Hfin; try lia.
      split; [lia|]. rewrite Pos_iter_xO.
      pose proof (Zdigits2_shift (Z.pos p) (Z.pos d) ltac:(lia) ltac:(lia)).
      cbn [Zdigits2] in *. split; lia.
    + exfalso. apply Hfin; try lia.
      split; [lia|]. rewrite Pos_iter_xO.
      pose proof (Zdigits2_shift (Z.pos p) (Z.pos d) ltac:(lia) ltac:(lia)).
      cbn [Zdigits2] in *. split; lia.
    + exfalso. apply Hfin; try lia.
      split; [lia|]. rewrite Pos_iter_xO.
      pose proof (Zdigits2_shift (Z.pos p) (Z.pos d) ltac:(lia) ltac:(lia)).
      cbn [Zdigits2] in *. split; lia.
    + exists (S754_finite s m e). split; [reflexivity|]. apply Hfin; try lia.
      split; [lia|]. rewrite Pos_iter_xO.
      pose proof (Zdigits2_shift (Z.pos p) (Z.pos d) ltac:(lia) ltac:(lia)).
      cbn [Zdigits2] in *. split; lia.
Qed.

Lemma SFdiv_core_mag m1 m2 :
  0 < m1 -> 0 < m2 ->
  let '(q, e, _) := SFdiv_core_binary prec emax m1 0 m2 0 in
  mag_le q e (Zdigits2 m1).
Proof.
  intros H1 H2. unfold SFdiv_core_binary.
  set (e' := Z.min (fexp prec emax (Zdigits2 m1 + 0 - (Zdigits2 m2 + 0))) (0 - 0)).
  assert (He : e' <= 0) by (unfold e'; lia).
  set (s := 0 - 0 - e').
  set (m' := match s with
             | 0 => m1
             | Z.pos _ => Z.shiftl m1 s
             | Z.neg _ => 0
             end).
  assert (Hm' : m' = m1 * 2 ^ s).
  { unfold m'. destruct s as [|p|p] eqn:Hs; [simpl; lia| |lia].
    apply Z.shiftl_mul_pow2. lia. }
  assert (Hdiv : Z.div_eucl m' m2 = (m' / m2, m' mod m2)).
  { unfold Z.div, Z.modulo. destruct (Z.div_eucl m' m2). reflexivity. }
  rewrite Hdiv.
  assert (Hs : 0 <= s) by (unfold s; lia).
  assert (Hp : 0 < 2 ^ s) by (apply Z.pow_pos_nonneg; lia).
  assert (Hq : 0 <= m' / m2 <= m').
  { split; [apply Z.div_pos; nia|]. apply Z.div_le_upper_bound; nia. }
  pose proof (Zdigits2_nonneg m1).
  split; [lia|]. split; [|lia].
  pose proof (Zdigits2_mono (m' / m2) m' Hq).
  pose proof (Zdigits2_shift m1 s ltac:(lia) Hs). rewrite <- Hm' in *.
  unfold s in *. lia.
Qed.

Lemma int_truediv_finite H h :
  0 < H < 2 ^ 31 -> 0 < h < 2 ^ 31 ->
  exists x, int_truediv H h = Ok x /\ finite_le false 32 x.
Proof.
  intros [HH HHlt] [Hh Hhlt]. unfold int_truediv.
  rewrite (proj2 (Z.eqb_neq h 0)) by lia.
  destruct H as [|pH|pH]; try lia. destruct h as [|ph|ph]; try lia.
  cbn [int_as_float SFdiv xorb].
  pose proof (SFdiv_core_mag (Z.pos pH) (Z.pos ph) ltac:(lia) ltac:(lia)) as Hcore.
  destruct (SFdiv_core_binary prec emax (Z.pos pH) 0 (Z.pos ph) 0) as [[q e] l].
  assert (Hd : Zdigits2 (Z.pos pH) <= 31) by (apply Zdigits2_le; lia).
  assert (Hmag : mag_le q e 31).
  { destruct Hcore as (? & ? & ?). repeat split; lia. }
  pose proof (binary_round_aux_finite_le false q e l 31 Hmag ltac:(lia) ltac:(lia)) as Hfin.
  destruct (binary_round_aux prec emax false q e l) as [s|s| |s m e0];
    try contradiction; eexists; (split; [reflexivity|exact Hfin]).
Qed.

Lemma SFmul_finite x y :
  finite_le false 32 x -> finite_le false 32 y ->
  finite_le false 65 (SFmul prec emax x y).
Proof.
  destruct x as [sx|sx| |sx mx ex]; try contradiction;
    destruct y as [sy|sy| |sy my ey]; try contradiction; cbn [finite_le SFmul].
  - intros -> ->. reflexivity.
  - intros -> [-> _]. reflexivity.
  - intros [-> _] ->. reflexivity.
  - intros [-> (Hmx & Hdx & Hex)] [-> (Hmy & Hdy & Hey)].
    apply (binary_round_aux_finite_le false _ _ loc_Exact 64); try lia.
    rewrite Pos2Z.inj_mul.
    pose proof (Zdigits2_mul (Z.pos mx) (Z.pos my) ltac:(lia) ltac:(lia)).
    repeat split; lia.
Qed.

Lemma round_half_even_nonneg m k : 0 <= m -> 0 <= k -> 0 <= round_half_even m k.
Proof.
  intros Hm Hk. unfold round_half_even.
  assert (0 < 2 ^ k) by (apply Z.pow_pos_nonneg; lia).
  assert (0 <= m / 2 ^ k) by (apply Z.div_pos; lia).
  destruct (_ ?= _); [destruct (Z.even _)| |]; lia.
Qed.

Lemma py_round_finite B x :
  finite_le false B x -> exists W, py_round x = Ok W /\ 0 <= W.
Proof.
  destruct x as [s|s| |s m e]; try contradiction; cbn [finite_le py_round].
  - intros _. exists 0. split; [reflexivity|lia].
  - intros [-> _]. eexists. split; [reflexivity|].
    destruct (Z.leb_spec 0 e).
    + assert (0 < 2 ^ e) by (apply Z.pow_pos_nonneg; lia). lia.
    + apply round_half_even_nonneg; lia.
Qed.

(** On sizes an image can have, [int(round(w * (H / h)))] returns. *)
Lemma scaled_width_returns w H h :
  0 <= w < 2 ^ 31 -> 0 < H < 2 ^ 31 -> 0 < h < 2 ^ 31 ->
  exists W, scaled_width w H h = Ok W /\ 0 <= W.
Proof.
  intros Hw HH Hh. unfold scaled_width.
  destruct (int_truediv_finite H h HH Hh) as (ratio & -> & Hratio).
  unfold Ok at 1. unfold int_mul_float.
  destruct (float_of_int_finite w Hw) as (fw & -> & Hfw).
  unfold Ok at 1 2.
  apply (py_round_finite 65). apply SFmul_finite; assumption.
Qed.

Section CompositorProofs.

Variable resize : image -> Z -> Z -> result image.
Hypothesis resize_size : forall im W H im',
  resize im W H = Ok im' -> width im' = W /\ height im' = H.

Lemma scale_to_h_same im H :
  height im = H -> scale_to_h resize im H = Ok im.
Proof.
  intros <-. unfold scale_to_h. rewrite Z.eqb_refl, orb_true_r. reflexivity.
Qed.

Lemma scale_to_h_other im H :
  0 < H -> height im <> H ->
  scale_to_h resize im H
  = bind (scaled_width (width im) H (height im)) (fun W => resize im W H).
Proof.
  intros HH Hne. unfold scale_to_h.
  rewrite (proj2 (Z.leb_gt H 0)) by lia.
  rewrite (proj2 (Z.eqb_neq _ _) Hne). reflexivity.
Qed.

Lemma scale_to_h_result im H im' :
  0 < H -> scale_to_h resize im H = Ok im' ->
  height im' = H
  /\ (height im = H -> im' = im)
  /\ (height im <> H ->
        scaled_width (width im) H (height im) = Ok (width im')
        /\ resize im (width im') H = Ok im').
Proof.
  intros HH Hs.
  destruct (Z.eq_dec (height im) H) as [He|Hne].
  - rewrite (scale_to_h_same im H He) in Hs. injection Hs as <-.
    split; [exact He|]. split; [reflexivity|contradiction].
  - rewrite (scale_to_h_other im H HH Hne) in Hs. unfold bind in Hs.
    destruct (scaled_width (width im) H (height im)) as [e|W]; [discriminate|].
    destruct (resize_size _ _ _ _ Hs) as [Hw Hh].
    split; [exact Hh|]. split; [contradiction|]. intros _.
    rewrite Hw. split; [reflexivity|exact Hs].
Qed.

(** C6, as the code has it.  The compositor of main_images.py: with a
    positive target height both images are brought to that height; with
    none (unset or not positive) the height is the larger of the two.  An
    image already at the height is passed through unchanged; any other is
    resampled to that height and to the width
    [int(round(width * (H / height)))], which is an integer nearest to
    the binary64 product; on sizes below 2^31 that width is computed
    without an exception and is not negative, so the resampler is
    called.  The merge of main.py takes no target height and never
    resamples: the canvas has the larger height, both frames are pasted
    at the top as they are, and what lies below a shorter frame stays
    black. *)
Theorem make_sbs_scaling_policy (left right : image) (target_height : option Z) :
  0 <= height left -> 0 <= height right ->
  let H := chosen_height left right target_height in
  (forall t, target_height = Some t -> 0 < t -> H = t)
  /\ (target_height = None \/ (exists t, target_height = Some t /\ t <= 0) ->
      H = Z.max (height left) (height right))
  /\ make_sbs resize left right target_height
     = bind (scale_to_h resize left H) (fun L =>
       bind (scale_to_h resize right H) (fun R => Ok (compose L R H)))
  /\ (forall im, im = left \/ im = right ->
        (height im = H -> scale_to_h resize im H = Ok im)
        /\ (height im <> H ->
              scale_to_h resize im H
              = bind (scaled_width (width im) H (height im))
                     (fun W => resize im W H))
        /\ (forall im', scale_to_h resize im H = Ok im' ->
              height im' = H
              /\ (height im <> H ->
                    exists ratio x,
                      int_truediv H (height im) = Ok ratio
                      /\ int_mul_float (width im) ratio = Ok x
                      /\ nearest_int (width im') x))
        /\ (0 <= width im < 2 ^ 31 -> 0 < height im < 2 ^ 31 -> H < 2 ^ 31 ->
            height im <> H ->
            exists W, 0 <= W
                      /\ scaled_width (width im) H (height im) = Ok W
                      /\ scale_to_h resize im H = resize im W H))
  /\ width (merge_pair left right) = width left + width right
  /\ height (merge_pair left right) = Z.max (height left) (height right)
  /\ (forall x y, 0 <= x < width left -> 0 <= y < height left ->
        getpixel (merge_pair left right) x y = getpixel left x y)
  /\ (forall x y, width left <= x < width left + width right ->
        0 <= y < height right ->
        getpixel (merge_pair left right) x y = getpixel right (x - width left) y)
  /\ (forall x y, 0 <= x < width left -> height left <= y ->
        getpixel (merge_pair left right) x y = black)
  /\ (forall x y, width left <= x -> height right <= y ->
        getpixel (merge_pair left right) x y = black).
Proof.
  intros Hl Hr H.
  assert (Hpos : forall im, im = left \/ im = right -> height im <> H -> 0 < H).
  { intros im Him Hne. unfold H, chosen_height in *.
    destruct target_height as [t|].
    - destruct (Z.ltb_spec 0 t); [assumption|]. destruct Him; subst; lia.
    - destruct Him; subst; lia. }
  split.
  { intros t -> Ht. unfold H, chosen_height.
    rewrite (proj2 (Z.ltb_lt 0 t) Ht). reflexivity. }
  split.
  { intros [->|(t & -> & Ht)]; unfold H, chosen_height; [reflexivity|].
    rewrite (proj2 (Z.ltb_ge 0 t)) by lia. reflexivity. }
  split.
  { unfold make_sbs, bind, H, chosen_height.
    destruct target_height as [t|]; [|reflexivity].
    destruct (Z.ltb_spec 0 t) as [Ht|Ht].
    - rewrite (proj2 (Z.eqb_neq t 0)) by lia. reflexivity.
    - rewrite andb_false_r. reflexivity. }
  split.
  { intros im Him.
    split; [apply scale_to_h_same|].
    split; [intros Hne; apply scale_to_h_other; [eapply Hpos; eassumption|exact Hne]|].
    split.
    - intros im' Hs.
      destruct (Z.eq_dec (height im) H) as [He|Hne].
      + rewrite (scale_to_h_same im H He) in Hs. injection Hs as <-.
        split; [exact He|contradiction].
      + destruct (scale_to_h_result im H im' (Hpos im Him Hne) Hs) as (Hh & _ & Hw).
        split; [exact Hh|]. intros _.
        destruct (Hw Hne) as [Hsw _]. apply scaled_width_nearest, Hsw.
    - intros Hw Hh HH Hne.
      pose proof (Hpos im Him Hne) as HH0.
      destruct (scaled_width_returns (width im) H (height im) Hw (conj HH0 HH) Hh)
        as (W & HW & HW0).
      exists W. split; [exact HW0|]. split; [exact HW|].
      rewrite (scale_to_h_other im H HH0 Hne), HW. reflexivity. }
  split; [reflexivity|]. split; [reflexivity|].
  split; [intros x y Hx Hy; unfold merge_pair; apply paste_left_region; assumption|].
  split; [intros x y Hx Hy; unfold merge_pair; apply paste_right_region; assumption|].
  split.
  - intros x y Hx Hy. unfold merge_pair. cbn [paste getpixel image_new].
    rewrite (proj2 (Z.leb_gt (width left) x)) by lia. cbn [andb].
    rewrite (proj2 (Z.ltb_ge y (0 + height left))) by lia.
    rewrite andb_false_r. reflexivity.
  - intros x y Hx Hy. unfold merge_pair. cbn [paste getpixel image_new].
    rewrite (proj2 (Z.ltb_ge y (0 + height right))) by lia.
    rewrite andb_false_r.
    rewrite (proj2 (Z.ltb_ge x (0 + width left))) by lia.
    rewrite andb_false_r. reflexivity.
Qed.

End CompositorProofs.

Lemma nearest_resize_size im W H im' :
  nearest_resize im W H = Ok im' -> width im' = W /\ height im' = H.
Proof.
  unfold nearest_resize. destruct (_ || _); [discriminate|].
  intros [= <-]. split; reflexivity.
Qed.

Example scaled_width_1080_to_720 : scaled_width 1920 720 1080 = Ok 1280.
Proof. vm_compute. reflexivity. Qed.

Example scaled_width_tie_to_even : scaled_width 3 1 6 = Ok 0.
Proof. vm_compute. reflexivity. Qed.

Example scaled_width_zero_height : scaled_width 3 1 0 = Raise ZeroDivisionError.
Proof. reflexivity. Qed.

Example scaled_width_small : scaled_width 4 720 2 = Ok 1440.
Proof. vm_compute. reflexivity. Qed.

Lemma make_sbs_scaling_policy_witness :
  exists L R,
    scale_to_h nearest_resize demo_tall 720 = Ok L
    /\ scale_to_h nearest_resize demo_left 720 = Ok R
    /\ make_sbs nearest_resize demo_tall demo_left (Some 720) = Ok (compose L R 720)
    /\ height L = 720 /\ height R = 720
    /\ width L = 1280 /\ width R = 1440.
Proof.
  destruct (make_sbs_scaling_policy nearest_resize nearest_resize_size
              demo_tall demo_left (Some 720) ltac:(simpl; lia) ltac:(simpl; lia))
    as (_ & _ & Hrun & Hboth & _).
  change (chosen_height demo_tall demo_left (Some 720)) with 720 in Hrun, Hboth.
  assert (HL : scale_to_h nearest_resize demo_tall 720
               = nearest_resize demo_tall 1280 720).
  { unfold scale_to_h. change (height demo_tall) with 1080.
    change (width demo_tall) with 1920.
    rewrite scaled_width_1080_to_720. reflexivity. }
  assert (HR : scale_to_h nearest_resize demo_left 720
               = nearest_resize demo_left 1440 720).
  { unfold scale_to_h. change (height demo_left) with 2.
    change (width demo_left) with 4.
    rewrite scaled_width_small. reflexivity. }
  set (L := mkImage 1280 720
              (fun x y => getpixel demo_tall (x * width demo_tall / 1280)
                                             (y * height demo_tall / 720))).
  set (R := mkImage 1440 720
              (fun x y => getpixel demo_left (x * width demo_left / 1440)
                                             (y * height demo_left / 720))).
  assert (HL' : nearest_resize demo_tall 1280 720 = Ok L) by reflexivity.
  assert (HR' : nearest_resize demo_left 1440 720 = Ok R) by reflexivity.
  rewrite HL' in HL. rewrite HR' in HR.
  exists L, R. split; [exact HL|]. split; [exact HR|].
  split; [rewrite Hrun, HL, HR; reflexivity|].
  repeat split; reflexivity.
Defined.

(** C6 fails as worded on the merge of main.py: a 4 x 2 frame next to a
    1920 x 1080 one differs in height from the larger of the two, and the
    policy would resample it to 2160 x 1080; the merge pastes it as it is,
    so the composite is 1924 wide, carries the frame's own last pixel at
    (1923, 1) and is black right below the frame. *)
Lemma avi_merge_leaves_shorter_frame_unscaled :
  height demo_left <> Z.max (height demo_tall) (height demo_left)
  /\ scaled_width (width demo_left) (Z.max (height demo_tall) (height demo_left))
                   (height demo_left) = Ok 2160
  /\ width (merge_pair demo_tall demo_left) = 1920 + 4
  /\ height (merge_pair demo_tall demo_left) = 1080
  /\ getpixel (merge_pair demo_tall demo_left) 1923 1 = getpixel demo_left 3 1
  /\ getpixel demo_left 3 1 = (x03, x01, x01)%byte
  /\ getpixel (merge_pair demo_tall demo_left) 1920 2 = black.
Proof.
  split; [simpl; lia|].
  split; [vm_compute; reflexivity|].
  repeat split; reflexivity.
Qed.

(** ** Frame-rate discovery *)

Lemma py_int_raises s e : py_int s = inl e -> e = ValueError.
Proof.
  unfold py_int. destruct (split_sign (py_strip s)) as [neg body].
  destruct (digit_run body 0 0 false) as [[n c]|]; [discriminate|].
  intros [= <-]. reflexivity.
Qed.

Lemma py_contains_empty c : py_contains c "" = false.
Proof. reflexivity. Qed.

(** C7, as the code has it.  The default 30 is used exactly when the
    stripped text is empty or is [num/den] with a zero denominator; a
    rational with a non-zero denominator gives [round(num / den, 3)], text
    without a slash is handed to [float], and text with a slash that is
    not two integers raises ValueError instead of falling back to 30. *)
Theorem parse_framerate_cases (stdout : string) :
  let raw := py_strip stdout in
  (parse_framerate stdout = Ok FrDefault <->
     raw = EmptyString
     \/ (py_contains "/" raw = true
         /\ exists a b num,
              py_split "/" raw = [a; b] /\ py_int a = Ok num /\ py_int b = Ok 0))
  /\ (forall a b num denom,
        py_contains "/" raw = true -> py_split "/" raw = [a; b] ->
        py_int a = Ok num -> py_int b = Ok denom -> denom <> 0 ->
        parse_framerate stdout = bind (int_truediv num denom) (fun q => Ok (FrRounded3 q)))
  /\ (py_contains "/" raw = false -> raw <> EmptyString ->
        parse_framerate stdout = bind (py_float raw) (fun x => Ok (FrFloat x)))
  /\ (py_contains "/" raw = true ->
        (forall a b num denom,
           ~ (py_split "/" raw = [a; b] /\ py_int a = Ok num /\ py_int b = Ok denom)) ->
        parse_framerate stdout = Raise ValueError).
Proof.
  intros raw. unfold parse_framerate. fold raw.
  destruct (py_contains "/" raw) eqn:Hc.
  - (* a slash *)
    assert (Hne : raw <> EmptyString) by (intros E; rewrite E in Hc; discriminate).
    destruct (py_split "/" raw) as [|a [|b [|c rest]]] eqn:Hs; cbn [map].
    + split; [split; [discriminate|]|].
      { intros [E|(_ & a & b & num & [=] & _)]. contradiction. }
      split; [intros a b num denom _ [=]|]. split; [discriminate|]. reflexivity.
    + split; [split|].
      { destruct (py_int a); discriminate. }
      { intros [E|(_ & a' & b & num & [=] & _)]. contradiction. }
      split; [intros a' b num denom _ [=]|]. split; [discriminate|].
      intros _ _. destruct (py_int a) as [e|n] eqn:Ha; [|reflexivity].
      rewrite (py_int_raises _ _ Ha). reflexivity.
    + destruct (py_int a) as [ea|num] eqn:Ha.
      * pose proof (py_int_raises _ _ Ha) as ->.
        split; [split; [discriminate|]|].
        { intros [E|(_ & a' & b' & n & [= <- <-] & Ha' & _)]; [contradiction|].
          rewrite Ha in Ha'. discriminate. }
        split; [intros a' b' n d _ [= <- <-] Ha'; rewrite Ha in Ha'; discriminate|].
        split; [discriminate|]. reflexivity.
      * destruct (py_int b) as [eb|denom] eqn:Hb.
        -- pose proof (py_int_raises _ _ Hb) as ->.
           split; [split; [discriminate|]|].
           { intros [E|(_ & a' & b' & n & [= <- <-] & _ & Hb')]; [contradiction|].
             rewrite Hb in Hb'. discriminate. }
           split; [intros a' b' n d _ [= <- <-] _ Hb'; rewrite Hb in Hb'; discriminate|].
           split; [discriminate|]. reflexivity.
        -- destruct (Z.eqb_spec denom 0) as [Hz|Hnz]; cbn [negb].
           ++ subst denom. split; [split; [intros _|reflexivity]|].
              { right. split; [reflexivity|]. exists a, b, num. auto. }
              split.
              { intros a' b' n d _ [= <- <-] _ Hb' Hd.
                rewrite Hb in Hb'. injection Hb' as <-. contradiction. }
              split; [discriminate|].
              intros _ Hnone. exfalso. apply (Hnone a b num 0). auto.
           ++ split; [split|].
              { destruct (int_truediv num denom); discriminate. }
              { intros [E|(_ & a' & b' & n & [= <- <-] & _ & Hb')]; [contradiction|].
                rewrite Hb in Hb'. injection Hb' as ->. contradiction. }
              split.
              { intros a' b' n d _ [= <- <-] Ha' Hb' _.
                rewrite Ha in Ha'. rewrite Hb in Hb'.
                injection Ha' as <-. injection Hb' as <-. reflexivity. }
              split; [discriminate|].
              intros _ Hnone. exfalso. apply (Hnone a b num denom). auto.
    + destruct (py_int a) as [ea|num] eqn:Ha.
      * pose proof (py_int_raises _ _ Ha) as ->.
        split; [split; [discriminate|]|].
        { intros [E|(_ & a' & b' & n & [=] & _)]. contradiction. }
        split; [intros a' b' n d _ [=]|]. split; [discriminate|]. reflexivity.
      * destruct (py_int b) as [eb|denom] eqn:Hb.
        -- pose proof (py_int_raises _ _ Hb) as ->.
           split; [split; [discriminate|]|].
           { intros [E|(_ & a' & b' & n & [=] & _)]. contradiction. }
           split; [intros a' b' n d _ [=]|]. split; [discriminate|]. reflexivity.
        -- split; [split; [discriminate|]|].
           { intros [E|(_ & a' & b' & n & [=] & _)]. contradiction. }
           split; [intros a' b' n d _ [=]|]. split; [discriminate|]. reflexivity.
  - (* no slash *)
    destruct (String.eqb_spec raw "") as [He|Hne]; cbn [negb].
    + split; [split; [intros _; left; exact He|reflexivity]|].
      split; [intros a b num denom [=]|].
      split; [intros _ Hn; contradiction|]. discriminate.
    + split; [split|].
      { destruct (py_float raw); discriminate. }
      { intros [E|([=] & _)]. contradiction. }
      split; [intros a b num denom [=]|].
      split; [intros _ _; reflexivity|]. discriminate.
Qed.

(** An unparsable frame rate is not replaced by 30: the parse raises. *)
Lemma parse_framerate_unparsable_raises :
  py_contains "/" (py_strip "abc") = false
  /\ py_float "abc" = Raise ValueError
  /\ parse_framerate "abc" = Raise ValueError
  /\ parse_framerate "N/A" = Raise ValueError
  /\ parse_framerate "abc" <> Ok FrDefault.
Proof. repeat split; discriminate. Qed.

Example parse_framerate_ntsc :
  parse_framerate "30000/1001" = bind (int_truediv 30000 1001) (fun q => Ok (FrRounded3 q)).
Proof. reflexivity. Qed.

Example parse_framerate_unknown : parse_framerate "0/0" = Ok FrDefault.
Proof. reflexivity. Qed.

Example parse_framerate_silent_probe : parse_framerate "" = Ok FrDefault.
Proof. reflexivity. Qed.

(** ** Discovery: recognising extensions *)

Lemma lower_ascii_dot a : Ascii.eqb (lower_ascii a) "." = Ascii.eqb a ".".
Proof. destruct a as [[] [] [] [] [] [] [] []]; reflexivity. Qed.

Lemma py_lower_length s : String.length (py_lower s) = String.length s.
Proof. induction s as [|a s IH]; simpl; congruence. Qed.

Lemma rfind_dot_lower s : rfind_dot (py_lower s) = rfind_dot s.
Proof.
  induction s as [|a s IH]; [reflexivity|].
  cbn [py_lower rfind_dot]. rewrite IH, lower_ascii_dot. reflexivity.
Qed.

Lemma substring_lower : forall s n m,
  String.substring n m (py_lower s) = py_lower (String.substring n m s).
Proof.
  induction s as [|a s IH]; intros n m.
  - destruct n, m; reflexivity.
  - destruct n as [|n]; [destruct m as [|m]|]; cbn [py_lower String.substring].
    + reflexivity.
    + rewrite IH. reflexivity.
    + apply IH.
Qed.

Lemma name_suffix_lower name :
  name_suffix (py_lower name) = py_lower (name_suffix name).
Proof.
  unfold name_suffix. rewrite rfind_dot_lower, py_lower_length.
  destruct (rfind_dot name) as [i|]; [|reflexivity].
  destruct (_ && _); [apply substring_lower|reflexivity].
Qed.

Lemma str_in_elem x l : str_in x l = true <-> x ∈ l.
Proof.
  unfold str_in. rewrite existsb_exists. split.
  - intros (y & Hy & He). apply String.eqb_eq in He. subst.
    apply list_elem_of_In, Hy.
  - intros H. exists x. split; [apply list_elem_of_In, H|apply String.eqb_refl].
Qed.

Lemma upper_lower_ascii a : upper_ascii (lower_ascii a) = upper_ascii a.
Proof. destruct a as [[] [] [] [] [] [] [] []]; reflexivity. Qed.

Lemma lower_upper_ascii a : lower_ascii (upper_ascii a) = lower_ascii a.
Proof. destruct a as [[] [] [] [] [] [] [] []]; reflexivity. Qed.

Lemma upper_ascii_dot a : Ascii.eqb (upper_ascii a) "." = Ascii.eqb a ".".
Proof. destruct a as [[] [] [] [] [] [] [] []]; reflexivity. Qed.

Lemma upper_lower_string s : upper_string (py_lower s) = upper_string s.
Proof.
  induction s as [|a s IH]; [reflexivity|].
  cbn [py_lower upper_string]. rewrite IH, upper_lower_ascii. reflexivity.
Qed.

Lemma lower_upper_string s : py_lower (upper_string s) = py_lower s.
Proof.
  induction s as [|a s IH]; [reflexivity|].
  cbn [py_lower upper_string]. rewrite IH, lower_upper_ascii. reflexivity.
Qed.

(** Against a text in lower case, lower-casing and comparing is comparing
    without regard to case. *)
Lemma lower_eqb_ignoring_case s t :
  py_lower t = t ->
  String.eqb (py_lower s) t = same_ignoring_case s t.
Proof.
  intros Ht. unfold same_ignoring_case.
  destruct (String.eqb_spec (py_lower s) t) as [E|N];
    destruct (String.eqb_spec (upper_string s) (upper_string t)) as [E'|N'];
    try reflexivity.
  - exfalso. apply N'. rewrite <- E. apply eq_sym, upper_lower_string.
  - exfalso. apply N. rewrite <- Ht, <- (lower_upper_string t), <- E'.
    apply eq_sym, lower_upper_string.
Qed.

Lemma upper_string_length s : String.length (upper_string s) = String.length s.
Proof. induction s as [|a s IH]; simpl; congruence. Qed.

Lemma rfind_dot_upper s : rfind_dot (upper_string s) = rfind_dot s.
Proof.
  induction s as [|a s IH]; [reflexivity|].
  cbn [upper_string rfind_dot]. rewrite IH, upper_ascii_dot. reflexivity.
Qed.

Lemma substring_upper : forall s n m,
  String.substring n m (upper_string s) = upper_string (String.substring n m s).
Proof.
  induction s as [|a s IH]; intros n m.
  - destruct n, m; reflexivity.
  - destruct n as [|n]; [destruct m as [|m]|]; cbn [upper_string String.substring].
    + reflexivity.
    + rewrite IH. reflexivity.
    + apply IH.
Qed.

Lemma name_suffix_upper name :
  name_suffix (upper_string name) = upper_string (name_suffix name).
Proof.
  unfold name_suffix. rewrite rfind_dot_upper, upper_string_length.
  destruct (rfind_dot name) as [i|]; [|reflexivity].
  destruct (_ && _); [apply substring_upper|reflexivity].
Qed.

Lemma still_test_ignores_case ext :
  str_in (py_lower ext) image_suffixes = is_still_extension ext.
Proof.
  unfold str_in, image_suffixes, is_still_extension. cbn [existsb].
  rewrite !lower_eqb_ignoring_case by reflexivity.
  rewrite orb_false_r, orb_assoc. reflexivity.
Qed.

Lemma rfind_dot_app_ext base ext :
  rfind_dot ext = Some 0%nat -> rfind_dot (base ++ ext) = Some (String.length base).
Proof.
  intros Hext. induction base as [|c base IH]; [exact Hext|].
  simpl. rewrite IH. reflexivity.
Qed.

Lemma string_length_app (a b : string) :
  String.length (a ++ b) = (String.length a + String.length b)%nat.
Proof. induction a as [|c a IH]; simpl; [reflexivity|]. rewrite IH. reflexivity. Qed.

(** C10.  A single file is taken by the AVI driver exactly when its
    extension is [.avi] in any mix of upper and lower case, and by the
    still-image driver exactly when it is [.mpo], [.jpg] or [.jpeg] in any
    case; a directory scan of the still-image driver keeps exactly the
    files whose extension is one of these three in any case; and two
    names that differ only in the case of their letters have extensions
    that differ only in case, so both are taken or both are not. *)
Theorem extension_test_is_case_insensitive (fs : gmap path node) (inp : path)
    (recursive : bool) :
  (is_file fs inp = true ->
     (avi_discover fs inp = [inp] <-> is_avi_extension (suffix inp) = true)
     /\ (is_avi_extension (suffix inp) = false -> avi_discover fs inp = [])
     /\ (mpo_discover fs inp recursive = inr [inp]
         <-> is_still_extension (suffix inp) = true)
     /\ (is_still_extension (suffix inp) = false ->
         mpo_discover fs inp recursive = inl (Unsupported (p_name inp))))
  /\ (is_dir fs inp = true ->
      let scanned := if recursive then rglob_all fs inp else iterdir fs inp in
      let selected :=
        filter (fun p => is_file fs p && is_still_extension (suffix p) = true)
               scanned in
      (forall p, p ∈ selected <->
         p ∈ scanned /\ is_file fs p = true /\ is_still_extension (suffix p) = true)
      /\ (selected <> [] -> mpo_discover fs inp recursive = inr selected)
      /\ (selected = [] -> mpo_discover fs inp recursive = inl NoFilesFound))
  /\ (forall p q : path,
        same_ignoring_case (p_name p) (p_name q) = true ->
        same_ignoring_case (suffix p) (suffix q) = true
        /\ is_avi_extension (suffix p) = is_avi_extension (suffix q)
        /\ is_still_extension (suffix p) = is_still_extension (suffix q))
  /\ (forall (base : string) (e0 e1 e2 : ascii),
        upper_string (String e0 (String e1 (String e2 EmptyString))) = "AVI"%string ->
        base <> EmptyString ->
        is_avi_extension
          (name_suffix (base ++ String "." (String e0 (String e1 (String e2 EmptyString)))))
        = true).
Proof.
  split; [|split; [|split]].
  - intros Hf.
    assert (Hd : is_dir fs inp = false).
    { unfold is_file, is_dir in *. destruct (fs !! inp) as [[]|]; congruence. }
    unfold avi_discover, mpo_discover. rewrite Hf, Hd. cbn [andb].
    rewrite still_test_ignores_case.
    rewrite (lower_eqb_ignoring_case (suffix inp) ".avi" eq_refl).
    fold (is_avi_extension (suffix inp)).
    destruct (is_avi_extension (suffix inp)); destruct (is_still_extension (suffix inp));
      cbn [negb]; repeat split; intros; congruence.
  - intros Hd scanned selected.
    assert (Hf : is_file fs inp = false).
    { unfold is_file, is_dir in *. destruct (fs !! inp) as [[]|]; congruence. }
    assert (Hsel : selected
      = filter (fun p => is_file fs p && str_in (py_lower (suffix p)) image_suffixes = true)
               scanned).
    { unfold selected. apply list_filter_iff. intros p.
      rewrite still_test_ignores_case. reflexivity. }
    split.
    { intros p. unfold selected. rewrite list_elem_of_filter.
      rewrite andb_true_iff. tauto. }
    unfold mpo_discover. rewrite Hf, Hd. fold scanned. rewrite <- Hsel.
    split; intros Hs; destruct selected; congruence.
  - intros p q Hpq.
    assert (Hsfx : upper_string (suffix p) = upper_string (suffix q)).
    { unfold suffix. rewrite <- !name_suffix_upper.
      apply String.eqb_eq in Hpq. rewrite Hpq. reflexivity. }
    unfold is_avi_extension, is_still_extension, same_ignoring_case.
    rewrite Hsfx. split; [apply String.eqb_refl|]. split; reflexivity.
  - intros base e0 e1 e2 Hup Hne.
    set (ext := String "." (String e0 (String e1 (String e2 "")))).
    assert (Hdot : rfind_dot ext = Some 0%nat).
    { cbn [upper_string] in Hup. injection Hup as H0 H1 H2.
      assert (D0 : Ascii.eqb e0 "." = false) by (apply Ascii.eqb_neq; intros ->; discriminate).
      assert (D1 : Ascii.eqb e1 "." = false) by (apply Ascii.eqb_neq; intros ->; discriminate).
      assert (D2 : Ascii.eqb e2 "." = false) by (apply Ascii.eqb_neq; intros ->; discriminate).
      unfold ext. simpl. rewrite D2, D1, D0. reflexivity. }
    assert (Hsfx : name_suffix (base ++ ext) = ext).
    { unfold name_suffix.
      rewrite (rfind_dot_app_ext base ext Hdot), string_length_app.
      change (String.length ext) with 4%nat.
      assert (H0 : (0 <? String.length base)%nat = true).
      { destruct base; [contradiction|reflexivity]. }
      rewrite H0.
      replace (String.length base <? String.length base + 4 - 1)%nat with true
        by (symmetry; apply Nat.ltb_lt; lia).
      cbn [andb].
      replace (String.length base + 4 - String.length base)%nat with 4%nat by lia.
      clear. induction base as [|c base IH]; [reflexivity|].
      simpl. exact IH. }
    rewrite Hsfx. unfold is_avi_extension, same_ignoring_case, ext.
    cbn [upper_string] in Hup |- *. injection Hup as -> -> ->. reflexivity.
Qed.

(** The names a camera writes in upper case, and mixed case, are taken. *)
Lemma extension_test_is_case_insensitive_witness :
  avi_discover demo_cases ["clips"; "DSCF0001.AVI"]%string
    = [["clips"; "DSCF0001.AVI"]%string]
  /\ mpo_discover demo_cases ["shots"; "a.MpO"]%string false
     = inr [["shots"; "a.MpO"]%string]
  /\ (forall p, p ∈ filter (fun p => is_file demo_cases p
                                     && is_still_extension (suffix p) = true)
                           (iterdir demo_cases ["shots"]%string)
       <-> p = ["shots"; "a.MpO"]%string \/ p = ["shots"; "b.JPEG"]%string).
Proof.
  destruct (extension_test_is_case_insensitive demo_cases
              ["clips"; "DSCF0001.AVI"]%string false) as (Havi & _).
  destruct (extension_test_is_case_insensitive demo_cases
              ["shots"; "a.MpO"]%string false) as (Hmpo & _).
  destruct (extension_test_is_case_insensitive demo_cases
              ["shots"]%string false) as (_ & Hdir & _).
  split; [apply (Havi eq_refl); reflexivity|].
  split; [apply (Hmpo eq_refl); reflexivity|].
  destruct (Hdir eq_refl) as (Hsel & _).
  intros p. rewrite Hsel. split.
  - intros (Hscan & Hfile & Hext).
    unfold iterdir in Hscan. apply list_elem_of_filter in Hscan.
    destruct Hscan as [Hentry Hl]. vm_compute in Hl.
    repeat (apply elem_of_cons in Hl; destruct Hl as [E|Hl]; [subst p|]);
      first [ left; reflexivity | right; reflexivity
            | vm_compute in Hext; discriminate Hext
            | vm_compute in Hfile; discriminate Hfile
            | vm_compute in Hentry; discriminate Hentry
            | inversion Hl ].
  - intros [E|E]; subst p; (split; [|split; reflexivity]);
      apply list_elem_of_filter; (split; [reflexivity|]);
      vm_compute; repeat first [left; reflexivity | right].
Defined.

Example avi_discover_upper_case :
  avi_discover {[ ["clips"; "DSCF0001.AVI"]%string := FileNode [] ]}
               ["clips"; "DSCF0001.AVI"]%string
  = [["clips"; "DSCF0001.AVI"]%string].
Proof. vm_compute. reflexivity. Qed.

Example mpo_discover_mixed_case :
  mpo_discover {[ ["shots"; "a.MpO"]%string := FileNode [];
                  ["shots"; "b.txt"]%string := FileNode [];
                  ["shots"]%string := DirNode ]}
               ["shots"]%string false
  = inr [["shots"; "a.MpO"]%string].
Proof. vm_compute. reflexivity. Qed.

(** ** A missing input path *)

Lemma mkdir_from_spec : forall rest fs base fs',
  mkdir_from fs base rest = Ok fs' ->
  forall q,
    fs' !! q =
    match fs !! q with
    | Some n => Some n
    | None => if on_way (base ++ rest) q && bool_decide (length base < length q)%nat
              then Some DirNode else None
    end.
Proof.
  induction rest as [|c rest IH]; intros fs base fs' Hm q.
  - injection Hm as <-. rewrite app_nil_r.
    destruct (fs !! q); [reflexivity|].
    unfold on_way.
    destruct (bool_decide (length base < length q)%nat) eqn:Hlt;
      [|rewrite andb_false_r; reflexivity].
    apply bool_decide_eq_true in Hlt.
    rewrite (bool_decide_eq_false_2 (0 < length q <= length base)%nat) by lia.
    reflexivity.
  - cbn [mkdir_from] in Hm.
    assert (Happ : base ++ c :: rest = (base ++ [c]) ++ rest)
      by (rewrite <- app_assoc; reflexivity).
    assert (Hhere : forall fs0, fs0 !! (base ++ [c]) = Some DirNode ->
              (forall q', q' <> base ++ [c] -> fs0 !! q' = fs !! q') ->
              (fs !! (base ++ [c]) = None \/ fs !! (base ++ [c]) = Some DirNode) ->
              mkdir_from fs0 (base ++ [c]) rest = Ok fs' ->
              fs' !! q =
              match fs !! q with
              | Some n => Some n
              | None => if on_way (base ++ c :: rest) q
                           && bool_decide (length base < length q)%nat
                        then Some DirNode else None
              end).
    { intros fs0 H0 Hother Hwas Hm0.
      rewrite (IH _ _ _ Hm0 q). rewrite Happ.
      destruct (decide (q = base ++ [c])) as [->|Hne].
      - rewrite H0.
        destruct Hwas as [Hw|Hw]; rewrite Hw; [|reflexivity].
        unfold on_way. rewrite !length_app. cbn [length].
        rewrite take_app_length' by (rewrite length_app; simpl; lia).
        rewrite !bool_decide_eq_true_2 by (reflexivity || lia). reflexivity.
      - rewrite (Hother q Hne).
        destruct (fs !! q); [reflexivity|].
        destruct (on_way ((base ++ [c]) ++ rest) q) eqn:Hon; cbn [andb]; [|reflexivity].
        rewrite length_app. cbn [length].
        unfold on_way in Hon. apply andb_true_iff in Hon. destruct Hon as [Hlen Htake].
        apply bool_decide_eq_true in Hlen, Htake.
        destruct (decide (length q = length base + 1)%nat) as [Heq|Hneq].
        + exfalso. apply Hne. rewrite <- Htake, Heq.
          rewrite take_app_length'; [reflexivity|]. rewrite length_app. simpl. lia.
        + destruct (decide (length base < length q)%nat).
          * rewrite !bool_decide_eq_true_2 by lia. reflexivity.
          * rewrite !bool_decide_eq_false_2 by lia. reflexivity. }
    destruct (fs !! (base ++ [c])) as [[content|]|] eqn:Hc.
    + discriminate.
    + apply (Hhere fs); auto.
    + apply (Hhere (<[base ++ [c] := DirNode]> fs)); auto.
      * apply lookup_insert_eq.
      * intros q' Hq'. apply lookup_insert_ne. congruence.
Qed.

Lemma mkdir_parents_spec fs p fs' :
  mkdir_parents fs p = Ok fs' ->
  forall q,
    fs' !! q =
    match fs !! q with
    | Some n => Some n
    | None => if on_way p q then Some DirNode else None
    end.
Proof.
  intros Hm q. rewrite (mkdir_from_spec _ _ _ _ Hm q). cbn [app length].
  destruct (fs !! q); [reflexivity|].
  unfold on_way.
  destruct (decide (0 < length q)%nat).
  - rewrite (bool_decide_eq_true_2 (0 < length q)%nat) by lia.
    rewrite andb_true_r. reflexivity.
  - rewrite (bool_decide_eq_false_2 (0 < length q <= length p)%nat) by lia.
    reflexivity.
Qed.

Section MissingInput.

Variable decode : list byte -> option image.
Variable encode_jpeg : image -> option (list byte).
Variable ffprobe : list byte -> string.
Variable ffmpeg_audio : gmap path node -> path -> option (list byte).
Variable ffmpeg_video : framerate -> gmap path node -> path -> option (list byte).
Variable ffmpeg_mux : gmap path node -> path -> path -> option (list byte).
Variable resize : image -> Z -> Z -> result image.
Variable exif_transpose : image -> image.
Variable save_jpeg : image -> option (list byte).
Variable completion : list path -> list path.

(** C9, as the code has it.  The output directory is made first (the AVI
    driver skips that when the path exists).  When that succeeds and the
    input path is still missing afterwards, the still-image driver
    reports the input as not found and the AVI driver reports that there
    are no AVI files; no task is run, and the file system differs from
    the initial one only by the output directory and its missing
    ancestors, now directories. *)
Theorem missing_input_only_creates_output_directory
    (fs fs1 : gmap path node) (input_path output_folder : path)
    (exif_autorotate recursive : bool) (target_height : option Z) (workers : Z) :
  fs !! input_path = None ->
  on_way output_folder input_path = false ->
  mkdir_parents fs output_folder = Ok fs1 ->
  mpo_to_sbs decode resize exif_transpose save_jpeg completion
             fs input_path output_folder exif_autorotate recursive
             target_height workers
    = Some (Ok (InputNotFound input_path), fs1)
  /\ extract_and_create_sbs_with_audio decode encode_jpeg ffprobe ffmpeg_audio ffmpeg_video ffmpeg_mux
       fs input_path output_folder
     = Some (ReportNoAvi, if p_exists fs output_folder then fs else fs1)
  /\ (forall q, fs1 !! q =
                match fs !! q with
                | Some n => Some n
                | None => if on_way output_folder q then Some DirNode else None
                end).
Proof.
  intros Hin Hway Hmk.
  pose proof (mkdir_parents_spec _ _ _ Hmk) as Hspec.
  assert (Hin1 : fs1 !! input_path = None).
  { rewrite Hspec, Hin, Hway. reflexivity. }
  split; [|split; [|exact Hspec]].
  - unfold mpo_to_sbs. rewrite Hmk. unfold Ok at 1.
    unfold mpo_discover, is_file, is_dir. rewrite Hin1. reflexivity.
  - unfold extract_and_create_sbs_with_audio.
    destruct (p_exists fs output_folder); cbn [negb].
    + unfold Ok at 1. unfold avi_discover, is_file, is_dir. rewrite Hin. reflexivity.
    + rewrite Hmk. unfold Ok at 1.
      unfold avi_discover, is_file, is_dir. rewrite Hin1. reflexivity.
Qed.

End MissingInput.

(** With nothing on disk, a missing input still leaves the output directory
    behind: the failure is not free of side effects. *)
Lemma missing_input_creates_output_directory :
  mpo_to_sbs (fun _ => None) nearest_resize (fun im => im) (fun _ => Some []) (fun l => l)
             ∅ ["missing.mpo"]%string ["out"]%string true false None 1
    = Some (Ok (InputNotFound ["missing.mpo"]%string), {[ ["out"]%string := DirNode ]})
  /\ extract_and_create_sbs_with_audio (fun _ => None) (fun _ => Some []) (fun _ => EmptyString)
       (fun _ _ => None) (fun _ _ _ => None) (fun _ _ _ => None) ∅ ["missing.avi"]%string ["out"]%string
     = Some (ReportNoAvi, {[ ["out"]%string := DirNode ]})
  /\ ({[ ["out"]%string := DirNode ]} : gmap path node) <> ∅.
Proof.
  split; [reflexivity|]. split; [reflexivity|].
  intros H. apply (f_equal (fun m : gmap path node => m !! ["out"%string])) in H.
  rewrite lookup_singleton_eq, lookup_empty in H. discriminate.
Qed.

Lemma missing_input_only_creates_output_directory_witness :
  mpo_to_sbs (fun _ => None) nearest_resize (fun im => im) (fun _ => Some []) (fun l => l)
             ∅ ["missing.mpo"]%string ["data"; "out"]%string true false None 1
    = Some (Ok (InputNotFound ["missing.mpo"]%string),
            {[ ["data"]%string := DirNode; ["data"; "out"]%string := DirNode ]}).
Proof.
  assert (Hmk : mkdir_parents (∅ : gmap path node) ["data"; "out"]%string
                = Ok {[ ["data"]%string := DirNode; ["data"; "out"]%string := DirNode ]}).
  { reflexivity. }
  exact (proj1 (missing_input_only_creates_output_directory
           (fun _ => None) (fun _ => Some []) (fun _ => EmptyString) (fun _ _ => None) (fun _ _ _ => None) (fun _ _ _ => None)
           nearest_resize (fun im => im) (fun _ => Some []) (fun l => l)
           ∅ _ ["missing.mpo"]%string ["data"; "out"]%string true false None 1
           (lookup_empty _) eq_refl Hmk)).
Defined.

(** ** Names and writes below the output directory *)

Lemma zeros_digits k d :
  (zeros k ++ NilEmpty.string_of_uint d)%string
  = NilEmpty.string_of_uint (Nat.iter k Decimal.D0 d).
Proof.
  induction k as [|k IH]; [reflexivity|].
  change (String "0" (zeros k ++ NilEmpty.string_of_uint d)
          = String "0" (NilEmpty.string_of_uint (Nat.iter k Decimal.D0 d))).
  rewrite IH. reflexivity.
Qed.

Lemma of_uint_leading_zeros k d :
  Nat.of_uint (Nat.iter k Decimal.D0 d) = Nat.of_uint d.
Proof.
  induction k as [|k IH]; [reflexivity|].
  rewrite <- IH. reflexivity.
Qed.

Lemma fmt_04d_inj n m : fmt_04d n = fmt_04d m -> n = m.
Proof.
  unfold fmt_04d. rewrite !zeros_digits. intros H.
  apply (f_equal NilEmpty.uint_of_string) in H. rewrite !NilEmpty.usu in H.
  injection H as H. apply (f_equal Nat.of_uint) in H.
  rewrite !of_uint_leading_zeros, !Unsigned.of_to in H. exact H.
Qed.

Lemma string_app_inv_l (p a b : string) :
  (p ++ a)%string = (p ++ b)%string -> a = b.
Proof.
  induction p as [|c p IH]; [auto|]. simpl. intros [= H]. auto.
Qed.

Lemma string_app_inv_r (a b s : string) :
  (a ++ s)%string = (b ++ s)%string -> a = b.
Proof.
  revert b. induction a as [|c a IH]; intros [|c' b] H.
  - reflexivity.
  - apply (f_equal String.length) in H.
    rewrite !string_length_app in H. simpl in H. lia.
  - apply (f_equal String.length) in H.
    rewrite !string_length_app in H. simpl in H. lia.
  - simpl in H. injection H as -> H. f_equal. apply IH, H.
Qed.

Lemma zeros_length k : String.length (zeros k) = k.
Proof. induction k as [|k IH]; simpl; [reflexivity|]. rewrite IH. reflexivity. Qed.

Lemma fmt_04d_length n :
  String.length (fmt_04d n)
  = Nat.max 4 (String.length (NilEmpty.string_of_uint (Nat.to_uint n))).
Proof. unfold fmt_04d. rewrite string_length_app, zeros_length. lia. Qed.

Lemma frame_path_inj x y : frame_path x = frame_path y -> x = y.
Proof.
  assert (Hinj : forall (p s : string) n m,
            (p ++ fmt_04d n ++ s)%string = (p ++ fmt_04d m ++ s)%string -> n = m).
  { intros p s n m H. apply string_app_inv_l, string_app_inv_r in H.
    apply fmt_04d_inj, H. }
  destruct x as [n|n|n], y as [m|m|m]; cbn [frame_path]; intros H;
    try discriminate; injection H as H; apply Hinj in H; congruence.
Qed.

#[local] Instance frame_path_below_inj (temp : path) :
  Inj (=) (=) (fun x => temp ++ frame_path x).
Proof. intros x y H. apply app_inv_head, frame_path_inj in H. exact H. Qed.

Lemma write_file_lookup_ne fs p out q :
  q <> p -> write_file fs p out !! q = fs !! q.
Proof.
  intros Hne. unfold write_file. destruct out as [content|]; [|reflexivity].
  destruct (fs !! p) as [[c|]|]; try reflexivity;
    rewrite lookup_insert_ne by congruence; reflexivity.
Qed.

Lemma write_file_lookup_eq fs p content :
  fs !! p <> Some DirNode ->
  write_file fs p (Some content) !! p = Some (FileNode content).
Proof.
  intros Hnd. unfold write_file.
  destruct (fs !! p) as [[c|]|]; [|contradiction|]; apply lookup_insert_eq.
Qed.

(** What is a directory stays one, and no directory appears. *)
Lemma write_file_dir fs p out q :
  write_file fs p out !! q = Some DirNode <-> fs !! q = Some DirNode.
Proof.
  unfold write_file. destruct out as [content|]; [|reflexivity].
  destruct (fs !! p) as [[c|]|] eqn:Hp; [|reflexivity|];
    (destruct (decide (q = p)) as [->|Hne];
     [rewrite lookup_insert_eq, Hp; split; discriminate
     |rewrite lookup_insert_ne by congruence; reflexivity]).
Qed.

Lemma write_folder_lookup_frame temp folder fs x :
  write_folder temp folder fs !! (temp ++ frame_path x)
  = match folder !! x with
    | Some content => Some (FileNode content)
    | None => fs !! (temp ++ frame_path x)
    end.
Proof.
  unfold write_folder. rewrite lookup_union, lookup_fmap.
  rewrite (lookup_kmap (fun x => temp ++ frame_path x)).
  destruct (folder !! x) as [content|]; cbn [fmap option_fmap option_map].
  - destruct (fs !! (temp ++ frame_path x)); reflexivity.
  - destruct (fs !! (temp ++ frame_path x)); reflexivity.
Qed.

Lemma write_folder_lookup_other temp folder fs q :
  (forall x, q <> temp ++ frame_path x) ->
  write_folder temp folder fs !! q = fs !! q.
Proof.
  intros Hq. unfold write_folder. rewrite lookup_union, lookup_fmap.
  assert (Hnone : (kmap (fun x => temp ++ frame_path x) folder
                     : gmap path (list byte)) !! q = None).
  { apply (lookup_kmap_None (fun x => temp ++ frame_path x)).
    intros x Hx. exfalso. apply (Hq x Hx). }
  rewrite Hnone. cbn [fmap option_fmap option_map].
  destruct (fs !! q); reflexivity.
Qed.

Lemma p_name_snoc (a : path) (t : string) : p_name (a ++ [t]) = t.
Proof. unfold p_name. apply last_last. Qed.

Lemma py_lower_app s t : py_lower (s ++ t) = (py_lower s ++ py_lower t)%string.
Proof. induction s as [|c s IH]; simpl; [reflexivity|]. rewrite IH. reflexivity. Qed.

Lemma substring_app_skip : forall (s t : string) i k,
  String.substring (String.length s + i) k (s ++ t) = String.substring i k t.
Proof.
  induction s as [|c s IH]; intros t i k; [reflexivity|].
  cbn [String.length Nat.add append String.substring]. apply IH.
Qed.

Lemma ends_with_app sfx s t :
  (String.length sfx <= String.length t)%nat ->
  ends_with sfx (s ++ t) = ends_with sfx t.
Proof.
  intros Hlen. unfold ends_with. rewrite string_length_app.
  replace (String.length s + String.length t - String.length sfx)%nat
    with (String.length s + (String.length t - String.length sfx))%nat by lia.
  rewrite substring_app_skip.
  rewrite (proj2 (Nat.leb_le _ _)) by lia.
  rewrite (proj2 (Nat.leb_le _ _)) by lia. reflexivity.
Qed.

Lemma substring_tail_length : forall (s : string) i,
  (i <= String.length s)%nat ->
  String.length (String.substring i (String.length s - i) s) = (String.length s - i)%nat.
Proof.
  induction s as [|c s IH]; intros i Hi.
  - destruct i; reflexivity.
  - destruct i as [|i].
    + cbn [String.length Nat.sub String.substring]. f_equal.
      specialize (IH 0%nat ltac:(lia)). rewrite Nat.sub_0_r in IH. exact IH.
    + cbn [String.length Nat.sub String.substring]. apply IH.
      simpl in Hi. lia.
Qed.

(** The suffix of a name ends the name. *)
Lemma name_suffix_ends name sfx :
  name_suffix name = sfx -> sfx <> EmptyString -> ends_with sfx name = true.
Proof.
  unfold name_suffix. intros H Hne.
  destruct (rfind_dot name) as [i|]; [|congruence].
  destruct ((0 <? i)%nat && (i <? String.length name - 1)%nat) eqn:Hc; [|congruence].
  apply andb_true_iff in Hc. destruct Hc as [_ Hi]. apply Nat.ltb_lt in Hi.
  unfold ends_with. subst sfx. rewrite substring_tail_length by lia.
  rewrite (proj2 (Nat.leb_le _ _)) by lia. cbn [andb].
  replace (String.length name - (String.length name - i))%nat with i by lia.
  apply String.eqb_refl.
Qed.

Lemma ends_with_lower sfx name :
  py_lower sfx = sfx -> ends_with sfx name = true ->
  ends_with sfx (py_lower name) = true.
Proof.
  unfold ends_with. intros Hs H. rewrite py_lower_length.
  apply andb_true_iff in H. destruct H as [Hle He]. rewrite Hle. cbn [andb].
  apply String.eqb_eq in He. rewrite substring_lower, He, Hs.
  apply String.eqb_refl.
Qed.

(** A name that ends in [.avi], whatever the case of the letters, is
    none of the names the driver writes to. *)
Lemma not_avi_tail (s t : string) :
  (4 <= String.length t)%nat ->
  ends_with ".avi" (py_lower t) = false ->
  ends_with ".avi" (py_lower (s ++ t)) = false.
Proof.
  intros Hlen H. rewrite py_lower_app, ends_with_app; [exact H|].
  rewrite py_lower_length. exact Hlen.
Qed.

Lemma frame_name_not_avi x :
  exists a t, frame_path x = a ++ [t] /\ ends_with ".avi" (py_lower t) = false.
Proof.
  assert (Hjpg : forall n, ends_with ".avi" (py_lower (fmt_04d n ++ ".jpg")) = false).
  { intros n. apply not_avi_tail; [simpl; lia|reflexivity]. }
  assert (Hlen : forall n, (4 <= String.length (fmt_04d n ++ ".jpg"))%nat).
  { intros n. rewrite string_length_app. simpl. lia. }
  destruct x as [n|n|n]; cbn [frame_path].
  - exists [], ("left_" ++ fmt_04d n ++ ".jpg")%string. split; [reflexivity|].
    apply not_avi_tail; [apply Hlen|apply Hjpg].
  - exists [], ("right_" ++ fmt_04d n ++ ".jpg")%string. split; [reflexivity|].
    apply not_avi_tail; [apply Hlen|apply Hjpg].
  - exists ["sbs_frames"%string], ("sbs_" ++ fmt_04d n ++ ".jpg")%string.
    split; [reflexivity|]. apply not_avi_tail; [apply Hlen|apply Hjpg].
Qed.

Lemma avi_name_not_written (output_path avi_file p : path) :
  ends_with ".avi" (py_lower (p_name p)) = true ->
  p <> temp_folder output_path avi_file ++ ["audio.m4a"%string]
  /\ (forall x, p <> temp_folder output_path avi_file ++ frame_path x)
  /\ p <> output_path ++ [(stem avi_file ++ "_SBS_noaudio.mp4")%string]
  /\ p <> output_path ++ [(stem avi_file ++ "_SBS.mp4")%string].
Proof.
  intros Hp.
  assert (Hno : forall (a : path) (t : string),
            ends_with ".avi" (py_lower t) = false -> p <> a ++ [t]).
  { intros a t Ht ->. rewrite p_name_snoc in Hp. congruence. }
  split; [apply Hno; reflexivity|].
  split.
  - intros x. destruct (frame_name_not_avi x) as (a & t & -> & Ht).
    rewrite app_assoc. apply Hno, Ht.
  - split; apply Hno, not_avi_tail; (reflexivity || (simpl; lia)).
Qed.

Lemma avi_discover_named fs input_path p :
  p ∈ avi_discover fs input_path ->
  ends_with ".avi" (py_lower (p_name p)) = true.
Proof.
  unfold avi_discover.
  destruct (is_file fs input_path && String.eqb (py_lower (suffix input_path)) ".avi")
    eqn:Hsingle.
  - intros Hin. apply list_elem_of_singleton in Hin. subst p.
    apply andb_true_iff in Hsingle. destruct Hsingle as [_ He].
    apply String.eqb_eq in He. unfold suffix in He.
    rewrite <- name_suffix_lower in He.
    apply (name_suffix_ends _ _ He). discriminate.
  - destruct (is_dir fs input_path); [|intros Hin; inversion Hin].
    unfold glob_avi. intros Hin. apply list_elem_of_filter in Hin.
    destruct Hin as [Hends _]. apply ends_with_lower; [reflexivity|exact Hends].
Qed.

(** ** Failures inside a batch *)

Lemma extract_frames_total data tmp0 :
  exists r, extract_frames data tmp0 = Some r.
Proof.
  unfold extract_frames.
  destruct (f_read 12 (mkFile data 0)) as [riff_header f1] eqn:Hr.
  destruct (unpack_4sI4s riff_header) as [e|[[riff_id riff_size] riff_format]];
    [eauto|].
  destruct (_ || _); [eauto|].
  pose proof (f_read_pos 12 (mkFile data 0)) as Hp.
  pose proof (f_read_data 12 (mkFile data 0)) as Hd.
  rewrite Hr in Hp, Hd. simpl in Hp, Hd.
  destruct (top_loop_total (S (length data)) f1 (mkWalk 0 0 tmp0)) as [r Hrun].
  - lia.
  - rewrite Hd. lia.
  - rewrite Hrun. destruct r; eauto.
Qed.

Lemma unpack_4sI4s_length h x : unpack_4sI4s h = Ok x -> length h = 12%nat.
Proof.
  unfold unpack_4sI4s.
  destruct h as [|? [|? [|? [|? [|? [|? [|? [|? [|? [|? [|? [|? [|]]]]]]]]]]]]];
    try discriminate. reflexivity.
Qed.

(** A file shorter than the 12-byte header makes [struct.unpack] raise. *)
Lemma extract_frames_short data tmp0 :
  (length data < 12)%nat -> extract_frames data tmp0 = Some (Raise StructError).
Proof.
  intros Hlen. unfold extract_frames.
  destruct (f_read 12 (mkFile data 0)) as [riff_header f1] eqn:Hr.
  assert (Hh : riff_header = data).
  { unfold f_read in Hr. simpl in Hr. injection Hr as <- _.
    rewrite drop_0. apply take_ge. lia. }
  subst riff_header.
  destruct (unpack_4sI4s data) as [e|x] eqn:Hu.
  - unfold unpack_4sI4s in Hu.
    destruct data as [|? [|? [|? [|? [|? [|? [|? [|? [|? [|? [|? [|? [|]]]]]]]]]]]]];
      try (injection Hu as <-; reflexivity); discriminate.
  - apply unpack_4sI4s_length in Hu. lia.
Qed.

Section BatchAbort.

Variable decode : list byte -> option image.
Variable encode_jpeg : image -> option (list byte).
Variable ffprobe : list byte -> string.
Variable ffmpeg_audio : gmap path node -> path -> option (list byte).
Variable ffmpeg_video : framerate -> gmap path node -> path -> option (list byte).
Variable ffmpeg_mux : gmap path node -> path -> path -> option (list byte).

Lemma process_avi_total output_path fs p :
  exists r fs',
    process_avi decode encode_jpeg ffprobe ffmpeg_audio ffmpeg_video ffmpeg_mux
      output_path fs p = Some (r, fs').
Proof.
  unfold process_avi.
  destruct (fs !! p) as [[probed|]|]; [|eauto|eauto].
  destruct (parse_framerate (ffprobe probed)); [eauto|].
  destruct (write_file _ _ _ !! p) as [[data|]|]; [|eauto|eauto].
  destruct (extract_frames_total data ∅) as [r ->].
  destruct r as [e|[|st]]; [eauto|eauto|].
  destruct (frames_blocked _ _ _); [eauto|].
  destruct (pair_frames decode encode_jpeg _ st) as [e|[l r|n folder]]; [eauto|eauto|].
  destruct (rmtree _ _ !! _) as [[c|]|]; eauto.
Qed.

Lemma process_avi_no_header output_path fs p :
  ends_with ".avi" (py_lower (p_name p)) = true ->
  no_header_at fs p ->
  exists e fs',
    process_avi decode encode_jpeg ffprobe ffmpeg_audio ffmpeg_video ffmpeg_mux
      output_path fs p = Some (Raise e, fs').
Proof.
  intros Hname Hno. unfold process_avi.
  destruct (fs !! p) as [[probed|]|] eqn:Hp; [|eauto|eauto].
  destruct (parse_framerate (ffprobe probed)); [eauto|].
  destruct (avi_name_not_written output_path p p Hname) as (Haudio & _).
  rewrite write_file_lookup_ne, Hp by exact Haudio.
  rewrite extract_frames_short by (apply Hno; exact Hp). eauto.
Qed.

Lemma no_new_at_refl fs q : no_new_at fs fs q.
Proof. intros v H. exact H. Qed.

Lemma no_new_at_trans fs1 fs2 fs3 q :
  no_new_at fs1 fs2 q -> no_new_at fs2 fs3 q -> no_new_at fs1 fs3 q.
Proof. intros H12 H23 v H. apply H12, H23, H. Qed.

Lemma no_new_at_write_file fs p out q : q <> p -> no_new_at fs (write_file fs p out) q.
Proof. intros Hne v H. rewrite write_file_lookup_ne in H by exact Hne. exact H. Qed.

Lemma no_new_at_write_folder fs temp folder q :
  (forall x, q <> temp ++ frame_path x) ->
  no_new_at fs (write_folder temp folder fs) q.
Proof. intros Hne v H. rewrite write_folder_lookup_other in H by exact Hne. exact H. Qed.

Lemma no_new_at_rmtree fs p q : no_new_at fs (rmtree fs p) q.
Proof.
  intros v H. unfold rmtree in H. apply map_lookup_filter_Some in H. apply H.
Qed.

Lemma no_new_at_delete (fs : gmap path node) p q : no_new_at fs (delete p fs) q.
Proof. intros v H. apply lookup_delete_Some in H. apply H. Qed.

(** Processing a file puts nothing at a path that is none of the paths
    it writes to. *)
Lemma process_avi_no_new output_path fs f r fs' q :
  process_avi decode encode_jpeg ffprobe ffmpeg_audio ffmpeg_video ffmpeg_mux
    output_path fs f = Some (r, fs') ->
  q <> temp_folder output_path f ++ ["audio.m4a"%string] ->
  (forall x, q <> temp_folder output_path f ++ frame_path x) ->
  q <> output_path ++ [(stem f ++ "_SBS_noaudio.mp4")%string] ->
  q <> output_path ++ [(stem f ++ "_SBS.mp4")%string] ->
  no_new_at fs fs' q.
Proof.
  intros H Haudio Hframes Hvideo Hfinal. unfold process_avi in H.
  destruct (fs !! f) as [[probed|]|];
    [|injection H as _ <-; apply no_new_at_refl
     |injection H as _ <-; apply no_new_at_refl].
  destruct (parse_framerate (ffprobe probed)) as [e|rate];
    [injection H as _ <-; apply no_new_at_refl|].
  pose proof (no_new_at_write_file fs _ (ffmpeg_audio fs f) q Haudio) as Ha.
  set (fs_audio := write_file fs _ _) in *.
  destruct (fs_audio !! f) as [[data|]|];
    [|injection H as _ <-; exact Ha|injection H as _ <-; exact Ha].
  destruct (extract_frames data ∅) as [[e|[|st]]|]; [| | |discriminate];
    [injection H as _ <-; exact Ha|injection H as _ <-; exact Ha|].
  destruct (frames_blocked _ _ _); [injection H as _ <-; exact Ha|].
  destruct (pair_frames decode encode_jpeg _ st) as [e|[l r0|n folder]].
  - injection H as _ <-.
    eapply no_new_at_trans; [exact Ha|apply no_new_at_write_folder, Hframes].
  - injection H as _ <-.
    eapply no_new_at_trans; [exact Ha|apply no_new_at_write_folder, Hframes].
  - assert (Hclean : no_new_at fs
              (rmtree
                 (write_file
                    (write_file (write_folder (temp_folder output_path f) folder fs_audio)
                       (output_path ++ [(stem f ++ "_SBS_noaudio.mp4")%string])
                       (ffmpeg_video rate
                          (write_folder (temp_folder output_path f) folder fs_audio)
                          (combined_folder output_path f)))
                    (output_path ++ [(stem f ++ "_SBS.mp4")%string])
                    (ffmpeg_mux
                       (write_file (write_folder (temp_folder output_path f) folder fs_audio)
                          (output_path ++ [(stem f ++ "_SBS_noaudio.mp4")%string])
                          (ffmpeg_video rate
                             (write_folder (temp_folder output_path f) folder fs_audio)
                             (combined_folder output_path f)))
                       (output_path ++ [(stem f ++ "_SBS_noaudio.mp4")%string])
                       (temp_folder output_path f ++ ["audio.m4a"%string])))
                 (temp_folder output_path f)) q).
    { eapply no_new_at_trans; [|apply no_new_at_rmtree].
      eapply no_new_at_trans; [|apply no_new_at_write_file, Hfinal].
      eapply no_new_at_trans; [|apply no_new_at_write_file, Hvideo].
      eapply no_new_at_trans; [exact Ha|apply no_new_at_write_folder, Hframes]. }
    destruct (rmtree _ _ !! _) as [[c|]|]; injection H as _ <-;
      [eapply no_new_at_trans; [exact Hclean|apply no_new_at_delete]
      |exact Hclean|exact Hclean].
Qed.

Lemma no_header_no_new fs fs' p :
  no_header_at fs p -> no_new_at fs fs' p -> no_header_at fs' p.
Proof. intros Hno Hnew d Hd. apply Hno, Hnew, Hd. Qed.

Lemma no_header_mkdir fs p q fs1 :
  no_header_at fs p -> mkdir_parents fs q = Ok fs1 -> no_header_at fs1 p.
Proof.
  intros Hno Hmk d Hd. rewrite (mkdir_parents_spec _ _ _ Hmk) in Hd.
  destruct (fs !! p) as [n|] eqn:Hp.
  - injection Hd as ->. apply Hno. exact Hp.
  - destruct (on_way q p); discriminate.
Qed.

(** A batch that holds a file too short for the RIFF header never gets
    to report its lines: the loop ends in an exception. *)
Lemma avi_loop_aborts : forall avi_files fs output_path results p,
  p ∈ avi_files ->
  ends_with ".avi" (py_lower (p_name p)) = true ->
  no_header_at fs p ->
  exists e fs',
    avi_loop decode encode_jpeg ffprobe ffmpeg_audio ffmpeg_video ffmpeg_mux
      fs output_path avi_files results
    = Some (Raise e, fs').
Proof.
  induction avi_files as [|f rest IH]; intros fs output_path results p Hin Hname Hno.
  - inversion Hin.
  - cbn [avi_loop].
    destruct (mkdir_parents fs (combined_folder output_path f)) as [e|fs1] eqn:Hmk;
      [eauto|].
    pose proof (no_header_mkdir _ _ _ _ Hno Hmk) as Hno1.
    apply elem_of_cons in Hin. destruct Hin as [->|Hin].
    + destruct (process_avi_no_header output_path fs1 f Hname Hno1) as (e & fs2 & ->).
      eauto.
    + destruct (process_avi_total output_path fs1 f) as ([e|line] & fs2 & Hrun);
        rewrite Hrun; [eauto|].
      apply (IH _ _ _ p Hin Hname).
      destruct (avi_name_not_written output_path f p Hname) as (H1 & H2 & H3 & H4).
      apply (no_header_no_new fs1); [exact Hno1|].
      apply (process_avi_no_new _ _ _ _ _ _ Hrun H1 H2 H3 H4).
Qed.

(** Without an exception the report has one line per file. *)
Lemma avi_loop_one_line_each : forall avi_files fs output_path results lines fs',
  avi_loop decode encode_jpeg ffprobe ffmpeg_audio ffmpeg_video ffmpeg_mux
    fs output_path avi_files results
    = Some (Ok lines, fs') ->
  length lines = (length results + length avi_files)%nat.
Proof.
  induction avi_files as [|f rest IH]; intros fs output_path results lines fs' H.
  - cbn [avi_loop] in H. injection H as <- _. simpl. lia.
  - cbn [avi_loop] in H.
    destruct (mkdir_parents fs (combined_folder output_path f)) as [e|fs1];
      [discriminate|].
    destruct (process_avi decode encode_jpeg ffprobe ffmpeg_audio ffmpeg_video ffmpeg_mux
                output_path fs1 f) as [[[e|line] fs2]|];
      [discriminate| |discriminate].
    apply IH in H. rewrite length_app in H. simpl in *. lia.
Qed.

End BatchAbort.

Section BatchReports.

Variable decode : list byte -> option image.
Variable encode_jpeg : image -> option (list byte).
Variable ffprobe : list byte -> string.
Variable ffmpeg_audio : gmap path node -> path -> option (list byte).
Variable ffmpeg_video : framerate -> gmap path node -> path -> option (list byte).
Variable ffmpeg_mux : gmap path node -> path -> path -> option (list byte).

(** C8 on the AVI driver: a file too short for the 12-byte RIFF header is
    not reported as one failed item.  [struct.unpack] raises, the outer
    [except] catches it, and the whole call returns the one error: no
    line for any file, the files after it never processed. *)
Theorem short_file_aborts_the_batch
    (fs fs1 : gmap path node) (input_path output_path p : path) :
  (if negb (p_exists fs output_path)
   then mkdir_parents fs output_path else Ok fs) = Ok fs1 ->
  p ∈ avi_discover fs1 input_path ->
  no_header_at fs1 p ->
  exists e fs',
    extract_and_create_sbs_with_audio decode encode_jpeg ffprobe ffmpeg_audio ffmpeg_video ffmpeg_mux
      fs input_path output_path
    = Some (ReportError e, fs').
Proof.
  intros Hmk Hin Hno. unfold extract_and_create_sbs_with_audio.
  rewrite Hmk. unfold Ok at 1.
  destruct (avi_loop_aborts decode encode_jpeg ffprobe ffmpeg_audio ffmpeg_video ffmpeg_mux
              (avi_discover fs1 input_path) fs1 output_path [] p Hin
              (avi_discover_named _ _ _ Hin) Hno)
    as (e & fs' & Hloop).
  rewrite Hloop.
  destruct (avi_discover fs1 input_path); [inversion Hin|]. eauto.
Qed.

End BatchReports.

(** Three files, the second empty: the AVI driver returns one error and no
    line at all; one good file alone is converted. *)
Lemma short_file_aborts_the_batch_witness :
  exists e fs',
    extract_and_create_sbs_with_audio demo_decode (fun _ => Some [])
      (fun _ => "30/1"%string) (fun _ _ => None) (fun _ _ _ => None) (fun _ _ _ => None)
      demo_batch ["clips"]%string ["out"]%string
    = Some (ReportError e, fs').
Proof.
  apply (short_file_aborts_the_batch demo_decode (fun _ => Some [])
           (fun _ => "30/1"%string) (fun _ _ => None) (fun _ _ _ => None) (fun _ _ _ => None)
           demo_batch demo_batch ["clips"]%string ["out"]%string
           ["clips"; "b.avi"]%string).
  - reflexivity.
  - vm_compute. repeat first [left; reflexivity | right].
  - intros d Hd. vm_compute in Hd. injection Hd as <-. simpl. lia.
Defined.

Example empty_file_among_three_aborts :
  option_map fst
    (extract_and_create_sbs_with_audio demo_decode (fun _ => Some [])
       (fun _ => "30/1"%string) (fun _ _ => None) (fun _ _ _ => None) (fun _ _ _ => None)
       demo_batch ["clips"]%string ["out"]%string)
  = Some (ReportError StructError).
Proof. vm_compute. reflexivity. Qed.

Example good_file_alone_is_converted :
  exists rate,
    option_map fst
      (extract_and_create_sbs_with_audio demo_decode (fun _ => Some [])
         (fun _ => "30/1"%string) (fun _ _ => None) (fun _ _ _ => None) (fun _ _ _ => None)
         demo_batch ["clips"; "a.avi"]%string ["out"]%string)
    = Some (ReportLines [Converted "a.avi" rate 1]).
Proof. eexists. vm_compute. reflexivity. Qed.

(** *** The still-image driver keeps failures to their item *)

Lemma parse_mpo_total buf : exists r, parse_mpo_for_second_image buf = Some r.
Proof.
  unfold parse_mpo_for_second_image, nth_offset. rewrite scan_total.
  destruct (decide _) as [Hlt|Hge]; [eauto|].
  destruct (occ 0 buf !! 1%nat) as [start|] eqn:H1.
  - destruct (decide _) as [H3|H3]; [|eauto].
    destruct (occ 0 buf !! 2%nat) as [third|] eqn:H2; [eauto|].
    apply lookup_ge_None in H2. lia.
  - apply lookup_ge_None in H1. lia.
Qed.

Section StillBatch.

Variable decode : list byte -> option image.
Variable resize : image -> Z -> Z -> result image.
Variable exif_transpose : image -> image.
Variable save_jpeg : image -> option (list byte).
Variable completion : list path -> list path.

Lemma process_one_total outdir exif target fs p :
  exists line fs',
    process_one decode resize exif_transpose save_jpeg outdir exif target fs p
    = Some (line, fs')
    /\ mpo_line_name line = p_name p.
Proof.
  unfold process_one, read_two_frames_unreal_way.
  destruct (fs !! p) as [[mv|]|]; [|eauto|eauto].
  destruct (bool_decide (mv = [])); [eauto|].
  destruct (decode_jpeg_slice decode mv) as [e|left_img]; [eauto|].
  destruct (parse_mpo_total mv) as [[[]|[off cnt]] ->]; [eauto|].
  destruct (decode_jpeg_slice decode _) as [e|right_img]; [eauto|].
  assert (Hsave : forall l r : image,
    exists line fs',
      match make_sbs resize l r target with
      | inl e => Some (FailLine (p_name p) e, fs)
      | inr sbs =>
          match fs !! (outdir ++ [(stem p ++ "_sbs.jpg")%string]) with
          | Some DirNode => Some (FailLine (p_name p) IsADirectoryError, fs)
          | _ =>
              match save_jpeg sbs with
              | None => Some (FailLine (p_name p) EncodeError, fs)
              | Some jpg =>
                  Some (OkLine (p_name p) (stem p ++ "_sbs.jpg")%string,
                        <[outdir ++ [(stem p ++ "_sbs.jpg")%string]
                          := FileNode jpg]> fs)
              end
          end
      end = Some (line, fs') /\ mpo_line_name line = p_name p).
  { intros l r. destruct (make_sbs resize l r target) as [e|sbs]; [eauto|].
    destruct (fs !! (outdir ++ _)) as [[|]|]; [|eauto|];
      destruct (save_jpeg sbs); eauto. }
  destruct exif; apply Hsave.
Qed.

Lemma process_one_empty_file outdir exif target fs p :
  fs !! p = Some (FileNode []) ->
  process_one decode resize exif_transpose save_jpeg outdir exif target fs p
  = Some (FailLine (p_name p) ValueError, fs).
Proof.
  intros Hp. unfold process_one, read_two_frames_unreal_way. rewrite Hp.
  reflexivity.
Qed.


End StillBatch.

Example empty_still_among_three_is_one_failure :
  option_map fst
    (mpo_to_sbs demo_decode nearest_resize (fun im => im) (fun _ => Some []) (fun l => l)
       demo_stills ["shots"]%string ["out"]%string false false None 1)
  = Some (Ok (Logs [OkLine "c.mpo" "c_sbs.jpg";
                    FailLine "b.mpo" ValueError;
                    OkLine "a.mpo" "a_sbs.jpg"])).
Proof. vm_compute. reflexivity. Qed.
(** ** The walk over arbitrary bytes *)

Lemma unpack_4sI_eight h :
  length h = 8%nat ->
  exists t s, unpack_4sI h = Ok (t, s) /\ length t = 4%nat /\ 0 <= s < 2 ^ 32.
Proof.
  intros Hlen.
  destruct h as [|t0 [|t1 [|t2 [|t3 [|s0 [|s1 [|s2 [|s3 [|]]]]]]]]]; try discriminate.
  exists [t0; t1; t2; t3], (le_u32 s0 s1 s2 s3).
  split; [reflexivity|]. split; [reflexivity|].
  pose proof (byte_val_range s0). pose proof (byte_val_range s1).
  pose proof (byte_val_range s2). pose proof (byte_val_range s3).
  unfold le_u32. lia.
Qed.

Lemma header_guard_eight n f header f1 :
  f_read 8 f = (header, f1) ->
  bool_decide (header = []) || bool_decide (Z.of_nat (length header) < n) = false ->
  8 <= n -> length header = 8%nat.
Proof.
  intros Hr Hg Hn.
  apply orb_false_iff in Hg. destruct Hg as [_ Hg].
  apply bool_decide_eq_false in Hg.
  pose proof (f_read_length 8 f ltac:(lia)) as Hle. rewrite Hr in Hle. simpl in Hle.
  lia.
Qed.

Lemma movi_body_never_raises f st e : movi_body f st <> Raised e.
Proof.
  unfold movi_body.
  destruct (f_read 8 f) as [header f1] eqn:Hr.
  destruct (_ || _) eqn:Hg; [discriminate|].
  destruct (unpack_4sI_eight header (header_guard_eight 8 f header f1 Hr Hg ltac:(lia)))
    as (t & s & -> & _).
  unfold Ok. cbv beta iota.
  destruct (f_read s f1). discriminate.
Qed.

Lemma top_body_never_raises f e : top_body f <> TopRaised e.
Proof.
  unfold top_body.
  destruct (f_read 8 f) as [header f1] eqn:Hr.
  destruct (_ || _) eqn:Hg; [discriminate|].
  destruct (unpack_4sI_eight header (header_guard_eight 8 f header f1 Hr Hg ltac:(lia)))
    as (t & s & -> & _).
  unfold Ok. cbv beta iota.
  destruct (String.eqb _ _); [|discriminate].
  destruct (f_read 4 f1). destruct (String.eqb _ _); discriminate.
Qed.

Lemma movi_loop_never_raises : forall fuel f movi_end st e,
  movi_loop fuel f movi_end st <> Some (Raise e).
Proof.
  induction fuel as [|fuel IH]; intros f movi_end st e; [discriminate|].
  rewrite movi_loop_S. destruct (_ <? _); [|discriminate].
  destruct (movi_body f st) as [[f' st']| |e'] eqn:Hb.
  - apply IH.
  - discriminate.
  - exfalso. exact (movi_body_never_raises _ _ _ Hb).
Qed.

Lemma top_loop_never_raises : forall fuel f st e,
  top_loop fuel f st <> Some (Raise e).
Proof.
  induction fuel as [|fuel IH]; intros f st e; [discriminate|].
  rewrite top_loop_S.
  destruct (top_body f) as [f'|f' movi_end| |e'] eqn:Hb.
  - apply IH.
  - apply movi_loop_never_raises.
  - discriminate.
  - exfalso. exact (top_body_never_raises _ _ Hb).
Qed.

Lemma f_read_whole n data :
  (Z.to_nat n <= length data)%nat ->
  f_read n (mkFile data 0)
  = (take (Z.to_nat n) data, mkFile data (Z.of_nat (Z.to_nat n))).
Proof.
  intros Hn. unfold f_read. simpl. rewrite drop_0, length_take.
  replace (Z.to_nat n `min` length data)%nat with (Z.to_nat n) by lia.
  reflexivity.
Qed.

Lemma twelve_bytes (l : list byte) :
  length l = 12%nat ->
  exists t0 t1 t2 t3 s0 s1 s2 s3 u0 u1 u2 u3,
    l = [t0; t1; t2; t3; s0; s1; s2; s3; u0; u1; u2; u3].
Proof.
  intros Hlen.
  destruct l as [|t0 [|t1 [|t2 [|t3 [|s0 [|s1 [|s2 [|s3 [|u0 [|u1 [|u2 [|u3 [|]]]]]]]]]]]]];
    try discriminate.
  repeat eexists.
Qed.

Lemma extract_frames_header data tmp0 :
  (12 <= length data)%nat ->
  extract_frames data tmp0 =
  if bool_decide (take 4 data ≠ bytes_lit "RIFF")
     || bool_decide (take 4 (drop 8 data) ≠ bytes_lit "AVI ")
  then Some (Ok NotValidAvi)
  else match top_loop (S (length data)) (mkFile data 12) (mkWalk 0 0 tmp0) with
       | None => None
       | Some (inl e) => Some (Raise e)
       | Some (inr st) => Some (Ok (Walked st))
       end.
Proof.
  intros Hlen. unfold extract_frames.
  rewrite (f_read_whole 12 data) by (simpl; lia).
  change (Z.of_nat (Z.to_nat 12)) with 12. change (Z.to_nat 12) with 12%nat.
  destruct (twelve_bytes (take 12 data))
    as (t0 & t1 & t2 & t3 & s0 & s1 & s2 & s3 & u0 & u1 & u2 & u3 & Ht).
  { rewrite length_take. lia. }
  assert (H4 : take 4 data = [t0; t1; t2; t3]).
  { change 4%nat with (4 `min` 12)%nat. rewrite <- take_take, Ht. reflexivity. }
  assert (H8 : take 4 (drop 8 data) = [u0; u1; u2; u3]).
  { rewrite take_drop_commute. change (8 + 4)%nat with 12%nat.
    rewrite Ht. reflexivity. }
  rewrite Ht, H4, H8. reflexivity.
Qed.

(** X2.  Whatever the bytes of the file, the chunk walk ends, and past the
    12-byte header it raises nothing: a file shorter than the header makes
    [struct.unpack] raise, any other file is either not an AVI or walked
    to the end, every short read ending a loop. *)
Theorem walk_returns_on_any_bytes (data : list byte)
    (tmp0 : gmap frame_file (list byte)) :
  ((length data < 12)%nat -> extract_frames data tmp0 = Some (Raise StructError))
  /\ ((12 <= length data)%nat ->
      exists x, extract_frames data tmp0 = Some (Ok x)).
Proof.
  split; [apply extract_frames_short|].
  intros Hlen. rewrite (extract_frames_header data tmp0 Hlen).
  destruct (_ || _); [eauto|].
  destruct (top_loop_total (S (length data)) (mkFile data 12) (mkWalk 0 0 tmp0))
    as [r Hrun]; [simpl; lia|simpl; lia|].
  rewrite Hrun. destruct r as [e|st]; [|eauto].
  exfalso. exact (top_loop_never_raises _ _ _ _ Hrun).
Qed.

(** *** What lies before the read position is never looked at again *)

Lemma f_read_same_from (k : nat) n f1 f2 :
  f_pos f1 = f_pos f2 -> Z.of_nat k <= f_pos f1 ->
  drop k (f_data f1) = drop k (f_data f2) ->
  (f_read n f1).1 = (f_read n f2).1
  /\ f_pos (f_read n f1).2 = f_pos (f_read n f2).2
  /\ f_pos f1 <= f_pos (f_read n f1).2
  /\ f_data (f_read n f1).2 = f_data f1
  /\ f_data (f_read n f2).2 = f_data f2.
Proof.
  intros Hp Hk Hd. unfold f_read. simpl.
  assert (He : drop (Z.to_nat (f_pos f1)) (f_data f1)
               = drop (Z.to_nat (f_pos f2)) (f_data f2)).
  { rewrite <- Hp.
    replace (Z.to_nat (f_pos f1)) with (k + (Z.to_nat (f_pos f1) - k))%nat by lia.
    rewrite <- !drop_drop, Hd. reflexivity. }
  rewrite He, Hp. repeat split; lia.
Qed.

Lemma movi_body_same_from (k : nat) f1 f2 st :
  f_pos f1 = f_pos f2 -> Z.of_nat k <= f_pos f1 ->
  drop k (f_data f1) = drop k (f_data f2) ->
  match movi_body f1 st, movi_body f2 st with
  | Continue (f1', st1), Continue (f2', st2) =>
      st1 = st2 /\ f_pos f1' = f_pos f2' /\ Z.of_nat k <= f_pos f1'
      /\ drop k (f_data f1') = drop k (f_data f2')
  | Break, Break => True
  | _, _ => False
  end.
Proof.
  intros Hp Hk Hd. unfold movi_body.
  destruct (f_read_same_from k 8 f1 f2 Hp Hk Hd) as (Hg & Hp1 & Hle1 & Hd1 & Hd1').
  destruct (f_read 8 f1) as [h1 g1] eqn:Hr1.
  destruct (f_read 8 f2) as [h2 g2] eqn:Hr2.
  cbn [fst snd] in Hg, Hp1, Hle1, Hd1, Hd1'. subst h2.
  destruct (_ || _) eqn:Hguard; [exact I|].
  destruct (unpack_4sI_eight h1 (header_guard_eight 8 f1 h1 g1 Hr1 Hguard ltac:(lia)))
    as (t & s & -> & _ & Hs).
  unfold Ok. cbv beta iota.
  assert (Hd2 : drop k (f_data g1) = drop k (f_data g2)) by (rewrite Hd1, Hd1'; exact Hd).
  destruct (f_read_same_from k s g1 g2 Hp1 ltac:(lia) Hd2)
    as (Hg' & Hp2 & Hle2 & Hd3 & Hd3').
  destruct (f_read s g1) as [d1 g1'] eqn:Hr3.
  destruct (f_read s g2) as [d2 g2'] eqn:Hr4.
  cbn [fst snd] in Hg', Hp2, Hle2, Hd3, Hd3'. subst d2.
  cbv beta iota zeta.
  split; [reflexivity|].
  destruct (s mod 2 =? 1); unfold f_seek_cur; simpl;
    rewrite ?Hd3, ?Hd3', ?Hd1, ?Hd1'; repeat split; try lia; exact Hd.
Qed.

Lemma movi_loop_same_from (k : nat) : forall fuel f1 f2 movi_end st,
  f_pos f1 = f_pos f2 -> Z.of_nat k <= f_pos f1 ->
  drop k (f_data f1) = drop k (f_data f2) ->
  movi_loop fuel f1 movi_end st = movi_loop fuel f2 movi_end st.
Proof.
  induction fuel as [|fuel IH]; intros f1 f2 movi_end st Hp Hk Hd; [reflexivity|].
  rewrite !movi_loop_S. unfold f_tell. rewrite <- Hp.
  destruct (_ <? _); [|reflexivity].
  pose proof (movi_body_same_from k f1 f2 st Hp Hk Hd) as Hb.
  destruct (movi_body f1 st) as [[f1' st1]| |e1];
    destruct (movi_body f2 st) as [[f2' st2]| |e2]; try contradiction.
  - destruct Hb as (-> & Hp' & Hk' & Hd'). apply IH; assumption.
  - reflexivity.
Qed.

Lemma top_body_same_from (k : nat) f1 f2 :
  f_pos f1 = f_pos f2 -> Z.of_nat k <= f_pos f1 ->
  drop k (f_data f1) = drop k (f_data f2) ->
  match top_body f1, top_body f2 with
  | TopNext f1', TopNext f2' =>
      f_pos f1' = f_pos f2' /\ Z.of_nat k <= f_pos f1'
      /\ drop k (f_data f1') = drop k (f_data f2')
  | TopMovi f1' e1, TopMovi f2' e2 =>
      e1 = e2 /\ f_pos f1' = f_pos f2' /\ Z.of_nat k <= f_pos f1'
      /\ drop k (f_data f1') = drop k (f_data f2')
  | TopBreak, TopBreak => True
  | _, _ => False
  end.
Proof.
  intros Hp Hk Hd. unfold top_body, f_tell.
  destruct (f_read_same_from k 8 f1 f2 Hp Hk Hd) as (Hg & Hp1 & Hle1 & Hd1 & Hd1').
  destruct (f_read 8 f1) as [h1 g1] eqn:Hr1.
  destruct (f_read 8 f2) as [h2 g2] eqn:Hr2.
  cbn [fst snd] in Hg, Hp1, Hle1, Hd1, Hd1'. subst h2.
  destruct (_ || _) eqn:Hguard; [exact I|].
  destruct (unpack_4sI_eight h1 (header_guard_eight 8 f1 h1 g1 Hr1 Hguard ltac:(lia)))
    as (t & s & -> & _ & Hs).
  unfold Ok. cbv beta iota.
  assert (Hd2 : drop k (f_data g1) = drop k (f_data g2)) by (rewrite Hd1, Hd1'; exact Hd).
  destruct (String.eqb _ "LIST").
  - destruct (f_read_same_from k 4 g1 g2 Hp1 ltac:(lia) Hd2)
      as (Hg' & Hp2 & Hle2 & Hd3 & Hd3').
    destruct (f_read 4 g1) as [d1 g1'] eqn:Hr3.
    destruct (f_read 4 g2) as [d2 g2'] eqn:Hr4.
  cbn [fst snd] in Hg', Hp2, Hle2, Hd3, Hd3'. subst d2.
    destruct (String.eqb _ "movi"); rewrite ?Hd3, ?Hd3', ?Hd1, ?Hd1';
      repeat split; try lia; exact Hd.
  - unfold f_seek_cur. simpl.
    pose proof (Z.mod_pos_bound s 2 ltac:(lia)).
    repeat split; try lia. exact Hd2.
Qed.

Lemma top_loop_same_from (k : nat) : forall fuel f1 f2 st,
  f_pos f1 = f_pos f2 -> Z.of_nat k <= f_pos f1 ->
  drop k (f_data f1) = drop k (f_data f2) ->
  top_loop fuel f1 st = top_loop fuel f2 st.
Proof.
  induction fuel as [|fuel IH]; intros f1 f2 st Hp Hk Hd; [reflexivity|].
  rewrite !top_loop_S.
  pose proof (top_body_same_from k f1 f2 Hp Hk Hd) as Hb.
  destruct (top_body f1) as [f1'|f1' e1| |e1];
    destruct (top_body f2) as [f2'|f2' e2| |e2]; try contradiction.
  - destruct Hb as (Hp' & Hk' & Hd'). apply IH; assumption.
  - destruct Hb as (-> & Hp' & Hk' & Hd'). apply (movi_loop_same_from k); assumption.
  - reflexivity.
Qed.

(** X3.  A file of at least 12 bytes is taken for an AVI exactly when its
    first four bytes are RIFF and bytes 8 to 11 are [AVI ]; the size field
    between them is never looked at: any four bytes in its place give the
    same result. *)
Theorem header_check_reads_two_tags_only (data : list byte)
    (tmp0 : gmap frame_file (list byte)) :
  (12 <= length data)%nat ->
  (extract_frames data tmp0 = Some (Ok NotValidAvi)
   <-> take 4 data <> bytes_lit "RIFF" \/ take 4 (drop 8 data) <> bytes_lit "AVI ")
  /\ (forall size : list byte, length size = 4%nat ->
        extract_frames (take 4 data ++ size ++ drop 8 data) tmp0
        = extract_frames data tmp0).
Proof.
  intros Hlen. split.
  - rewrite (extract_frames_header data tmp0 Hlen). split.
    + intros H.
      destruct (decide (take 4 data = bytes_lit "RIFF")) as [E1|N1]; [|left; exact N1].
      destruct (decide (take 4 (drop 8 data) = bytes_lit "AVI ")) as [E2|N2];
        [|right; exact N2].
      rewrite (bool_decide_eq_false_2 _ (fun n => n E1)),
              (bool_decide_eq_false_2 _ (fun n => n E2)) in H.
      cbn [orb] in H.
      destruct (top_loop _ _ _) as [[e|st]|]; discriminate.
    + intros [N1|N2].
      * rewrite (bool_decide_eq_true_2 _ N1). reflexivity.
      * rewrite (bool_decide_eq_true_2 _ N2), orb_true_r. reflexivity.
  - intros size Hsize.
    set (data' := take 4 data ++ size ++ drop 8 data).
    assert (Hl4 : length (take 4 data) = 4%nat) by (rewrite length_take; lia).
    assert (Hlen' : length data' = length data).
    { unfold data'. rewrite !length_app, length_drop, Hl4, Hsize. lia. }
    assert (Hd8 : drop 8 data' = drop 8 data).
    { unfold data'. rewrite app_assoc.
      apply drop_app_length'. rewrite length_app, Hl4, Hsize. reflexivity. }
    assert (Ht4 : take 4 data' = take 4 data).
    { unfold data'. apply take_app_length'. symmetry. exact Hl4. }
    rewrite (extract_frames_header data' tmp0) by lia.
    rewrite (extract_frames_header data tmp0 Hlen).
    rewrite Ht4, Hd8, Hlen'.
    rewrite (top_loop_same_from 8 _ (mkFile data' 12) (mkFile data 12));
      [reflexivity|reflexivity|simpl; lia|exact Hd8].
Qed.

Lemma header_check_reads_two_tags_only_witness :
  extract_frames (take 4 (encode_avi demo_avi) ++ [xff; xff; xff; xff]%byte
                  ++ drop 8 (encode_avi demo_avi)) ∅
  = extract_frames (encode_avi demo_avi) ∅.
Proof.
  apply (header_check_reads_two_tags_only (encode_avi demo_avi) ∅);
    [vm_compute; lia|reflexivity].
Defined.

(** *** What the walk leaves in the temporary folder *)

Lemma folder_inv_start tmp0 : folder_inv tmp0 (mkWalk 0 0 tmp0).
Proof. repeat split; simpl; intros; try lia; reflexivity. Qed.

Lemma folder_inv_left tmp0 st data :
  folder_inv tmp0 st ->
  folder_inv tmp0 (mkWalk (S (left_count st)) (right_count st)
                          (<[LeftJpg (left_count st) := data]> (tmp st))).
Proof.
  intros (Hl & Hr & Hl' & Hr' & Hs). unfold folder_inv. simpl.
  split; [|split; [|split; [|split]]].
  - intros i Hi. destruct (decide (i = left_count st)) as [->|Hne].
    + rewrite lookup_insert_eq. eauto.
    + rewrite lookup_insert_ne by congruence. apply Hl. lia.
  - intros i Hi. rewrite lookup_insert_ne by discriminate. apply Hr, Hi.
  - intros i Hi. rewrite lookup_insert_ne by (intros [= E]; lia). apply Hl'. lia.
  - intros i Hi. rewrite lookup_insert_ne by discriminate. apply Hr', Hi.
  - intros i. rewrite lookup_insert_ne by discriminate. apply Hs.
Qed.

Lemma folder_inv_right tmp0 st data :
  folder_inv tmp0 st ->
  folder_inv tmp0 (mkWalk (left_count st) (S (right_count st))
                          (<[RightJpg (right_count st) := data]> (tmp st))).
Proof.
  intros (Hl & Hr & Hl' & Hr' & Hs). unfold folder_inv. simpl.
  split; [|split; [|split; [|split]]].
  - intros i Hi. rewrite lookup_insert_ne by discriminate. apply Hl, Hi.
  - intros i Hi. destruct (decide (i = right_count st)) as [->|Hne].
    + rewrite lookup_insert_eq. eauto.
    + rewrite lookup_insert_ne by congruence. apply Hr. lia.
  - intros i Hi. rewrite lookup_insert_ne by discriminate. apply Hl', Hi.
  - intros i Hi. rewrite lookup_insert_ne by (intros [= E]; lia). apply Hr'. lia.
  - intros i. rewrite lookup_insert_ne by discriminate. apply Hs.
Qed.

Lemma movi_body_folder_inv tmp0 f st f' st' :
  folder_inv tmp0 st -> movi_body f st = Continue (f', st') -> folder_inv tmp0 st'.
Proof.
  intros Hinv. unfold movi_body.
  destruct (f_read 8 f) as [header f1].
  destruct (_ || _); [discriminate|].
  destruct (unpack_4sI header) as [e|[t s]]; [discriminate|].
  destruct (f_read s f1) as [frame_data f2].
  intros [= _ <-].
  destruct (String.eqb _ "00dc"); [apply folder_inv_left, Hinv|].
  destruct (String.eqb _ "02dc"); [apply folder_inv_right, Hinv|exact Hinv].
Qed.

Lemma movi_loop_folder_inv tmp0 : forall fuel f movi_end st st',
  folder_inv tmp0 st -> movi_loop fuel f movi_end st = Some (Ok st') ->
  folder_inv tmp0 st'.
Proof.
  induction fuel as [|fuel IH]; intros f movi_end st st' Hinv; [discriminate|].
  rewrite movi_loop_S. destruct (_ <? _); [|intros [= <-]; exact Hinv].
  destruct (movi_body f st) as [[f1 st1]| |e] eqn:Hb.
  - apply IH. eapply movi_body_folder_inv; eassumption.
  - intros [= <-]. exact Hinv.
  - discriminate.
Qed.

Lemma top_loop_folder_inv tmp0 : forall fuel f st st',
  folder_inv tmp0 st -> top_loop fuel f st = Some (Ok st') -> folder_inv tmp0 st'.
Proof.
  induction fuel as [|fuel IH]; intros f st st' Hinv; [discriminate|].
  rewrite top_loop_S.
  destruct (top_body f) as [f1|f1 movi_end| |e].
  - apply IH, Hinv.
  - apply movi_loop_folder_inv, Hinv.
  - intros [= <-]. exact Hinv.
  - discriminate.
Qed.

Lemma extract_frames_folder_inv data tmp0 st :
  extract_frames data tmp0 = Some (Ok (Walked st)) -> folder_inv tmp0 st.
Proof.
  unfold extract_frames.
  destruct (f_read 12 (mkFile data 0)) as [riff_header f1].
  destruct (unpack_4sI4s riff_header) as [e|[[riff_id riff_size] riff_format]];
    [discriminate|].
  destruct (_ || _); [discriminate|].
  destruct (top_loop _ f1 _) as [[e|st1]|] eqn:Hrun; try discriminate.
  intros [= <-]. eapply top_loop_folder_inv; [apply folder_inv_start|exact Hrun].
Qed.

Section MergeAfterWalk.

Variable decode : list byte -> option image.
Variable encode_jpeg : image -> option (list byte).
Variable blocked : nat -> bool.

Lemma merge_frames_finds_its_files : forall indices folder,
  (forall i, i ∈ indices ->
     is_Some (folder !! LeftJpg i) /\ is_Some (folder !! RightJpg i)) ->
  (merge_frames decode encode_jpeg blocked folder indices).1 <> Some FileNotFoundError.
Proof.
  induction indices as [|idx rest IH]; intros folder Hall; [discriminate|].
  cbn [merge_frames].
  destruct (Hall idx ltac:(left)) as [[lb Hl] [rb Hr]].
  unfold merge_frame. rewrite Hl, Hr.
  destruct (decode lb) as [li|]; [|discriminate].
  destruct (decode rb) as [ri|]; [|discriminate].
  destruct (blocked idx); [discriminate|].
  destruct (encode_jpeg (merge_pair li ri)) as [jpg|]; [|discriminate].
  unfold Ok. cbv beta iota. apply IH.
  intros i Hi. rewrite !lookup_insert_ne by discriminate.
  apply Hall. right. exact Hi.
Qed.

(** X4.  Whatever the bytes of the file, after the walk the temporary
    folder holds a left frame file for every index below the left count and
    a right frame file for every index below the right count, while files
    with higher numbers and composite files are what they were before the
    walk; so the merge loop that follows never fails for a missing frame
    file. *)
Theorem walk_leaves_a_file_per_counted_frame (data : list byte)
    (tmp0 : gmap frame_file (list byte)) (st : walk_state) :
  extract_frames data tmp0 = Some (Ok (Walked st)) ->
  (forall i, (i < left_count st)%nat -> is_Some (tmp st !! LeftJpg i))
  /\ (forall i, (i < right_count st)%nat -> is_Some (tmp st !! RightJpg i))
  /\ (forall i, (left_count st <= i)%nat -> tmp st !! LeftJpg i = tmp0 !! LeftJpg i)
  /\ (forall i, (right_count st <= i)%nat -> tmp st !! RightJpg i = tmp0 !! RightJpg i)
  /\ (forall i, tmp st !! SbsJpg i = tmp0 !! SbsJpg i)
  /\ pair_frames decode encode_jpeg blocked st <> Raise FileNotFoundError.
Proof.
  intros Hrun.
  destruct (extract_frames_folder_inv data tmp0 st Hrun) as (Hl & Hr & Hl' & Hr' & Hs).
  repeat (split; [assumption|]).
  unfold pair_frames. destruct (_ =? _)%nat; [discriminate|].
  pose proof (merge_frames_finds_its_files
                (seq 0 (left_count st `min` right_count st)) (tmp st)) as Hm.
  destruct (merge_frames _ _ _ _ _) as [[e|] folder]; [|discriminate].
  intros [= ->]. apply Hm; [|reflexivity].
  intros i Hi. apply elem_of_seq in Hi. split; [apply Hl|apply Hr]; lia.
Qed.

End MergeAfterWalk.

Lemma walk_leaves_a_file_per_counted_frame_witness :
  exists st,
    extract_frames (encode_avi demo_avi) ∅ = Some (Ok (Walked st))
    /\ is_Some (tmp st !! LeftJpg 1)
    /\ tmp st !! LeftJpg 2 = None
    /\ pair_frames demo_decode (fun _ => Some []) (fun _ => false) st
       <> Raise FileNotFoundError.
Proof.
  pose proof (walk_of_well_formed demo_avi ∅ demo_avi_ok) as Hrun.
  set (st := emit_all (avi_movi demo_avi) (mkWalk 0 0 ∅)) in Hrun.
  destruct (walk_leaves_a_file_per_counted_frame demo_decode (fun _ => Some [])
              (fun _ => false) (encode_avi demo_avi) ∅ st Hrun) as (Hl & _ & Hl' & _ & _ & Hp).
  exists st. split; [exact Hrun|]. split; [apply Hl; vm_compute; lia|].
  split; [rewrite Hl' by (vm_compute; lia); reflexivity|exact Hp].
Defined.

(** *** A recording cut off inside a frame *)

Lemma ahead_length f l :
  ahead f l -> l <> [] -> Z.of_nat (length (f_data f)) = f_pos f + Z.of_nat (length l).
Proof.
  intros [Hpos Hd] Hne.
  assert (Hl : length (drop (Z.to_nat (f_pos f)) (f_data f)) = length l) by (rewrite Hd; reflexivity).
  rewrite length_drop in Hl.
  destruct l as [|x l]; [contradiction|]. simpl in Hl. simpl. lia.
Qed.

Lemma movi_loop_at_end fuel f movi_end st :
  0 <= f_pos f -> Z.of_nat (length (f_data f)) <= f_pos f ->
  movi_loop (S fuel) f movi_end st = Some (Ok st).
Proof.
  intros Hpos Hend. rewrite movi_loop_S. destruct (_ <? _); [|reflexivity].
  unfold movi_body, f_read.
  rewrite drop_ge by lia. rewrite take_nil. cbn [length].
  rewrite bool_decide_eq_true_2 by reflexivity. reflexivity.
Qed.

Lemma movi_loop_subs_then : forall subs f rest st fuel movi_end,
  Forall sub_ok subs ->
  ahead f (encode_subs subs ++ rest) ->
  f_pos f + Z.of_nat (length (encode_subs subs)) <= movi_end ->
  exists f',
    ahead f' rest
    /\ f_data f' = f_data f
    /\ f_pos f' = f_pos f + Z.of_nat (length (encode_subs subs))
    /\ movi_loop (length subs + fuel) f movi_end st
       = movi_loop fuel f' movi_end (emit_all subs st).
Proof.
  induction subs as [|sc subs IH]; intros f rest st fuel movi_end Hok Ha Hend.
  - exists f. split; [exact Ha|]. split; [reflexivity|].
    split; [simpl; lia|reflexivity].
  - inversion Hok as [|? ? Hsc Hrest]; subst.
    rewrite encode_subs_cons in Ha, Hend |- *. rewrite <- app_assoc in Ha.
    destruct (movi_body_sub f sc _ st Hsc Ha) as (f1 & Hb & Ha1 & Hdata & Hp1).
    pose proof (encode_sub_length sc (proj1 Hsc)) as Hlen.
    pose proof (Z.mod_pos_bound (Z.of_nat (length (sc_payload sc))) 2 ltac:(lia)).
    rewrite length_app in Hend |- *.
    destruct (IH f1 rest (emit sc st) fuel movi_end Hrest Ha1 ltac:(lia))
      as (f' & Ha' & Hd' & Hp' & Hrun).
    exists f'. split; [exact Ha'|]. split; [congruence|]. split; [lia|].
    cbn [length Nat.add]. rewrite movi_loop_S. unfold f_tell.
    rewrite (proj2 (Z.ltb_lt _ _)) by lia.
    rewrite Hb. exact Hrun.
Qed.

Lemma movi_body_cut_off f tag size part st :
  length tag = 4%nat -> 0 <= size < 2 ^ 32 -> Z.of_nat (length part) <= size ->
  ahead f (tag ++ le32 size ++ part) ->
  exists f',
    movi_body f st = Continue (f', emit (mkSub tag part x00%byte) st)
    /\ 0 <= f_pos f'
    /\ Z.of_nat (length (f_data f')) <= f_pos f'.
Proof.
  intros Htag Hsize Hcut Ha.
  pose proof (ahead_length f _ Ha) as Hlen.
  rewrite !length_app, le32_length, Htag in Hlen.
  specialize (Hlen ltac:(destruct tag; [discriminate|discriminate])).
  rewrite app_assoc in Ha.
  destruct (ahead_read _ _ _ Ha) as [Hr1 Ha1].
  rewrite length_app, le32_length, Htag in Hr1, Ha1.
  change (Z.of_nat (4 + 4)) with 8 in Hr1, Ha1.
  unfold movi_body. rewrite Hr1.
  rewrite (unpack_4sI_header _ _ Htag Hsize).
  assert (Hh : length (tag ++ le32 size) = 8%nat)
    by (rewrite length_app, le32_length, Htag; reflexivity).
  assert (Hne : tag ++ le32 size <> [])
    by (intros E; rewrite E in Hh; discriminate).
  assert (Hlt : ~ Z.of_nat (length (tag ++ le32 size)) < 8) by lia.
  rewrite (bool_decide_eq_false_2 _ Hne), (bool_decide_eq_false_2 _ Hlt).
  cbn [orb]. unfold Ok. cbv beta iota.
  destruct Ha1 as [Hp1 Hd1].
  unfold f_read at 1. cbn [f_pos f_data] in Hd1 |- *. rewrite Hd1.
  rewrite take_ge by lia.
  cbv beta iota zeta.
  pose proof (emit_tags (mkSub tag part x00%byte) st Htag) as He.
  cbn [sc_tag sc_payload] in He. rewrite He.
  eexists. split; [reflexivity|].
  destruct (size mod 2 =? 1); unfold f_seek_cur; cbn [f_pos f_data]; lia.
Qed.

(** X5.  A recording cut off inside a frame: when the file ends within the
    payload of a sub-chunk of the movie-data list (or right after it,
    before its pad byte), the frames before it are extracted as usual and
    the cut-off sub-chunk is still taken, its frame file holding the bytes
    that are left; the declared size is not compared with what was
    read. *)
Theorem cut_off_frame_is_still_written
    (riff_size : Z) (preamble : list chunk) (subs : list subchunk)
    (list_size : Z) (tag part : list byte) (size : Z)
    (tmp0 : gmap frame_file (list byte)) :
  Forall chunk_ok preamble -> Forall sub_ok subs ->
  4 + Z.of_nat (length (encode_subs subs)) < list_size < 2 ^ 32 ->
  length tag = 4%nat -> Z.of_nat (length part) <= size < 2 ^ 32 ->
  let st := emit (mkSub tag part x00%byte) (emit_all subs (mkWalk 0 0 tmp0)) in
  extract_frames
    (bytes_lit "RIFF" ++ le32 riff_size ++ bytes_lit "AVI "
     ++ encode_chunks preamble
     ++ bytes_lit "LIST" ++ le32 list_size ++ bytes_lit "movi"
     ++ encode_subs subs
     ++ tag ++ le32 size ++ part) tmp0
  = Some (Ok (Walked st))
  /\ (tag = bytes_lit "00dc" ->
      left_count st = S (length (payloads_of "00dc" subs))
      /\ tmp st !! LeftJpg (length (payloads_of "00dc" subs)) = Some part)
  /\ (tag = bytes_lit "02dc" ->
      right_count st = S (length (payloads_of "02dc" subs))
      /\ tmp st !! RightJpg (length (payloads_of "02dc" subs)) = Some part).
Proof.
  intros Hpre Hsubs Hlist Htag Hsize st.
  split.
  - set (tail := tag ++ le32 size ++ part).
    set (data := bytes_lit "RIFF" ++ _).
    assert (Hlen : (12 <= length data)%nat) by (unfold data; simpl; lia).
    rewrite (extract_frames_header data tmp0 Hlen).
    assert (E1 : take 4 data = bytes_lit "RIFF") by reflexivity.
    assert (E2 : take 4 (drop 8 data) = bytes_lit "AVI ") by reflexivity.
    rewrite (bool_decide_eq_false_2 _ (fun n => n E1)),
            (bool_decide_eq_false_2 _ (fun n => n E2)).
    cbn [orb].
    set (f1 := mkFile data 12).
    assert (Ha1 : ahead f1 (encode_chunks preamble
                            ++ (bytes_lit "LIST" ++ le32 list_size ++ bytes_lit "movi"
                                ++ encode_subs subs ++ tail))).
    { split; [simpl; lia|]. reflexivity. }
    destruct (walked_past_chunks _ Hpre f1 _ Ha1) as (n & f2 & Ha2 & Hd2 & Hp2 & Hloop).
    destruct (top_body_list f2 list_size (bytes_lit "movi") _ ltac:(lia) eq_refl Ha2)
      as (f3 & Hb & Ha3 & Hp3).
    rewrite bool_decide_eq_true_2 in Hb by reflexivity.
    destruct (movi_loop_subs_then subs f3 tail (mkWalk 0 0 tmp0) 2
                (f_pos f2 + 8 + list_size) Hsubs Ha3 ltac:(lia))
      as (f4 & Ha4 & Hd4 & Hp4 & Hsubsrun).
    destruct (movi_body_cut_off f4 tag size part (emit_all subs (mkWalk 0 0 tmp0))
                Htag ltac:(lia) ltac:(lia) Ha4) as (f5 & Hb5 & Hp5 & Hend5).
    assert (Hrun : top_loop (n + S (length subs + 2)) f1 (mkWalk 0 0 tmp0)
                   = Some (Ok st)).
    { rewrite Hloop, top_loop_S, Hb, Hsubsrun.
      rewrite movi_loop_S. unfold f_tell.
      rewrite (proj2 (Z.ltb_lt _ _)) by lia.
      rewrite Hb5. apply movi_loop_at_end; assumption. }
    apply top_loop_enough in Hrun; [|simpl; lia|].
    + change (f_data f1) with data in Hrun. rewrite Hrun. reflexivity.
    + change (f_data f1) with data. change (f_pos f1) with 12. lia.
  - destruct (emit_all_counts subs (mkWalk 0 0 tmp0)) as [Hl Hr]. simpl in Hl, Hr.
    split; intros ->; unfold st, emit; cbn [sc_tag sc_payload].
    + rewrite bool_decide_eq_true_2 by reflexivity. cbn [left_count tmp].
      rewrite Hl. split; [reflexivity|]. apply lookup_insert_eq.
    + rewrite bool_decide_eq_false_2 by discriminate.
      rewrite bool_decide_eq_true_2 by reflexivity. cbn [right_count tmp].
      rewrite Hr. split; [reflexivity|]. apply lookup_insert_eq.
Qed.

Lemma cut_off_frame_is_still_written_witness :
  exists st,
    extract_frames
      (bytes_lit "RIFF" ++ le32 0 ++ bytes_lit "AVI "
       ++ encode_chunks []
       ++ bytes_lit "LIST" ++ le32 100 ++ bytes_lit "movi"
       ++ encode_subs [mkSub (bytes_lit "00dc") [xaa]%byte x00%byte]
       ++ bytes_lit "02dc" ++ le32 10 ++ [x01; x02]%byte) ∅
    = Some (Ok (Walked st))
    /\ right_count st = 1%nat
    /\ tmp st !! RightJpg 0 = Some [x01; x02]%byte.
Proof.
  destruct (cut_off_frame_is_still_written 0 []
              [mkSub (bytes_lit "00dc") [xaa]%byte x00%byte] 100
              (bytes_lit "02dc") [x01; x02]%byte 10 ∅)
    as (Hrun & _ & Hright).
  - constructor.
  - constructor; [split; [reflexivity|simpl; lia]|constructor].
  - simpl. lia.
  - reflexivity.
  - simpl. lia.
  - eexists. split; [exact Hrun|]. exact (Hright eq_refl).
Defined.

Lemma movi_loop_short_tail fuel f tail movi_end st :
  ahead f tail -> (length tail < 8)%nat ->
  movi_loop (S fuel) f movi_end st = Some (Ok st).
Proof.
  intros [Hpos Hd] Hlen. rewrite movi_loop_S. destruct (_ <? _); [|reflexivity].
  unfold movi_body, f_read. rewrite Hd, take_ge by (simpl; lia).
  destruct tail as [|b tail]; [reflexivity|].
  rewrite (bool_decide_eq_true_2 (Z.of_nat (length (b :: tail)) < 8)) by lia.
  rewrite orb_true_r. reflexivity.
Qed.

(** X19.  A recording cut off between frames: when the file ends after a
    complete sub-chunk of the movie-data list, or inside the 8-byte header
    of the next one, every complete sub-chunk before the end is extracted
    although the list declares more bytes than the file holds. *)
Theorem file_ending_between_frames_keeps_all_frames
    (riff_size : Z) (preamble : list chunk) (subs : list subchunk)
    (list_size : Z) (tail : list byte) (tmp0 : gmap frame_file (list byte)) :
  Forall chunk_ok preamble -> Forall sub_ok subs ->
  4 + Z.of_nat (length (encode_subs subs)) <= list_size < 2 ^ 32 ->
  (length tail < 8)%nat ->
  extract_frames
    (bytes_lit "RIFF" ++ le32 riff_size ++ bytes_lit "AVI "
     ++ encode_chunks preamble
     ++ bytes_lit "LIST" ++ le32 list_size ++ bytes_lit "movi"
     ++ encode_subs subs ++ tail) tmp0
  = Some (Ok (Walked (emit_all subs (mkWalk 0 0 tmp0)))).
Proof.
  intros Hpre Hsubs Hlist Htail.
  set (data := bytes_lit "RIFF" ++ _).
  assert (Hlen : (12 <= length data)%nat) by (unfold data; simpl; lia).
  rewrite (extract_frames_header data tmp0 Hlen).
  assert (E1 : take 4 data = bytes_lit "RIFF") by reflexivity.
  assert (E2 : take 4 (drop 8 data) = bytes_lit "AVI ") by reflexivity.
  rewrite (bool_decide_eq_false_2 _ (fun n => n E1)),
          (bool_decide_eq_false_2 _ (fun n => n E2)).
  cbn [orb].
  set (f1 := mkFile data 12).
  assert (Ha1 : ahead f1 (encode_chunks preamble
                          ++ (bytes_lit "LIST" ++ le32 list_size ++ bytes_lit "movi"
                              ++ encode_subs subs ++ tail))).
  { split; [simpl; lia|]. reflexivity. }
  destruct (walked_past_chunks _ Hpre f1 _ Ha1) as (n & f2 & Ha2 & Hd2 & Hp2 & Hloop).
  destruct (top_body_list f2 list_size (bytes_lit "movi") _ ltac:(lia) eq_refl Ha2)
    as (f3 & Hb & Ha3 & Hp3).
  rewrite bool_decide_eq_true_2 in Hb by reflexivity.
  destruct (movi_loop_subs_then subs f3 tail (mkWalk 0 0 tmp0) 1
              (f_pos f2 + 8 + list_size) Hsubs Ha3 ltac:(lia))
    as (f4 & Ha4 & Hd4 & Hp4 & Hsubsrun).
  assert (Hrun : top_loop (n + S (length subs + 1)) f1 (mkWalk 0 0 tmp0)
                 = Some (Ok (emit_all subs (mkWalk 0 0 tmp0)))).
  { rewrite Hloop, top_loop_S, Hb, Hsubsrun.
    apply (movi_loop_short_tail 0 f4 tail _ _ Ha4 Htail). }
  apply top_loop_enough in Hrun; [|simpl; lia|].
  - change (f_data f1) with data in Hrun. rewrite Hrun. reflexivity.
  - change (f_data f1) with data. change (f_pos f1) with 12. lia.
Qed.

Lemma file_ending_between_frames_keeps_all_frames_witness :
  exists st,
    extract_frames
      (bytes_lit "RIFF" ++ le32 0 ++ bytes_lit "AVI "
       ++ encode_chunks []
       ++ bytes_lit "LIST" ++ le32 4000 ++ bytes_lit "movi"
       ++ encode_subs (avi_movi demo_avi) ++ bytes_lit "02d") ∅
    = Some (Ok (Walked st))
    /\ left_count st = 2%nat /\ right_count st = 1%nat.
Proof.
  pose proof (file_ending_between_frames_keeps_all_frames 0 [] (avi_movi demo_avi)
                4000 (bytes_lit "02d") ∅) as Hrun.
  eexists. split.
  - apply Hrun.
    + constructor.
    + apply demo_avi_ok.
    + vm_compute. split; [discriminate|reflexivity].
    + simpl. lia.
  - split; reflexivity.
Defined.

(** *** The tag tests *)

(** X20.  Although the tags are decoded with errors ignored and then
    stripped, the four tag tests of the walk are exact comparisons: four
    tag bytes are taken for LIST, movi, 00dc or 02dc only when they are
    these very bytes, so no other tag (one with spaces or bytes above
    0x7f, say) is ever mistaken for a list or a video frame. *)
Theorem chunk_tags_are_compared_exactly (bs : list byte) :
  length bs = 4%nat ->
  String.eqb (py_strip (decode_ascii_ignore bs)) "LIST"
    = bool_decide (bs = bytes_lit "LIST")
  /\ String.eqb (py_strip (decode_ascii_ignore bs)) "movi"
      = bool_decide (bs = bytes_lit "movi")
  /\ String.eqb (py_strip (decode_ascii_ignore bs)) "00dc"
      = bool_decide (bs = bytes_lit "00dc")
  /\ String.eqb (py_strip (decode_ascii_ignore bs)) "02dc"
      = bool_decide (bs = bytes_lit "02dc").
Proof.
  intros Hlen. repeat split; apply tag_test; solve [exact Hlen | reflexivity].
Qed.

Lemma chunk_tags_are_compared_exactly_witness :
  String.eqb (py_strip (decode_ascii_ignore [x30; x30; x64; x20]%byte)) "00dc" = false
  /\ String.eqb (py_strip (decode_ascii_ignore (bytes_lit "00dc"))) "00dc" = true.
Proof.
  destruct (chunk_tags_are_compared_exactly [x30; x30; x64; x20]%byte eq_refl)
    as (_ & _ & H1 & _).
  destruct (chunk_tags_are_compared_exactly (bytes_lit "00dc") eq_refl)
    as (_ & _ & H2 & _).
  split; [rewrite H1|rewrite H2]; reflexivity.
Defined.

(** *** A container without movie data *)

Lemma top_loop_at_end fuel f st :
  0 <= f_pos f -> Z.of_nat (length (f_data f)) <= f_pos f ->
  top_loop (S fuel) f st = Some (Ok st).
Proof.
  intros Hpos Hend. rewrite top_loop_S.
  unfold top_body, f_read.
  rewrite drop_ge by lia. rewrite take_nil. cbn [length].
  rewrite bool_decide_eq_true_2 by reflexivity. reflexivity.
Qed.

Section NoMovieData.

Variable decode : list byte -> option image.
Variable encode_jpeg : image -> option (list byte).
Variable blocked : nat -> bool.

(** X6.  A container that holds no movie-data list (the bare 12-byte
    header included) is walked to its end without a frame being written,
    and the pairing step reports the failure with both counts 0. *)
Theorem container_without_movie_data_has_no_frames
    (riff_size : Z) (preamble : list chunk) (tmp0 : gmap frame_file (list byte)) :
  Forall chunk_ok preamble ->
  extract_frames
    (bytes_lit "RIFF" ++ le32 riff_size ++ bytes_lit "AVI " ++ encode_chunks preamble)
    tmp0
  = Some (Ok (Walked (mkWalk 0 0 tmp0)))
  /\ pair_frames decode encode_jpeg blocked (mkWalk 0 0 tmp0) = Ok (NoValidPairs 0 0).
Proof.
  intros Hpre. split; [|reflexivity].
  set (data := bytes_lit "RIFF" ++ _).
  assert (Hlen : (12 <= length data)%nat) by (unfold data; simpl; lia).
  rewrite (extract_frames_header data tmp0 Hlen).
  assert (E1 : take 4 data = bytes_lit "RIFF") by reflexivity.
  assert (E2 : take 4 (drop 8 data) = bytes_lit "AVI ") by reflexivity.
  rewrite (bool_decide_eq_false_2 _ (fun n => n E1)),
          (bool_decide_eq_false_2 _ (fun n => n E2)).
  cbn [orb].
  set (f1 := mkFile data 12).
  assert (Ha1 : ahead f1 (encode_chunks preamble ++ [])).
  { split; [simpl; lia|]. rewrite app_nil_r. reflexivity. }
  destruct (walked_past_chunks _ Hpre f1 _ Ha1) as (n & f2 & Ha2 & Hd2 & Hp2 & Hloop).
  assert (Hrun : top_loop (n + 1) f1 (mkWalk 0 0 tmp0) = Some (Ok (mkWalk 0 0 tmp0))).
  { rewrite Hloop. apply top_loop_at_end; [apply Ha2|].
    destruct Ha2 as [Hp Hd].
    assert (Hl : length (drop (Z.to_nat (f_pos f2)) (f_data f2)) = 0%nat)
      by (rewrite Hd; reflexivity).
    rewrite length_drop in Hl. lia. }
  apply top_loop_enough in Hrun; [|simpl; lia|].
  - change (f_data f1) with data in Hrun. rewrite Hrun. reflexivity.
  - change (f_data f1) with data. change (f_pos f1) with 12. lia.
Qed.

End NoMovieData.

Lemma container_without_movie_data_has_no_frames_witness :
  extract_frames
    (bytes_lit "RIFF" ++ le32 0 ++ bytes_lit "AVI "
     ++ encode_chunks (avi_preamble demo_avi)) ∅
  = Some (Ok (Walked (mkWalk 0 0 ∅))).
Proof.
  apply (container_without_movie_data_has_no_frames demo_decode (fun _ => Some [])
           (fun _ => false) 0 (avi_preamble demo_avi) ∅).
  apply demo_avi_ok.
Defined.

(** ** The slice the marker locator returns *)

Lemma occ_first : forall l off a rest,
  occ off l = a :: rest ->
  off <= a /\ a + 4 <= off + Z.of_nat (length l)
  /\ (exists q, head4 (drop (Z.to_nat (a - off)) l) = Some q /\ is_marker q = true)
  /\ rest = occ (a + 4) (drop (Z.to_nat (a - off) + 4) l).
Proof.
  induction l as [|b tl IH]; intros off a rest; [discriminate|].
  cbn [occ].
  destruct (head4 (b :: tl)) as [q|] eqn:Hq.
  - destruct (is_marker q) eqn:Hm.
    + intros Hocc.
      pose proof (occ_skip off (b :: tl) q Hq Hm) as Hs.
      cbn [occ] in Hs. rewrite Hq, Hm in Hs. rewrite Hs in Hocc.
      injection Hocc as <- <-.
      replace (Z.to_nat (off - off)) with 0%nat by lia.
      split; [lia|]. split.
      { destruct tl as [|? [|? [|? ?]]]; try discriminate. simpl. lia. }
      split; [exists q; split; assumption|reflexivity].
    + intros Hocc. destruct (IH _ _ _ Hocc) as (H1 & H2 & (q' & Hq' & Hm') & H4).
      replace (Z.to_nat (a - off)) with (S (Z.to_nat (a - (off + 1)))) by lia.
      split; [lia|]. split; [simpl; lia|].
      split; [exists q'; split; assumption|exact H4].
  - intros Hocc. destruct (IH _ _ _ Hocc) as (H1 & H2 & (q' & Hq' & Hm') & H4).
    replace (Z.to_nat (a - off)) with (S (Z.to_nat (a - (off + 1)))) by lia.
    split; [lia|]. split; [simpl; lia|].
    split; [exists q'; split; assumption|exact H4].
Qed.

Lemma parse_mpo_offsets buf :
  parse_mpo_for_second_image buf =
  match occ 0 buf with
  | _ :: start :: third :: _ => Some (inr (start, third - start))
  | [_; start] => Some (inr (start, Z.of_nat (length buf) - start))
  | _ => Some (inl InsufficientMarkers)
  end.
Proof.
  unfold parse_mpo_for_second_image. rewrite scan_total.
  destruct (occ 0 buf) as [|a [|b [|c rest]]]; try reflexivity.
  unfold nth_offset. cbn [length lookup list_lookup].
  destruct (decide (Z.of_nat (S (S (S (length rest)))) < 2)); [lia|].
  destruct (decide (Z.of_nat (S (S (S (length rest)))) >= 3)); [reflexivity|lia].
Qed.

(** X7.  Whenever the marker locator returns a start and a length, the
    slice lies inside the buffer, begins at least four bytes in, is at
    least four bytes long and begins with one of the two patterns, and no
    pattern occurs inside it after its start: it ends at the next pattern
    or at the end of the buffer. *)
Theorem second_image_slice_is_in_bounds (buf : list byte) (start len : Z) :
  parse_mpo_for_second_image buf = Some (inr (start, len)) ->
  4 <= start /\ 4 <= len /\ start + len <= Z.of_nat (length buf)
  /\ marker_at buf start = true
  /\ length (take (Z.to_nat len) (drop (Z.to_nat start) buf)) = Z.to_nat len
  /\ (forall i, start < i < start + len -> marker_at buf i = false)
  /\ (start + len < Z.of_nat (length buf) -> marker_at buf (start + len) = true).
Proof.
  rewrite parse_mpo_offsets.
  pose proof (occ_sorted buf 0) as Hsorted.
  pose proof (marker_offsets_elem buf) as Helem.
  rewrite marker_offsets_occ in Helem.
  destruct (occ 0 buf) as [|a rest1] eqn:Hocc; [discriminate|].
  destruct (occ_first _ _ _ _ Hocc) as (Ha0 & Han & _ & Hrest1).
  destruct rest1 as [|b rest2]; [discriminate|].
  symmetry in Hrest1.
  destruct (occ_first _ _ _ _ Hrest1) as (Hab & Hbn & _ & Hrest2).
  rewrite length_drop in Hbn.
  assert (Hmb : marker_at buf b = true) by (apply Helem; right; left).
  assert (Hslice : forall len', 0 <= len' -> b + len' <= Z.of_nat (length buf) ->
            length (take (Z.to_nat len') (drop (Z.to_nat b) buf)) = Z.to_nat len').
  { intros len' H0 Hle. rewrite length_take, length_drop. lia. }
  apply StronglySorted_inv in Hsorted. destruct Hsorted as [Hs1 _].
  apply StronglySorted_inv in Hs1. destruct Hs1 as [Hs2 _].
  destruct rest2 as [|c rest3].
  - intros [= <- <-].
    split; [lia|]. split; [lia|]. split; [lia|]. split; [exact Hmb|].
    split; [apply Hslice; lia|]. split; [|lia].
    intros i Hi. destruct (marker_at buf i) eqn:Hmi; [|reflexivity].
    apply Helem in Hmi. apply elem_of_cons in Hmi. destruct Hmi as [->|Hmi]; [lia|].
    apply elem_of_cons in Hmi. destruct Hmi as [->|Hmi]; [lia|].
    inversion Hmi.
  - symmetry in Hrest2.
    destruct (occ_first _ _ _ _ Hrest2) as (Hbc & Hcn & _ & _).
    rewrite length_drop in Hcn. rewrite length_drop in Hcn.
    intros [= <- <-].
    split; [lia|]. split; [lia|]. split; [lia|]. split; [exact Hmb|].
    split; [apply Hslice; lia|]. split.
    + intros i Hi. destruct (marker_at buf i) eqn:Hmi; [|reflexivity].
      apply Helem in Hmi. apply elem_of_cons in Hmi. destruct Hmi as [->|Hmi]; [lia|].
      apply elem_of_cons in Hmi. destruct Hmi as [->|Hmi]; [lia|].
      apply elem_of_cons in Hmi. destruct Hmi as [->|Hmi]; [lia|].
      apply StronglySorted_inv in Hs2. destruct Hs2 as [_ Hf3].
      rewrite Forall_forall in Hf3. specialize (Hf3 _ Hmi). lia.
    + intros _. replace (b + (c - b)) with c by lia.
      apply Helem. right. right. left.
Qed.

Lemma second_image_slice_is_in_bounds_witness :
  4 <= 5 /\ 4 <= 6 /\ 5 + 6 <= Z.of_nat (length demo_still)
  /\ marker_at demo_still 5 = true.
Proof.
  destruct (second_image_slice_is_in_bounds demo_still 5 6 eq_refl)
    as (H1 & H2 & H3 & H4 & _).
  repeat split; assumption.
Defined.

(** ** The layout of the composite for any two images *)

Section LayoutProofs.

Variable resize : image -> Z -> Z -> result image.
Hypothesis resize_size : forall im W H im',
  resize im W H = Ok im' -> width im' = W /\ height im' = H.

Lemma chosen_height_positive left right target_height :
  0 < height left -> 0 < chosen_height left right target_height.
Proof.
  intros Hl. unfold chosen_height.
  destruct target_height as [t|]; [|lia].
  destruct (Z.ltb_spec 0 t); lia.
Qed.

Lemma make_sbs_unfold left right target_height :
  make_sbs resize left right target_height
  = bind (scale_to_h resize left (chosen_height left right target_height)) (fun L =>
    bind (scale_to_h resize right (chosen_height left right target_height)) (fun R =>
    Ok (compose L R (chosen_height left right target_height)))).
Proof.
  unfold make_sbs, bind, chosen_height.
  destruct target_height as [t|]; [|reflexivity].
  destruct (Z.ltb_spec 0 t) as [Ht|Ht].
  - rewrite (proj2 (Z.eqb_neq t 0)) by lia. reflexivity.
  - rewrite andb_false_r. reflexivity.
Qed.

(** X8.  For any two images of positive height, whenever the compositor
    returns, its result is as wide as the two scaled images together and
    as high as the chosen height, both scaled images have that height, and
    every pixel of the result is a pixel of exactly one of them: the left
    one fills the columns up to its width, the right one the columns from
    there on, with no gap, no overlap and nothing left black. *)
Theorem make_sbs_layout (left right : image) (target_height : option Z)
    (out : image) :
  0 < height left -> 0 < height right ->
  make_sbs resize left right target_height = Ok out ->
  exists L R,
    scale_to_h resize left (chosen_height left right target_height) = Ok L
    /\ scale_to_h resize right (chosen_height left right target_height) = Ok R
    /\ height L = height out /\ height R = height out
    /\ height out = chosen_height left right target_height
    /\ width out = width L + width R
    /\ (forall x y, 0 <= x < width L -> 0 <= y < height out ->
          getpixel out x y = getpixel L x y)
    /\ (forall x y, width L <= x < width out -> 0 <= y < height out ->
          getpixel out x y = getpixel R (x - width L) y).
Proof.
  intros Hl Hr. rewrite make_sbs_unfold.
  pose proof (chosen_height_positive left right target_height Hl) as HH.
  set (H := chosen_height left right target_height) in *.
  unfold bind.
  destruct (scale_to_h resize left H) as [e|L] eqn:HL; [discriminate|].
  destruct (scale_to_h resize right H) as [e|R] eqn:HR; [discriminate|].
  intros [= <-].
  destruct (scale_to_h_result resize resize_size left H L HH HL) as (HhL & _).
  destruct (scale_to_h_result resize resize_size right H R HH HR) as (HhR & _).
  exists L, R. unfold compose. cbn [width height paste image_new].
  repeat (split; [first [reflexivity | assumption]|]).
  split.
  - intros x y Hx Hy. apply paste_left_region; lia.
  - intros x y Hx Hy. apply paste_right_region; lia.
Qed.

End LayoutProofs.

Lemma make_sbs_layout_witness :
  exists out L R,
    make_sbs nearest_resize demo_tall demo_left (Some 720) = Ok out
    /\ width L = 1280 /\ width R = 1440
    /\ width out = width L + width R
    /\ getpixel out 1279 5 = getpixel L 1279 5
    /\ getpixel out 1280 5 = getpixel R 0 5.
Proof.
  set (L := mkImage 1280 720
              (fun x y => getpixel demo_tall (x * width demo_tall / 1280)
                                             (y * height demo_tall / 720))).
  set (R := mkImage 1440 720
              (fun x y => getpixel demo_left (x * width demo_left / 1440)
                                             (y * height demo_left / 720))).
  assert (HL : scale_to_h nearest_resize demo_tall 720 = Ok L).
  { unfold scale_to_h. change (height demo_tall) with 1080.
    change (width demo_tall) with 1920.
    rewrite scaled_width_1080_to_720. reflexivity. }
  assert (HR : scale_to_h nearest_resize demo_left 720 = Ok R).
  { unfold scale_to_h. change (height demo_left) with 2.
    change (width demo_left) with 4.
    rewrite scaled_width_small. reflexivity. }
  assert (Hrun : make_sbs nearest_resize demo_tall demo_left (Some 720)
                 = Ok (compose L R 720)).
  { rewrite make_sbs_unfold. change (chosen_height _ _ _) with 720.
    rewrite HL, HR. reflexivity. }
  destruct (make_sbs_layout nearest_resize nearest_resize_size
              demo_tall demo_left (Some 720) (compose L R 720)
              ltac:(simpl; lia) ltac:(simpl; lia) Hrun)
    as (L' & R' & HL' & HR' & _ & _ & _ & Hw & Hleft & Hright).
  change (chosen_height _ _ _) with 720 in HL', HR'.
  rewrite HL in HL'. rewrite HR in HR'.
  injection HL' as <-. injection HR' as <-.
  exists (compose L R 720), L, R.
  split; [exact Hrun|]. split; [reflexivity|]. split; [reflexivity|].
  split; [exact Hw|].
  split; [apply Hleft; simpl; lia|apply Hright; simpl; lia].
Defined.

(** ** What the still-image driver writes *)

Section StillOutputs.

Variable decode : list byte -> option image.
Variable resize : image -> Z -> Z -> result image.
Variable exif_transpose : image -> image.
Variable save_jpeg : image -> option (list byte).

Lemma read_two_frames_same_file (fs fs' : gmap path node) (p : path) (exif : bool) :
  fs' !! p = fs !! p ->
  read_two_frames_unreal_way decode exif_transpose fs' p exif
  = read_two_frames_unreal_way decode exif_transpose fs p exif.
Proof. intros H. unfold read_two_frames_unreal_way. rewrite H. reflexivity. Qed.

Lemma process_one_cases outdir exif target fs p line fs' :
  process_one decode resize exif_transpose save_jpeg outdir exif target fs p
    = Some (line, fs') ->
  (fs' = fs /\ exists e, line = FailLine (p_name p) e)
  \/ (exists left_img right_img sbs jpg,
        read_two_frames_unreal_way decode exif_transpose fs p exif
          = Some (Ok (left_img, right_img))
        /\ make_sbs resize left_img right_img target = Ok sbs
        /\ save_jpeg sbs = Some jpg
        /\ line = OkLine (p_name p) (stem p ++ "_sbs.jpg")
        /\ fs' = <[outdir ++ [(stem p ++ "_sbs.jpg")%string] := FileNode jpg]> fs).
Proof.
  unfold process_one.
  destruct (read_two_frames_unreal_way _ _ _ _ _) as [[e|[l r]]|];
    [intros [= <- <-]; left; eauto| |discriminate].
  destruct (make_sbs resize l r target) as [e|sbs] eqn:Hsbs;
    [intros [= <- <-]; left; eauto|].
  destruct (fs !! (outdir ++ _)) as [[d|]|];
    [|intros [= <- <-]; left; eauto|];
    (destruct (save_jpeg sbs) as [jpg|] eqn:Hsave;
     [intros [= <- <-]; right; exists l, r, sbs, jpg; repeat split; assumption
     |intros [= <- <-]; left; eauto]).
Qed.

Lemma run_tasks_total outdir exif target : forall tasks fs,
  exists r,
    run_tasks decode resize exif_transpose save_jpeg outdir exif target fs tasks
    = Some r.
Proof.
  induction tasks as [|p rest IH]; intros fs; [eexists; reflexivity|].
  cbn [run_tasks].
  destruct (process_one_total decode resize exif_transpose save_jpeg
              outdir exif target fs p) as (line & fs1 & -> & _).
  destruct (IH fs1) as [[lines fs2] ->]. eauto.
Qed.

(** X9.  A run of the still-image driver changes the file system only at
    the output paths [outdir/<stem>_sbs.jpg] of its tasks: every other
    path holds what it held before, and no path that existed is removed;
    the input files in particular are neither deleted nor altered unless
    one of them is itself such an output path. *)
Theorem run_tasks_writes_outputs_only
    (outdir : path) (exif : bool) (target : option Z) :
  forall (tasks : list path) (fs : gmap path node) (lines : list mpo_line)
         (fs' : gmap path node),
  run_tasks decode resize exif_transpose save_jpeg outdir exif target fs tasks
    = Some (lines, fs') ->
  (forall q, (forall t, t ∈ tasks -> q <> outdir ++ [(stem t ++ "_sbs.jpg")%string]) ->
     fs' !! q = fs !! q)
  /\ (forall q, is_Some (fs !! q) -> is_Some (fs' !! q)).
Proof.
  induction tasks as [|p rest IH]; intros fs lines fs'.
  - intros [= <- <-]. split; [reflexivity|auto].
  - cbn [run_tasks].
    destruct (process_one _ _ _ _ _ _ _ fs p) as [[line fs1]|] eqn:H1; [|discriminate].
    destruct (run_tasks _ _ _ _ _ _ _ fs1 rest) as [[lines2 fs2]|] eqn:H2;
      [|discriminate].
    intros [= <- <-].
    destruct (IH fs1 lines2 fs2 H2) as [Hframe Hkeep].
    destruct (process_one_cases _ _ _ _ _ _ _ H1)
      as [[-> _]|(l & r & sbs & jpg & _ & _ & _ & _ & ->)].
    + split.
      * intros q Hq. apply Hframe. intros t Ht. apply Hq. right. exact Ht.
      * exact Hkeep.
    + split.
      * intros q Hq. rewrite Hframe by (intros t Ht; apply Hq; right; exact Ht).
        apply lookup_insert_ne. intros E. apply (Hq p); [left|]. symmetry. exact E.
      * intros q Hq. apply Hkeep.
        destruct (decide (outdir ++ [(stem p ++ "_sbs.jpg")%string] = q)) as [<-|Hne].
        -- rewrite lookup_insert_eq. eauto.
        -- rewrite lookup_insert_ne by exact Hne. exact Hq.
Qed.

(** X10.  Two inputs with the same stem share one output path: when both
    are processed with success, both are reported OK with the same output
    name, and the file system afterwards is the one before both with one
    file written, which holds the composite of the two images read from
    the second input; the composite of the first input is lost. *)
Theorem same_stem_outputs_overwrite
    (outdir : path) (exif : bool) (target : option Z)
    (fs fs1 fs2 : gmap path node) (p q : path) (n1 o1 n2 o2 : string) :
  stem p = stem q ->
  process_one decode resize exif_transpose save_jpeg outdir exif target fs p
    = Some (OkLine n1 o1, fs1) ->
  process_one decode resize exif_transpose save_jpeg outdir exif target fs1 q
    = Some (OkLine n2 o2, fs2) ->
  o1 = o2
  /\ exists left_img right_img sbs jpg,
       read_two_frames_unreal_way decode exif_transpose fs1 q exif
         = Some (Ok (left_img, right_img))
       /\ (q <> outdir ++ [o2] ->
           read_two_frames_unreal_way decode exif_transpose fs q exif
             = Some (Ok (left_img, right_img)))
       /\ make_sbs resize left_img right_img target = Ok sbs
       /\ save_jpeg sbs = Some jpg
       /\ fs2 = <[outdir ++ [o2] := FileNode jpg]> fs
       /\ fs2 !! (outdir ++ [o2]) = Some (FileNode jpg).
Proof.
  intros Hstem H1 H2.
  destruct (process_one_cases _ _ _ _ _ _ _ H1)
    as [[_ [e [=]]]|(l1 & r1 & sbs1 & jpg1 & _ & _ & _ & [= _ ->] & ->)].
  destruct (process_one_cases _ _ _ _ _ _ _ H2)
    as [[_ [e [=]]]|(l2 & r2 & sbs2 & jpg2 & Hread & Hsbs & Hsave & [= _ ->] & ->)].
  rewrite Hstem in Hread |- *. split; [reflexivity|].
  exists l2, r2, sbs2, jpg2. split; [exact Hread|].
  split.
  { intros Hq. rewrite <- Hread. symmetry. apply read_two_frames_same_file.
    apply lookup_insert_ne. congruence. }
  split; [exact Hsbs|]. split; [exact Hsave|].
  split; [apply insert_insert_eq|apply lookup_insert_eq].
Qed.

End StillOutputs.

Lemma run_tasks_writes_outputs_only_witness :
  exists lines fs',
    run_tasks demo_decode nearest_resize (fun im => im) (fun _ => Some [])
      ["out"]%string false None demo_twins [["shots"; "a.mpo"]%string]
    = Some (lines, fs')
    /\ fs' !! ["shots"; "a.mpo"]%string = demo_twins !! ["shots"; "a.mpo"]%string
    /\ is_Some (fs' !! ["shots"; "a.jpg"]%string).
Proof.
  destruct (run_tasks_total demo_decode nearest_resize (fun im => im) (fun _ => Some [])
              ["out"]%string false None [["shots"; "a.mpo"]%string] demo_twins)
    as [[lines fs'] Hrun].
  destruct (run_tasks_writes_outputs_only demo_decode nearest_resize (fun im => im)
              (fun _ => Some []) ["out"]%string false None _ _ _ _ Hrun) as [Hframe Hkeep].
  exists lines, fs'. split; [exact Hrun|]. split.
  - apply Hframe. intros t Ht. apply list_elem_of_singleton in Ht. subst t.
    discriminate.
  - apply Hkeep. exists (FileNode demo_still). reflexivity.
Defined.

Lemma same_stem_outputs_overwrite_witness :
  exists fs1 fs2,
    process_one demo_decode_length nearest_resize (fun im => im) demo_save_width
      ["out"]%string false None demo_namesakes ["shots"; "a.mpo"]%string
    = Some (OkLine "a.mpo" "a_sbs.jpg", fs1)
    /\ fs1 !! ["out"; "a_sbs.jpg"]%string = Some (FileNode (le32 (11 + 6)))
    /\ process_one demo_decode_length nearest_resize (fun im => im) demo_save_width
         ["out"]%string false None fs1 ["shots"; "a.jpg"]%string
       = Some (OkLine "a.jpg" "a_sbs.jpg", fs2)
    /\ fs2 !! ["out"; "a_sbs.jpg"]%string = Some (FileNode (le32 (12 + 7)))
    /\ fs2 = <[ ["out"; "a_sbs.jpg"]%string := FileNode (le32 (12 + 7)) ]> demo_namesakes.
Proof.
  destruct (process_one demo_decode_length nearest_resize (fun im => im) demo_save_width
              ["out"]%string false None demo_namesakes ["shots"; "a.mpo"]%string)
    as [[l1 fs1]|] eqn:H1;
    [|apply (f_equal (option_map fst)) in H1; vm_compute in H1; discriminate].
  pose proof (f_equal (option_map fst) H1) as E1. vm_compute in E1.
  injection E1 as <-.
  destruct (process_one_cases _ _ _ _ _ _ _ _ _ _ _ H1)
    as [[_ [e [=]]]|(l1 & r1 & sbs1 & jpg1 & Hread1 & Hsbs1 & Hsave1 & _ & Hfs1)].
  vm_compute in Hread1. injection Hread1 as <- <-.
  vm_compute in Hsbs1. injection Hsbs1 as <-.
  vm_compute in Hsave1. injection Hsave1 as <-.
  cbv beta in Hfs1.
  destruct (process_one demo_decode_length nearest_resize (fun im => im) demo_save_width
              ["out"]%string false None fs1 ["shots"; "a.jpg"]%string)
    as [[l2 fs2]|] eqn:H2;
    [|rewrite Hfs1 in H2; apply (f_equal (option_map fst)) in H2;
      vm_compute in H2; discriminate].
  pose proof (f_equal (option_map fst) H2) as E2. rewrite Hfs1 in E2.
  vm_compute in E2. injection E2 as <-.
  destruct (same_stem_outputs_overwrite demo_decode_length nearest_resize (fun im => im)
              demo_save_width ["out"]%string false None demo_namesakes fs1 fs2
              ["shots"; "a.mpo"]%string ["shots"; "a.jpg"]%string
              _ _ _ _ eq_refl H1 H2)
    as (_ & l2 & r2 & sbs2 & jpg2 & _ & Hread2 & Hsbs2 & Hsave2 & Hfs2 & Hout2).
  specialize (Hread2 ltac:(discriminate)).
  vm_compute in Hread2. injection Hread2 as <- <-.
  vm_compute in Hsbs2. injection Hsbs2 as <-.
  vm_compute in Hsave2. injection Hsave2 as <-.
  exists fs1, fs2. split; [reflexivity|].
  split; [rewrite Hfs1; apply lookup_insert_eq|].
  split; [exact H2|]. split; [exact Hout2|exact Hfs2].
Defined.

(** ** The AVI driver: temporary folders and the report *)

Lemma rmtree_lookup fs p q :
  rmtree fs p !! q = if bool_decide (q = p) || is_below p q then None else fs !! q.
Proof.
  unfold rmtree.
  destruct (bool_decide (q = p) || is_below p q) eqn:Hin.
  - apply map_lookup_filter_None. right. intros x _ Hnot. apply Hnot. cbn [fst].
    apply orb_true_iff in Hin. destruct Hin as [Hq|Hb].
    + left. apply bool_decide_eq_true in Hq. exact Hq.
    + right. exact Hb.
  - apply orb_false_iff in Hin. destruct Hin as [Hq Hb].
    apply bool_decide_eq_false in Hq.
    destruct (fs !! q) as [x|] eqn:Hfs.
    + apply map_lookup_filter_Some. split; [exact Hfs|]. cbn [fst].
      intros [E|E]; [contradiction|congruence].
    + apply map_lookup_filter_None. left. exact Hfs.
Qed.

Lemma mkdir_from_dirs : forall rest fs base fs',
  mkdir_from fs base rest = Ok fs' ->
  forall k, (0 < k <= length rest)%nat ->
    fs' !! (base ++ take k rest) = Some DirNode.
Proof.
  induction rest as [|c rest IH]; intros fs base fs' Hm k Hk; [simpl in Hk; lia|].
  cbn [mkdir_from] in Hm.
  assert (Hstep : forall fs0, fs0 !! (base ++ [c]) = Some DirNode ->
            mkdir_from fs0 (base ++ [c]) rest = Ok fs' ->
            fs' !! (base ++ take k (c :: rest)) = Some DirNode).
  { intros fs0 H0 Hm0. destruct k as [|k]; [lia|]. cbn [take].
    destruct k as [|k].
    - rewrite take_0. rewrite (mkdir_from_spec _ _ _ _ Hm0), H0. reflexivity.
    - replace (base ++ c :: take (S k) rest) with ((base ++ [c]) ++ take (S k) rest)
        by (rewrite <- app_assoc; reflexivity).
      apply (IH _ _ _ Hm0). simpl in Hk. lia. }
  destruct (fs !! (base ++ [c])) as [[content|]|] eqn:Hc.
  - discriminate.
  - apply (Hstep fs Hc Hm).
  - apply (Hstep _ (lookup_insert_eq _ _ _) Hm).
Qed.

Lemma mkdir_parents_dirs fs p fs' q :
  mkdir_parents fs p = Ok fs' -> on_way p q = true -> fs' !! q = Some DirNode.
Proof.
  intros Hm Hon. unfold on_way in Hon. apply andb_true_iff in Hon.
  destruct Hon as [Hlen Htake]. apply bool_decide_eq_true in Hlen, Htake.
  rewrite <- Htake. apply (mkdir_from_dirs p fs [] fs' Hm). lia.
Qed.

Lemma mkdir_from_file_in_the_way : forall pre fs base c post d,
  (forall k, (0 < k <= length pre)%nat ->
     fs !! (base ++ take k pre) = Some DirNode) ->
  fs !! (base ++ pre ++ [c]) = Some (FileNode d) ->
  mkdir_from fs base (pre ++ c :: post)
  = Raise (match post with [] => FileExistsError | _ => NotADirectoryError end).
Proof.
  induction pre as [|x pre IH]; intros fs base c post d Hdirs Hfile.
  - cbn [app mkdir_from] in *. rewrite Hfile. reflexivity.
  - cbn [app mkdir_from].
    pose proof (Hdirs 1%nat ltac:(simpl; lia)) as Hx. cbn [take] in Hx.
    rewrite take_0 in Hx. rewrite Hx.
    apply (IH fs (base ++ [x]) c post d).
    + intros k Hk. rewrite <- app_assoc. apply (Hdirs (S k)). simpl. lia.
    + rewrite <- app_assoc. exact Hfile.
Qed.

Lemma is_below_app (temp rest : path) :
  rest <> [] -> is_below temp (temp ++ rest) = true.
Proof.
  intros Hne. unfold is_below. rewrite length_app, take_app_length.
  destruct rest as [|c rest]; [contradiction|].
  rewrite !bool_decide_eq_true_2; [reflexivity|reflexivity|simpl; lia].
Qed.

Lemma frame_path_nonempty x : frame_path x <> [].
Proof. destruct x; discriminate. Qed.

Lemma write_folder_dir temp folder fs q :
  write_folder temp folder fs !! q = Some DirNode -> fs !! q = Some DirNode.
Proof.
  unfold write_folder. rewrite lookup_union, lookup_fmap.
  destruct (kmap (fun x => temp ++ frame_path x) folder !! q) as [c|];
    cbn [fmap option_fmap option_map];
    destruct (fs !! q) as [n|]; cbn; congruence.
Qed.

Lemma temp_on_way output_path f :
  on_way (combined_folder output_path f) (temp_folder output_path f) = true.
Proof.
  unfold on_way, combined_folder, temp_folder.
  replace (output_path ++ [(stem f ++ "_tmp")%string; "sbs_frames"%string])
    with ((output_path ++ [(stem f ++ "_tmp")%string]) ++ ["sbs_frames"%string])
    by (rewrite <- app_assoc; reflexivity).
  rewrite take_app_length, !length_app. cbn [length].
  rewrite !bool_decide_eq_true_2 by (reflexivity || lia). reflexivity.
Qed.

Lemma combined_on_way output_path f :
  on_way (combined_folder output_path f) (combined_folder output_path f) = true.
Proof.
  unfold on_way. rewrite firstn_all.
  rewrite !bool_decide_eq_true_2; [reflexivity|reflexivity|].
  unfold combined_folder. rewrite length_app. simpl. lia.
Qed.

Lemma combined_as_temp output_path f :
  combined_folder output_path f = temp_folder output_path f ++ ["sbs_frames"%string].
Proof. unfold combined_folder, temp_folder. rewrite <- app_assoc. reflexivity. Qed.

Lemma frame_not_on_way output_path f x :
  on_way (combined_folder output_path f) (temp_folder output_path f ++ frame_path x)
  = false.
Proof.
  unfold on_way. rewrite combined_as_temp.
  destruct x as [n|n|n]; cbn [frame_path].
  - rewrite !length_app. cbn [length]. rewrite firstn_all2 by (rewrite length_app; simpl; lia).
    rewrite (bool_decide_eq_false_2 (_ = _)); [apply andb_false_r|].
    intros E. apply app_inv_head in E. discriminate.
  - rewrite !length_app. cbn [length]. rewrite firstn_all2 by (rewrite length_app; simpl; lia).
    rewrite (bool_decide_eq_false_2 (_ = _)); [apply andb_false_r|].
    intros E. apply app_inv_head in E. discriminate.
  - rewrite (bool_decide_eq_false_2 (_ < _ <= _)%nat); [reflexivity|].
    rewrite !length_app. cbn [length]. lia.
Qed.

Lemma sibling_not_on_way output_path f (name : string) :
  name <> (stem f ++ "_tmp")%string ->
  on_way (combined_folder output_path f) (output_path ++ [name]) = false.
Proof.
  intros Hne. unfold on_way, combined_folder.
  rewrite (bool_decide_eq_false_2 (take _ _ = _)); [apply andb_false_r|].
  rewrite length_app. cbn [length].
  rewrite take_app_ge by lia.
  replace (length output_path + 1 - length output_path)%nat with 1%nat by lia.
  cbn [take]. intros E. apply app_inv_head in E. congruence.
Qed.

Lemma outputs_not_temp (s : string) :
  (s ++ "_SBS_noaudio.mp4")%string <> (s ++ "_tmp")%string
  /\ (s ++ "_SBS.mp4")%string <> (s ++ "_tmp")%string.
Proof. split; intros E; apply string_app_inv_l in E; discriminate. Qed.

Section AviFolders.

Variable decode : list byte -> option image.
Variable encode_jpeg : image -> option (list byte).
Variable ffprobe : list byte -> string.
Variable ffmpeg_audio : gmap path node -> path -> option (list byte).
Variable ffmpeg_video : framerate -> gmap path node -> path -> option (list byte).
Variable ffmpeg_mux : gmap path node -> path -> path -> option (list byte).

(** Outside the temporary folder, a file that gets its line changes
    nothing, the two video files of a converted one apart. *)
Lemma process_avi_outside output_path fs f line fs' q :
  process_avi decode encode_jpeg ffprobe ffmpeg_audio ffmpeg_video ffmpeg_mux
    output_path fs f = Some (Ok line, fs') ->
  q <> temp_folder output_path f ->
  is_below (temp_folder output_path f) q = false ->
  (forall name rate n, line = Converted name rate n ->
     q <> output_path ++ [(stem f ++ "_SBS_noaudio.mp4")%string]
     /\ q <> output_path ++ [(stem f ++ "_SBS.mp4")%string]) ->
  fs' !! q = fs !! q.
Proof.
  intros H Hne Hbelow Hconv.
  assert (Hin : forall rest, rest <> [] -> q <> temp_folder output_path f ++ rest).
  { intros rest Hrest ->. rewrite is_below_app in Hbelow by exact Hrest. discriminate. }
  assert (Haudio : q <> temp_folder output_path f ++ ["audio.m4a"%string])
    by (apply Hin; discriminate).
  assert (Hframes : forall x, q <> temp_folder output_path f ++ frame_path x)
    by (intros x; apply Hin, frame_path_nonempty).
  unfold process_avi in H.
  destruct (fs !! f) as [[probed|]|]; try discriminate.
  destruct (parse_framerate (ffprobe probed)) as [e|rate]; [discriminate|].
  pose proof (write_file_lookup_ne fs _ (ffmpeg_audio fs f) q Haudio) as Ea.
  set (fs_audio := write_file fs _ _) in *.
  destruct (fs_audio !! f) as [[data|]|]; try discriminate.
  destruct (extract_frames data ∅) as [[e|[|st]]|]; try discriminate.
  - injection H as _ <-. exact Ea.
  - destruct (frames_blocked _ _ _); [discriminate|].
    destruct (pair_frames decode encode_jpeg _ st) as [e|[l r0|n folder]];
      [discriminate| |].
    + injection H as _ <-. rewrite write_folder_lookup_other by exact Hframes. exact Ea.
    + destruct (rmtree _ _ !! _) as [[c|]|]; [|discriminate|];
        injection H as <- <-;
        destruct (Hconv _ _ _ eq_refl) as [Hv Hf];
        rewrite ?lookup_delete_ne by congruence;
        rewrite rmtree_lookup, (bool_decide_eq_false_2 _ Hne), Hbelow;
        cbn [orb];
        rewrite !write_file_lookup_ne by assumption;
        rewrite write_folder_lookup_other by exact Hframes; exact Ea.
Qed.

(** A file that is skipped or whose extraction failed leaves the
    directories of the file system as they were. *)
Lemma process_avi_unconverted_dirs output_path fs f line fs' q :
  process_avi decode encode_jpeg ffprobe ffmpeg_audio ffmpeg_video ffmpeg_mux
    output_path fs f = Some (Ok line, fs') ->
  (forall name rate n, line <> Converted name rate n) ->
  (forall x, q <> temp_folder output_path f ++ frame_path x) ->
  fs !! q = Some DirNode -> fs' !! q = Some DirNode.
Proof.
  intros H Hline Hframes Hq. unfold process_avi in H.
  destruct (fs !! f) as [[probed|]|]; try discriminate.
  destruct (parse_framerate (ffprobe probed)) as [e|rate]; [discriminate|].
  pose proof (proj2 (write_file_dir fs (temp_folder output_path f ++ ["audio.m4a"%string])
                       (ffmpeg_audio fs f) q) Hq) as Ea.
  set (fs_audio := write_file fs _ _) in *.
  destruct (fs_audio !! f) as [[data|]|]; try discriminate.
  destruct (extract_frames data ∅) as [[e|[|st]]|]; try discriminate.
  - injection H as _ <-. exact Ea.
  - destruct (frames_blocked _ _ _); [discriminate|].
    destruct (pair_frames decode encode_jpeg _ st) as [e|[l r0|n folder]];
      [discriminate| |].
    + injection H as _ <-. rewrite write_folder_lookup_other by exact Hframes. exact Ea.
    + destruct (rmtree _ _ !! _) as [[c|]|]; [|discriminate|];
        injection H as <- _; exfalso; eapply Hline; reflexivity.
Qed.

(** A converted file leaves nothing of its temporary folder, nor the
    video without sound. *)
Lemma process_avi_converted_clean output_path fs f name rate n fs' :
  process_avi decode encode_jpeg ffprobe ffmpeg_audio ffmpeg_video ffmpeg_mux
    output_path fs f = Some (Ok (Converted name rate n), fs') ->
  (forall q, q = temp_folder output_path f
             \/ is_below (temp_folder output_path f) q = true -> fs' !! q = None)
  /\ fs' !! (output_path ++ [(stem f ++ "_SBS_noaudio.mp4")%string]) = None.
Proof.
  intros H. unfold process_avi in H.
  destruct (fs !! f) as [[probed|]|]; try discriminate.
  destruct (parse_framerate (ffprobe probed)) as [e|rate0]; [discriminate|].
  set (fs_audio := write_file fs _ _) in *.
  destruct (fs_audio !! f) as [[data|]|]; try discriminate.
  destruct (extract_frames data ∅) as [[e|[|st]]|]; try discriminate.
  destruct (frames_blocked _ _ _); [discriminate|].
  destruct (pair_frames decode encode_jpeg _ st) as [e|[l r0|n0 folder]];
    try discriminate.
  set (fs_clean := rmtree _ (temp_folder output_path f)) in *.
  assert (Hgone : forall q, q = temp_folder output_path f
                    \/ is_below (temp_folder output_path f) q = true ->
                    fs_clean !! q = None).
  { intros q Hq. unfold fs_clean. rewrite rmtree_lookup.
    destruct Hq as [->|Hq].
    - rewrite bool_decide_eq_true_2 by reflexivity. reflexivity.
    - rewrite Hq, orb_true_r. reflexivity. }
  destruct (fs_clean !! _) as [[c|]|] eqn:Hv; [|discriminate|];
    injection H as _ _ _ <-.
  - split; [|apply lookup_delete_eq].
    intros q Hq. apply lookup_delete_None. right. apply Hgone, Hq.
  - split; [exact Hgone|exact Hv].
Qed.

(** X11.  The loop of the AVI driver over one file that gets its line.
    A converted file has its temporary folder removed with all below it,
    the audio and the frame files included, and the video without sound
    is deleted, while a skipped file and a file whose extraction failed
    leave the folder [<stem>_tmp] and its [sbs_frames] folder behind in
    the output directory.  Outside the temporary folder nothing else in
    the file system changes, apart from the directories on the way to it
    being made and, for a converted file, the two video files
    [<stem>_SBS_noaudio.mp4] and [<stem>_SBS.mp4]. *)
Theorem only_a_converted_file_loses_its_temp_folder
    (fs fs' : gmap path node) (output_path avi_file : path) (line : avi_line) :
  avi_loop decode encode_jpeg ffprobe ffmpeg_audio ffmpeg_video ffmpeg_mux
    fs output_path [avi_file] []
    = Some (Ok [line], fs') ->
  (match line with
   | Converted _ _ _ =>
       (forall q, q = output_path ++ [(stem avi_file ++ "_tmp")%string]
                  \/ is_below (output_path ++ [(stem avi_file ++ "_tmp")%string]) q = true ->
                  fs' !! q = None)
       /\ fs' !! (output_path ++ [(stem avi_file ++ "_SBS_noaudio.mp4")%string]) = None
   | _ =>
       fs' !! (output_path ++ [(stem avi_file ++ "_tmp")%string]) = Some DirNode
       /\ fs' !! combined_folder output_path avi_file = Some DirNode
   end)
  /\ (forall q, on_way (combined_folder output_path avi_file) q = false ->
        is_below (output_path ++ [(stem avi_file ++ "_tmp")%string]) q = false ->
        (forall name rate n, line = Converted name rate n ->
           q <> output_path ++ [(stem avi_file ++ "_SBS_noaudio.mp4")%string]
           /\ q <> output_path ++ [(stem avi_file ++ "_SBS.mp4")%string]) ->
        fs' !! q = fs !! q).
Proof.
  cbn [avi_loop].
  destruct (mkdir_parents fs (combined_folder output_path avi_file)) as [e|fs1] eqn:Hmk;
    [discriminate|].
  destruct (process_avi _ _ _ _ _ _ output_path fs1 avi_file) as [[[e|l] fs2]|] eqn:Hrun;
    try discriminate.
  cbn [app]. intros [= <- <-].
  fold (temp_folder output_path avi_file).
  pose proof (temp_on_way output_path avi_file) as Hon1.
  pose proof (combined_on_way output_path avi_file) as Hon2.
  pose proof (mkdir_parents_dirs _ _ _ _ Hmk Hon1) as Htemp.
  pose proof (mkdir_parents_dirs _ _ _ _ Hmk Hon2) as Hcomb.
  assert (Hother : forall q, on_way (combined_folder output_path avi_file) q = false ->
            fs1 !! q = fs !! q).
  { intros q Hq. rewrite (mkdir_parents_spec _ _ _ Hmk q), Hq.
    destruct (fs !! q); reflexivity. }
  assert (Hkeep : (forall name rate n, l <> Converted name rate n) ->
            fs2 !! temp_folder output_path avi_file = Some DirNode
            /\ fs2 !! combined_folder output_path avi_file = Some DirNode).
  { intros Hl. split.
    - apply (process_avi_unconverted_dirs _ _ _ _ _ _ Hrun Hl); [|exact Htemp].
      intros x E. apply (f_equal (@length string)) in E.
      rewrite length_app in E. pose proof (frame_path_nonempty x).
      destruct (frame_path x); [contradiction|simpl in E; lia].
    - apply (process_avi_unconverted_dirs _ _ _ _ _ _ Hrun Hl); [|exact Hcomb].
      rewrite combined_as_temp. intros x E. apply app_inv_head in E.
      destruct x; discriminate. }
  split.
  - destruct l.
    + apply Hkeep. discriminate.
    + apply Hkeep. discriminate.
    + apply (process_avi_converted_clean _ _ _ _ _ _ _ Hrun).
  - intros q Hq Hbelow Hconv.
    assert (Hne : q <> temp_folder output_path avi_file)
      by (intros ->; rewrite Hon1 in Hq; discriminate).
    rewrite (process_avi_outside _ _ _ _ _ _ Hrun Hne Hbelow Hconv).
    apply Hother, Hq.
Qed.

Lemma avi_loop_names : forall avi_files fs output_path results lines fs',
  avi_loop decode encode_jpeg ffprobe ffmpeg_audio ffmpeg_video ffmpeg_mux fs output_path avi_files results
    = Some (Ok lines, fs') ->
  exists new_lines,
    lines = results ++ new_lines
    /\ Forall2 (fun l f => exists r r',
                  process_avi decode encode_jpeg ffprobe ffmpeg_audio ffmpeg_video ffmpeg_mux
                    output_path r f = Some (Ok l, r'))
               new_lines avi_files.
Proof.
  induction avi_files as [|f rest IH]; intros fs output_path results lines fs' H.
  - cbn [avi_loop] in H. injection H as <- _. exists []. rewrite app_nil_r.
    split; [reflexivity|constructor].
  - cbn [avi_loop] in H.
    destruct (mkdir_parents fs (combined_folder output_path f)) as [e|fs1];
      [discriminate|].
    destruct (process_avi decode encode_jpeg ffprobe ffmpeg_audio ffmpeg_video ffmpeg_mux
                output_path fs1 f) as [[[e|line] fs2]|] eqn:Hp;
      [discriminate| |discriminate].
    destruct (IH _ _ _ _ _ H) as (new_lines & -> & Hall).
    exists (line :: new_lines). rewrite <- app_assoc. split; [reflexivity|].
    constructor; [eauto|exact Hall].
Qed.

Lemma process_avi_name output_path fs f l fs' :
  process_avi decode encode_jpeg ffprobe ffmpeg_audio ffmpeg_video ffmpeg_mux
    output_path fs f = Some (Ok l, fs') ->
  avi_line_name l = p_name f.
Proof.
  unfold process_avi.
  destruct (fs !! f) as [[probed|]|]; try discriminate.
  destruct (parse_framerate _) as [e|rate]; [discriminate|].
  destruct (write_file _ _ _ !! f) as [[data|]|]; try discriminate.
  destruct (extract_frames _ _) as [[e|[|st]]|]; try discriminate.
  - intros [= <- _]. reflexivity.
  - destruct (frames_blocked _ _ _); [discriminate|].
    destruct (pair_frames _ _ _ _) as [e|[l0 r0|n folder]]; try discriminate.
    + intros [= <- _]. reflexivity.
    + destruct (rmtree _ _ !! _) as [[c|]|]; try discriminate;
        intros [= <- _]; reflexivity.
Qed.

(** X12.  When no exception stops the loop of the AVI driver, the report
    has exactly one line for every file, in the order of the files, each
    naming its file: skipped and failed files get their line like the
    converted ones. *)
Theorem avi_loop_reports_every_file
    (avi_files : list path) (fs fs' : gmap path node) (output_path : path)
    (lines : list avi_line) :
  avi_loop decode encode_jpeg ffprobe ffmpeg_audio ffmpeg_video ffmpeg_mux fs output_path avi_files []
    = Some (Ok lines, fs') ->
  map avi_line_name lines = map p_name avi_files.
Proof.
  intros H.
  destruct (avi_loop_names _ _ _ _ _ _ H) as (new_lines & -> & Hall).
  cbn [app]. clear H.
  induction Hall as [|l f ls fs0 (r & r' & Hr) _ IH]; [reflexivity|].
  cbn [map]. rewrite (process_avi_name _ _ _ _ _ Hr), IH. reflexivity.
Qed.

End AviFolders.

Lemma only_a_converted_file_loses_its_temp_folder_witness :
  exists rate fs',
    avi_loop demo_decode (fun _ => Some [x01]%byte) (fun _ => "30/1"%string)
      (fun _ _ => Some [x0a]%byte) (fun _ _ _ => Some [x0b]%byte)
      (fun _ _ _ => Some [x0c]%byte)
      demo_batch ["out"]%string [["clips"; "a.avi"]%string] []
    = Some (Ok [Converted "a.avi" rate 1], fs')
    /\ fs' !! ["out"; "a_tmp"]%string = None
    /\ fs' !! ["out"; "a_tmp"; "audio.m4a"]%string = None
    /\ fs' !! ["out"; "a_tmp"; "sbs_frames"; "sbs_0000.jpg"]%string = None
    /\ fs' !! ["out"; "a_SBS_noaudio.mp4"]%string = None
    /\ fs' !! ["clips"; "a.avi"]%string = demo_batch !! ["clips"; "a.avi"]%string.
Proof.
  destruct (avi_loop demo_decode (fun _ => Some [x01]%byte) (fun _ => "30/1"%string)
              (fun _ _ => Some [x0a]%byte) (fun _ _ _ => Some [x0b]%byte)
              (fun _ _ _ => Some [x0c]%byte)
              demo_batch ["out"]%string [["clips"; "a.avi"]%string] [])
    as [[r fs']|] eqn:Hrun;
    [|apply (f_equal (option_map fst)) in Hrun; vm_compute in Hrun; discriminate].
  pose proof (f_equal (option_map fst) Hrun) as E. vm_compute in E.
  injection E as <-.
  destruct (only_a_converted_file_loses_its_temp_folder demo_decode
              (fun _ => Some [x01]%byte) (fun _ => "30/1"%string)
              (fun _ _ => Some [x0a]%byte) (fun _ _ _ => Some [x0b]%byte)
              (fun _ _ _ => Some [x0c]%byte) demo_batch fs'
              ["out"]%string ["clips"; "a.avi"]%string _ Hrun)
    as [[Hgone Hvideo] Hframe].
  eexists _, fs'. split; [reflexivity|].
  split; [apply Hgone; left; reflexivity|].
  split; [apply Hgone; right; reflexivity|].
  split; [apply Hgone; right; reflexivity|].
  split; [exact Hvideo|].
  apply Hframe; [reflexivity|reflexivity|].
  intros name rate n _. split; discriminate.
Defined.

Lemma avi_loop_reports_every_file_witness :
  exists lines fs',
    avi_loop demo_decode (fun _ => Some []) (fun _ => "30/1"%string) (fun _ _ => None) (fun _ _ _ => None) (fun _ _ _ => None)
      demo_batch ["out"]%string
      [["clips"; "a.avi"]%string; ["clips"; "c.avi"]%string] []
    = Some (Ok lines, fs')
    /\ map avi_line_name lines = ["a.avi"; "c.avi"]%string.
Proof.
  destruct (avi_loop demo_decode (fun _ => Some []) (fun _ => "30/1"%string) (fun _ _ => None) (fun _ _ _ => None) (fun _ _ _ => None)
              demo_batch ["out"]%string
              [["clips"; "a.avi"]%string; ["clips"; "c.avi"]%string] [])
    as [[r fs']|] eqn:Hrun;
    [|apply (f_equal (option_map fst)) in Hrun; vm_compute in Hrun; discriminate].
  assert (E : exists lines, r = Ok lines).
  { pose proof (f_equal (option_map (fun x => match fst x with
                                               | inl _ => false
                                               | inr _ => true
                                               end)) Hrun) as E.
    vm_compute in E. destruct r as [e|lines]; [discriminate|eauto]. }
  destruct E as [lines ->].
  exists lines, fs'. split; [reflexivity|].
  apply (avi_loop_reports_every_file demo_decode (fun _ => Some [])
           (fun _ => "30/1"%string) (fun _ _ => None) (fun _ _ _ => None) (fun _ _ _ => None) _ _ _ _ _ Hrun).
Defined.

(** ** An output path that is a regular file *)

Lemma mkdir_parents_onto_file fs p d post :
  p <> [] ->
  fs !! p = Some (FileNode d) ->
  (forall k, (0 < k < length p)%nat -> fs !! take k p = Some DirNode) ->
  mkdir_parents fs (p ++ post)
  = Raise (match post with [] => FileExistsError | _ => NotADirectoryError end).
Proof.
  intros Hne Hfile Hdirs.
  destruct (exists_last Hne) as (pre & c & ->).
  unfold mkdir_parents. rewrite <- app_assoc. cbn [app].
  apply (mkdir_from_file_in_the_way pre fs [] c post d).
  - intros k Hk. cbn [app].
    rewrite <- (take_app_le pre [c] k) by lia.
    apply Hdirs. rewrite length_app. simpl. lia.
  - exact Hfile.
Qed.

Section BlockedOutput.

Variable decode : list byte -> option image.
Variable encode_jpeg : image -> option (list byte).
Variable ffprobe : list byte -> string.
Variable ffmpeg_audio : gmap path node -> path -> option (list byte).
Variable ffmpeg_video : framerate -> gmap path node -> path -> option (list byte).
Variable ffmpeg_mux : gmap path node -> path -> path -> option (list byte).
Variable resize : image -> Z -> Z -> result image.
Variable exif_transpose : image -> image.
Variable save_jpeg : image -> option (list byte).
Variable completion : list path -> list path.

(** X13.  When the output path is an existing regular file (below
    existing directories), nothing is processed and nothing is written:
    the still-image driver lets the FileExistsError of [mkdir] escape to
    its caller, before it looks at the input; the AVI driver, which makes
    no directory when the path exists, reports "No AVI files found" for
    an input without AVI files and otherwise returns the
    NotADirectoryError of the first temporary folder as its one error
    line. *)
Theorem output_path_taken_by_a_file
    (fs : gmap path node) (input_path output_folder : path) (d : list byte)
    (exif_autorotate recursive : bool) (target_height : option Z) (workers : Z) :
  output_folder <> [] ->
  fs !! output_folder = Some (FileNode d) ->
  (forall k, (0 < k < length output_folder)%nat ->
     fs !! take k output_folder = Some DirNode) ->
  mpo_to_sbs decode resize exif_transpose save_jpeg completion
             fs input_path output_folder exif_autorotate recursive
             target_height workers
    = Some (Raise FileExistsError, fs)
  /\ extract_and_create_sbs_with_audio decode encode_jpeg ffprobe ffmpeg_audio ffmpeg_video ffmpeg_mux
       fs input_path output_folder
     = Some (match avi_discover fs input_path with
             | [] => ReportNoAvi
             | _ => ReportError NotADirectoryError
             end, fs).
Proof.
  intros Hne Hfile Hdirs. split.
  - unfold mpo_to_sbs.
    pose proof (mkdir_parents_onto_file fs output_folder d [] Hne Hfile Hdirs) as Hmk.
    rewrite app_nil_r in Hmk. rewrite Hmk. reflexivity.
  - unfold extract_and_create_sbs_with_audio, p_exists.
    rewrite bool_decide_eq_true_2 by (rewrite Hfile; eauto).
    cbn [negb]. unfold Ok at 1.
    destruct (avi_discover fs input_path) as [|f rest]; [reflexivity|].
    cbn [avi_loop]. unfold combined_folder.
    rewrite (mkdir_parents_onto_file fs output_folder d _ Hne Hfile Hdirs).
    reflexivity.
Qed.

End BlockedOutput.

Lemma output_path_taken_by_a_file_witness :
  mpo_to_sbs demo_decode nearest_resize (fun im => im) (fun _ => Some []) (fun l => l)
             demo_blocked ["clips"]%string ["out"]%string true false None 1
    = Some (Raise FileExistsError, demo_blocked)
  /\ option_map fst
       (extract_and_create_sbs_with_audio demo_decode (fun _ => Some [])
          (fun _ => "30/1"%string) (fun _ _ => None) (fun _ _ _ => None) (fun _ _ _ => None)
          demo_blocked ["clips"]%string ["out"]%string)
     = Some (ReportError NotADirectoryError).
Proof.
  destruct (output_path_taken_by_a_file demo_decode (fun _ => Some [])
              (fun _ => "30/1"%string) (fun _ _ => None) (fun _ _ _ => None) (fun _ _ _ => None) nearest_resize (fun im => im)
              (fun _ => Some []) (fun l => l)
              demo_blocked ["clips"]%string ["out"]%string [] true false None 1)
    as [Hm Ha].
  - discriminate.
  - reflexivity.
  - intros k Hk. simpl in Hk. lia.
  - split; [exact Hm|]. rewrite Ha. vm_compute. reflexivity.
Defined.

(** ** What the two directory scans find *)

Lemma listing_elem fs q : q ∈ listing fs <-> is_Some (fs !! q).
Proof.
  unfold listing. rewrite list_elem_of_fmap. split.
  - intros ([k x] & -> & Hin). apply elem_of_map_to_list in Hin. simpl. eauto.
  - intros [x Hx]. exists (q, x). split; [reflexivity|].
    apply elem_of_map_to_list. exact Hx.
Qed.

Lemma listing_NoDup fs : NoDup (listing fs).
Proof. apply NoDup_fst_map_to_list. Qed.

(** X14.  The directory scan of the AVI driver returns exactly the
    entries of the directory whose name ends in [.avi] as written, files
    and directories alike and nothing from below a sub-directory; so, on a
    file system that tells upper from lower case, a file such as
    [DSCF0001.AVI] is taken when it is given as the input itself but is
    not found when its directory is given. *)
Theorem avi_directory_scan_matches_the_exact_suffix
    (fs : gmap path node) (inp : path) :
  is_dir fs inp = true ->
  (forall p, p ∈ avi_discover fs inp
             <-> is_Some (fs !! p) /\ is_entry inp p = true
                 /\ ends_with ".avi" (p_name p) = true)
  /\ (forall p, is_file fs p = true -> py_lower (suffix p) = ".avi"%string ->
        ends_with ".avi" (p_name p) = false ->
        avi_discover fs p = [p] /\ p ∉ avi_discover fs inp).
Proof.
  intros Hdir.
  assert (Hscan : avi_discover fs inp = glob_avi fs inp).
  { unfold avi_discover. unfold is_dir in Hdir. unfold is_file.
    destruct (fs !! inp) as [[c|]|] eqn:Hi; try discriminate.
    cbn [andb]. unfold is_dir. rewrite Hi. reflexivity. }
  assert (Hiff : forall p, p ∈ avi_discover fs inp
             <-> is_Some (fs !! p) /\ is_entry inp p = true
                 /\ ends_with ".avi" (p_name p) = true).
  { intros p. rewrite Hscan. unfold glob_avi, iterdir.
    rewrite !list_elem_of_filter, listing_elem. tauto. }
  split; [exact Hiff|].
  intros p Hfile Hsuffix Hends. split.
  - unfold avi_discover. rewrite Hfile, Hsuffix. reflexivity.
  - intros Hin. apply Hiff in Hin. destruct Hin as (_ & _ & He). congruence.
Qed.

Lemma avi_directory_scan_matches_the_exact_suffix_witness :
  avi_discover demo_card ["card"; "DSCF0001.AVI"]%string
    = [["card"; "DSCF0001.AVI"]%string]
  /\ ~ (["card"; "DSCF0001.AVI"]%string ∈ avi_discover demo_card ["card"]%string)
  /\ ["card"; "clip.avi"]%string ∈ avi_discover demo_card ["card"]%string.
Proof.
  destruct (avi_directory_scan_matches_the_exact_suffix demo_card ["card"]%string
              eq_refl) as [Hiff Hupper].
  destruct (Hupper ["card"; "DSCF0001.AVI"]%string eq_refl eq_refl eq_refl)
    as [Hone Hnot].
  split; [exact Hone|]. split; [exact Hnot|].
  apply Hiff. split; [exists DirNode; reflexivity|]. split; reflexivity.
Defined.

(** X15.  The tasks of the still-image driver are never empty and hold no
    path twice; each is a regular file, the input itself or a path below
    it (an entry of it when the scan is not recursive); and every file the
    flat scan of a directory takes, the recursive scan takes too. *)
Theorem still_image_tasks_are_distinct_files
    (fs : gmap path node) (inp : path) (recursive : bool) (tasks : list path) :
  mpo_discover fs inp recursive = inr tasks ->
  tasks <> [] /\ NoDup tasks
  /\ (forall p, p ∈ tasks ->
        is_file fs p = true
        /\ (p = inp \/ is_below inp p = true)
        /\ (recursive = false -> p = inp \/ is_entry inp p = true))
  /\ (forall deep, mpo_discover fs inp true = inr deep -> tasks ⊆ deep).
Proof.
  unfold mpo_discover.
  destruct (is_file fs inp) eqn:Hfile.
  - destruct (negb _); [discriminate|]. intros [= <-].
    split; [discriminate|]. split; [apply NoDup_singleton|]. split.
    + intros p Hp. apply list_elem_of_singleton in Hp. subst p. auto.
    + intros deep [= <-]. reflexivity.
  - destruct (is_dir fs inp); [|discriminate].
    set (keep := fun p : path =>
                   is_file fs p && str_in (py_lower (suffix p)) image_suffixes = true).
    assert (Hsub : forall q, is_entry inp q = true -> is_below inp q = true).
    { intros q Hq. unfold is_entry, is_below in *.
      apply andb_true_iff in Hq. destruct Hq as [Hl Ht].
      apply bool_decide_eq_true in Hl.
      rewrite Ht, bool_decide_eq_true_2 by lia. reflexivity. }
    destruct (filter keep (if recursive then rglob_all fs inp else iterdir fs inp))
      as [|t ts] eqn:Htasks; [discriminate|].
    intros [= <-]. rewrite <- Htasks.
    split; [rewrite Htasks; discriminate|].
    split.
    { apply NoDup_filter. destruct recursive; unfold rglob_all, iterdir;
        apply NoDup_filter, listing_NoDup. }
    split.
    + intros p Hp. apply list_elem_of_filter in Hp. destruct Hp as [Hk Hp].
      unfold keep in Hk. apply andb_true_iff in Hk. destruct Hk as [Hf _].
      split; [exact Hf|].
      destruct recursive; unfold rglob_all, iterdir in Hp;
        apply list_elem_of_filter in Hp; destruct Hp as [Hb _].
      * split; [right; exact Hb|discriminate].
      * split; [right; apply Hsub, Hb|intros _; right; exact Hb].
    + intros deep.
      destruct (filter keep (rglob_all fs inp)) as [|d ds] eqn:Hdeep; [discriminate|].
      intros [= <-]. rewrite <- Hdeep. intros p Hp.
      apply list_elem_of_filter in Hp. destruct Hp as [Hk Hp].
      apply list_elem_of_filter. split; [exact Hk|].
      destruct recursive; [exact Hp|].
      unfold rglob_all, iterdir in *.
      apply list_elem_of_filter in Hp. destruct Hp as [Hb Hl].
      apply list_elem_of_filter. split; [apply Hsub, Hb|exact Hl].
Qed.

Lemma still_image_tasks_are_distinct_files_witness :
  exists tasks,
    mpo_discover demo_stills ["shots"]%string false = inr tasks
    /\ NoDup tasks
    /\ forall p, p ∈ tasks -> is_file demo_stills p = true.
Proof.
  destruct (mpo_discover demo_stills ["shots"]%string false) as [r|tasks] eqn:Hd;
    [vm_compute in Hd; discriminate|].
  destruct (still_image_tasks_are_distinct_files demo_stills ["shots"]%string
              false tasks Hd) as (_ & Hnd & Hall & _).
  exists tasks. split; [reflexivity|]. split; [exact Hnd|].
  intros p Hp. apply (Hall p Hp).
Defined.

(** ** One file from end to end, and what the drivers let escape *)

Section EndToEnd.

Variable decode : list byte -> option image.
Variable encode_jpeg : image -> option (list byte).
Variable ffprobe : list byte -> string.
Variable ffmpeg_audio : gmap path node -> path -> option (list byte).
Variable ffmpeg_video : framerate -> gmap path node -> path -> option (list byte).
Variable ffmpeg_mux : gmap path node -> path -> path -> option (list byte).

(** X17.  One well-formed AVI file, named as one, whose frame rate
    parses, whose temporary folders can be made, with no directory lying
    at the name of a frame file or of the video without sound, and whose
    paired frames are images the library reads and whose composites it
    writes, is converted: the loop returns, and the line of the file
    reports the parsed rate and as many frames as the smaller of the two
    streams holds; with one stream empty the line is the extraction
    failure with both counts. *)
Theorem well_formed_file_is_converted
    (fs fs1 : gmap path node) (output_path avi_file : path) (a : avi)
    (rate : framerate) :
  fs !! avi_file = Some (FileNode (encode_avi a)) ->
  ends_with ".avi" (py_lower (p_name avi_file)) = true ->
  avi_ok a ->
  parse_framerate (ffprobe (encode_avi a)) = Ok rate ->
  mkdir_parents fs (combined_folder output_path avi_file) = Ok fs1 ->
  (forall x, fs !! (temp_folder output_path avi_file ++ frame_path x) <> Some DirNode) ->
  fs !! (output_path ++ [(stem avi_file ++ "_SBS_noaudio.mp4")%string]) <> Some DirNode ->
  (forall i, (i < Nat.min (length (payloads_of "00dc" (avi_movi a)))
                          (length (payloads_of "02dc" (avi_movi a))))%nat ->
     exists lb rb li ri,
       payloads_of "00dc" (avi_movi a) !! i = Some lb
       /\ payloads_of "02dc" (avi_movi a) !! i = Some rb
       /\ decode lb = Some li /\ decode rb = Some ri
       /\ forall out, side_by_side li ri out -> is_Some (encode_jpeg out)) ->
  exists fs',
    avi_loop decode encode_jpeg ffprobe ffmpeg_audio ffmpeg_video ffmpeg_mux
      fs output_path [avi_file] []
    = Some (Ok [if (Nat.min (length (payloads_of "00dc" (avi_movi a)))
                            (length (payloads_of "02dc" (avi_movi a))) =? 0)%nat
                then ExtractionFailed (p_name avi_file)
                       (length (payloads_of "00dc" (avi_movi a)))
                       (length (payloads_of "02dc" (avi_movi a)))
                else Converted (p_name avi_file) rate
                       (Nat.min (length (payloads_of "00dc" (avi_movi a)))
                                (length (payloads_of "02dc" (avi_movi a))))],
            fs').
Proof.
  intros Hfile Hname Hok Hrate Hmk Hframes Hvideo Hdec.
  cbn [avi_loop]. rewrite Hmk. unfold Ok at 1.
  assert (Hfile1 : fs1 !! avi_file = Some (FileNode (encode_avi a))).
  { rewrite (mkdir_parents_spec _ _ _ Hmk), Hfile. reflexivity. }
  assert (Hvideo1 : fs1 !! (output_path ++ [(stem avi_file ++ "_SBS_noaudio.mp4")%string])
                    <> Some DirNode).
  { rewrite (mkdir_parents_spec _ _ _ Hmk).
    rewrite sibling_not_on_way by apply outputs_not_temp.
    destruct (fs !! (output_path ++ [(stem avi_file ++ "_SBS_noaudio.mp4")%string]))
      as [n|] eqn:E; [|discriminate].
    intros H. apply Hvideo. exact H. }
  assert (Hframes1 : forall x ffa,
            write_file fs1 (temp_folder output_path avi_file ++ ["audio.m4a"%string]) ffa
              !! (temp_folder output_path avi_file ++ frame_path x) <> Some DirNode).
  { intros x ffa H. apply write_file_dir in H.
    rewrite (mkdir_parents_spec _ _ _ Hmk), frame_not_on_way in H.
    specialize (Hframes x).
    destruct (fs !! (temp_folder output_path avi_file ++ frame_path x));
      [congruence|discriminate]. }
  destruct (avi_name_not_written output_path avi_file avi_file Hname) as (Haudio & _).
  unfold process_avi. rewrite Hfile1, Hrate. unfold Ok at 1.
  rewrite write_file_lookup_ne by exact Haudio. rewrite Hfile1.
  rewrite (walk_of_well_formed a ∅ Hok).
  set (st := emit_all (avi_movi a) (mkWalk 0 0 ∅)).
  set (lefts := payloads_of "00dc" (avi_movi a)) in *.
  set (rights := payloads_of "02dc" (avi_movi a)) in *.
  destruct (emit_all_counts (avi_movi a) (mkWalk 0 0 ∅)) as [HL HR].
  fold st lefts rights in HL, HR. cbn [left_count right_count Nat.add] in HL, HR.
  unfold Ok at 1. cbv beta iota.
  assert (Hfree : frames_blocked
                    (write_file fs1 (temp_folder output_path avi_file ++ ["audio.m4a"%string])
                       (ffmpeg_audio fs1 avi_file))
                    (temp_folder output_path avi_file) (tmp st) = false).
  { unfold frames_blocked. rewrite bool_decide_eq_true_2; [reflexivity|].
    intros x content _. unfold is_dir.
    pose proof (Hframes1 x (ffmpeg_audio fs1 avi_file)) as Hx.
    destruct (write_file fs1 _ _ !! _) as [[c|]|]; [reflexivity|contradiction|reflexivity]. }
  rewrite Hfree.
  set (blocked := fun idx : nat => is_dir _ _).
  assert (Hsbs : forall idx, blocked idx = false).
  { intros idx. unfold blocked, is_dir.
    destruct (write_folder _ _ _ !! _) as [[c|]|] eqn:E; [reflexivity| |reflexivity].
    apply write_folder_dir in E. apply Hframes1 in E. contradiction. }
  unfold pair_frames. rewrite HL, HR.
  set (n := Nat.min (length lefts) (length rights)) in *.
  destruct (Nat.eqb_spec n 0) as [Hz|Hnz]; [eexists; reflexivity|].
  assert (Hall : forall idx, idx ∈ seq 0 n ->
            is_Some (composite_of decode encode_jpeg (tmp st) idx)).
  { intros idx Hidx. apply elem_of_seq in Hidx.
    assert (Hsame : composite_of decode encode_jpeg (tmp st) idx
                    = composite_at decode encode_jpeg lefts rights idx).
    { unfold composite_of, composite_at, st.
      rewrite emit_all_left, emit_all_right. cbn [left_count right_count].
      fold lefts rights.
      rewrite !decide_True by (unfold n in Hidx; lia).
      rewrite !Nat.sub_0_r. reflexivity. }
    rewrite Hsame. unfold composite_at.
    destruct (Hdec idx ltac:(lia)) as (lb & rb & li & ri & -> & -> & -> & -> & Henc).
    apply Henc, merge_pair_side_by_side. }
  destruct (merge_frames_spec decode encode_jpeg blocked (seq 0 n) (tmp st)
              (fun idx _ => Hsbs idx) Hall)
    as (folder & -> & _).
  unfold Ok at 1. cbv beta iota.
  destruct (rmtree _ _ !! _) as [[c|]|] eqn:Hv; [eexists; reflexivity| |eexists; reflexivity].
  exfalso. apply Hvideo1.
  rewrite rmtree_lookup in Hv. destruct (_ || _); [discriminate|].
  apply write_file_dir, write_file_dir, write_folder_dir, write_file_dir in Hv.
  exact Hv.
Qed.

End EndToEnd.

Section StillEscapes.

Variable decode : list byte -> option image.
Variable resize : image -> Z -> Z -> result image.
Variable exif_transpose : image -> image.
Variable save_jpeg : image -> option (list byte).
Variable completion : list path -> list path.


End StillEscapes.

Lemma well_formed_file_is_converted_witness :
  exists rate fs',
    avi_loop demo_decode (fun _ => Some [x01]%byte) (fun _ => "30/1"%string)
      (fun _ _ => Some [x0a]%byte) (fun _ _ _ => Some [x0b]%byte)
      (fun _ _ _ => Some [x0c]%byte)
      demo_batch ["out"]%string [["clips"; "a.avi"]%string] []
    = Some (Ok [Converted "a.avi" rate 1], fs').
Proof.
  destruct (parse_framerate "30/1") as [e|rate] eqn:Hrate;
    [vm_compute in Hrate; discriminate|].
  exists rate.
  destruct (mkdir_parents demo_batch (combined_folder ["out"]%string ["clips"; "a.avi"]%string))
    as [e|fs1] eqn:Hmk;
    [apply (f_equal (fun r : result (gmap path node) =>
                       match r with inl _ => true | inr _ => false end)) in Hmk;
     vm_compute in Hmk; discriminate|].
  apply (well_formed_file_is_converted demo_decode (fun _ => Some [x01]%byte)
           (fun _ => "30/1"%string)
           (fun _ _ => Some [x0a]%byte) (fun _ _ _ => Some [x0b]%byte)
           (fun _ _ _ => Some [x0c]%byte)
           demo_batch fs1 ["out"]%string ["clips"; "a.avi"]%string demo_avi rate).
  - reflexivity.
  - reflexivity.
  - exact demo_avi_ok.
  - exact Hrate.
  - exact Hmk.
  - intros x. destruct (demo_batch !! _) as [[c|]|] eqn:E; try discriminate.
    exfalso.
    assert (Hdirs : forall q, demo_batch !! q = Some DirNode ->
              q = ["clips"]%string \/ q = ["out"]%string).
    { intros q Hq. unfold demo_batch in Hq.
      repeat (apply lookup_insert_Some in Hq as [[<- Hq]|[_ Hq]];
              [first [discriminate | auto]|]).
      apply lookup_singleton_Some in Hq as [<- _]. auto. }
    destruct (Hdirs _ E) as [Hq|Hq]; destruct x; discriminate.
  - discriminate.
  - intros i Hi. vm_compute in Hi.
    assert (i = 0%nat) as -> by lia.
    exists [xaa; xbb; xcc]%byte, [xdd; xee]%byte, demo_left, demo_left.
    repeat (split; [reflexivity|]). intros out _. eexists. reflexivity.
Defined.

(** A directory at the name of a frame file, or a composite the encoder
    refuses, ends the whole call with the one error. *)
Example directory_at_a_frame_name_raises :
  option_map fst
    (extract_and_create_sbs_with_audio demo_decode (fun _ => Some [x01]%byte)
       (fun _ => "30/1"%string)
       (fun _ _ => None) (fun _ _ _ => None) (fun _ _ _ => None)
       demo_frame_dir ["clips"; "a.avi"]%string ["out"]%string)
  = Some (ReportError IsADirectoryError).
Proof. vm_compute. reflexivity. Qed.

Example refused_composite_raises :
  option_map fst
    (extract_and_create_sbs_with_audio demo_decode (fun _ => None)
       (fun _ => "30/1"%string)
       (fun _ _ => None) (fun _ _ _ => None) (fun _ _ _ => None)
       demo_batch ["clips"; "a.avi"]%string ["out"]%string)
  = Some (ReportError EncodeError).
Proof. vm_compute. reflexivity. Qed.

(** ** The names of the frame files *)

(** X16.  The frame files are named [left_NNNN.jpg], [right_NNNN.jpg] and
    [sbs_frames/sbs_NNNN.jpg] with the index in decimal, padded with zeros
    to at least four digits: two different frames never share a file name,
    also past index 9999 where the number grows beyond four digits, so no
    frame overwrites another. *)
Theorem frame_file_names_are_distinct (x y : frame_file) :
  (frame_path x = frame_path y -> x = y)
  /\ (forall n, (4 <= String.length (fmt_04d n))%nat).
Proof.
  split.
  - assert (Hinj : forall (p s : string) n m,
              (p ++ fmt_04d n ++ s)%string = (p ++ fmt_04d m ++ s)%string -> n = m).
    { intros p s n m H. apply string_app_inv_l, string_app_inv_r in H.
      apply fmt_04d_inj, H. }
    destruct x as [n|n|n], y as [m|m|m]; cbn [frame_path]; intros H;
      try discriminate.
    + injection H as H. apply Hinj in H. congruence.
    + injection H as H. apply Hinj in H. congruence.
    + injection H as H. apply Hinj in H. congruence.
  - intros n. rewrite fmt_04d_length. lia.
Qed.

Example frame_path_examples :
  frame_path (LeftJpg 7) = ["left_0007.jpg"%string]
  /\ frame_path (RightJpg 123) = ["right_0123.jpg"%string]
  /\ frame_path (SbsJpg (100 * 123 + 45))
     = ["sbs_frames"%string; "sbs_12345.jpg"%string].
Proof. vm_compute. repeat split; reflexivity. Qed.

(** ** The size of the thread pool *)

(** X21.  The thread pool has at least one worker and, the CPU count
    being positive or unknown, never more workers than CPUs (4 when the
    count is unknown) nor more than were asked for; the default of the
    workers slider, half the CPUs, is a size the pool takes as it is. *)
Theorem pool_size_bounds (workers : Z) (cpu_count : option Z) :
  (forall n, cpu_count = Some n -> 0 < n) ->
  1 <= pool_size workers cpu_count
  /\ pool_size workers cpu_count <= cpu_count_or_4 cpu_count
  /\ (1 <= workers -> pool_size workers cpu_count <= workers)
  /\ pool_size (default_workers cpu_count) cpu_count = default_workers cpu_count.
Proof.
  intros Hcpu.
  assert (Hc : 1 <= cpu_count_or_4 cpu_count).
  { unfold cpu_count_or_4. destruct cpu_count as [n|]; [|lia].
    specialize (Hcpu n eq_refl). destruct (Z.eqb_spec n 0); lia. }
  unfold pool_size, default_workers.
  set (c := cpu_count_or_4 cpu_count) in *.
  assert (Hhalf : c / 2 <= c) by (apply Z.div_le_upper_bound; lia).
  repeat split; lia.
Qed.

Lemma pool_size_bounds_witness :
  pool_size 32 (Some 8) = 8 /\ pool_size (default_workers None) None = 2.
Proof.
  destruct (pool_size_bounds 32 (Some 8)) as (_ & _ & _ & _).
  { intros n [= <-]. lia. }
  destruct (pool_size_bounds 2 None) as (_ & _ & _ & Hd).
  { intros n [=]. }
  split; [reflexivity|exact Hd].
Defined.
